(** * Etheria Online: the gameplay simulation core of [main.js]

    A shallow embedding of the gameplay functions of [src/main.js]
    (spawning, player movement, enemy AI, hitscan combat, ammo and
    health bookkeeping, reset, start-up and the events of the host)
    together with the properties stated about them and with the
    invariant of the worlds the game can reach ([world_ok_run]).

    Conventions of the embedding.
    - JavaScript numbers that only ever hold integers in the program
      (ammo, reserve ammo, health, kills, enemy counts) are [Z].
    - Timestamps returned by [performance.now()] are rationals [Q]
      (every finite double is a rational); the comparison of the shot
      cooldown is exact.
    - Positions, velocities, elapsed seconds, speeds and cooldowns are
      real numbers [R]: the arithmetic of the program is read over the
      reals, rounding of doubles is not modelled.  A value the program
      computes is therefore a rounding error away from the value of the
      embedding.  The properties allow for that where it shows in the
      behaviour of the program: where the program compares a value it
      has computed with a bound (the distance of a repositioned enemy
      with the melee threshold, the distance of a separated pair with
      the separation distance, a cooldown run down over several frames
      with 0, the damping factor of a 100 ms frame with 1) they are
      stated up to [rounding_slack], with a margin, or for the strict
      side of the bound, and a range is closed at an end the doubles
      can reach.
    - [three.js], the DOM and the browser timers are collaborators.  Of
      an [Object3D] only its identity, its parent and its position are
      kept; of the camera its position and the image of (0,0,-1) under
      its quaternion; of a timer its delay and its callback.  Purely
      cosmetic effects (muzzle flash, hit marker, tint and scale pulse,
      kill feed, HUD bars, on-screen log) are left out. *)

From Stdlib Require Import ZArith QArith Qreals Reals Psatz Lia List Bool Sorted.
Import ListNotations.

(** ** Numbers *)

Definition Rltb (a b : R) : bool := if Rlt_dec a b then true else false.
Definition Rleb (a b : R) : bool := if Rle_dec a b then true else false.
Definition Qltb (a b : Q) : bool := negb (Qle_bool b a).

(** [Math.sign]. *)
Definition Math_sign (a : R) : R :=
  if Rlt_dec 0 a then 1%R else if Rlt_dec a 0 then (-1)%R else 0%R.

(** ** THREE.Vector3 *)

Record Vector3 : Type := vec3 { x_ : R; y_ : R; z_ : R }.

Module Vec.
Local Open Scope R_scope.

Definition zero : Vector3 := vec3 0 0 0.
Definition add (a b : Vector3) : Vector3 :=
  vec3 (x_ a + x_ b) (y_ a + y_ b) (z_ a + z_ b).
Definition sub (a b : Vector3) : Vector3 :=
  vec3 (x_ a - x_ b) (y_ a - y_ b) (z_ a - z_ b).
Definition multiplyScalar (a : Vector3) (s : R) : Vector3 :=
  vec3 (x_ a * s) (y_ a * s) (z_ a * s).
Definition lengthSq (a : Vector3) : R :=
  x_ a * x_ a + y_ a * y_ a + z_ a * z_ a.
Definition length (a : Vector3) : R := sqrt (lengthSq a).
(** [divideScalar(s)] multiplies by [1 / s], as three.js does. *)
Definition divideScalar (a : Vector3) (s : R) : Vector3 :=
  multiplyScalar a (1 / s).
(** [normalize()] is [divideScalar(length() || 1)]: the zero vector stays. *)
Definition normalize (a : Vector3) : Vector3 :=
  divideScalar a (if Req_dec_T (length a) 0 then 1 else length a).
Definition addScaledVector (a v : Vector3) (s : R) : Vector3 :=
  vec3 (x_ a + x_ v * s) (y_ a + y_ v * s) (z_ a + z_ v * s).
Definition crossVectors (a b : Vector3) : Vector3 :=
  vec3 (y_ a * z_ b - z_ a * y_ b)
       (z_ a * x_ b - x_ a * z_ b)
       (x_ a * y_ b - y_ a * x_ b).
Definition set_y (a : Vector3) (v : R) : Vector3 := vec3 (x_ a) v (z_ a).
Definition distance (a b : Vector3) : R := length (sub a b).
End Vec.

(** ** Constants *)

Section Constants.
Local Open Scope R_scope.
Definition PLAYER_RADIUS : R := 0.6.
Definition ENEMY_RADIUS : R := 0.8.
Definition ENEMY_MIN_DISTANCE_BUFFER : R := 0.15.
Definition PLAYER_MOVE_SPEED : R := 25.
Definition PLAYER_SPRINT_SPEED : R := 45.
Definition ENEMY_BASE_SPEED : R := 6.
Definition ENEMY_RANDOM_SPEED : R := 3.
Definition cameraOffset : Vector3 := vec3 0 1.6 0.
End Constants.

Definition PLAYER_ATTACK_DAMAGE : Z := 10.



Definition INITIAL_ENEMY_COUNT : Z := 30.
Definition MAX_ENEMIES : Z := 120.
Definition WAVE_SIZE : Z := 6.
Definition WAVE_INTERVAL_MS : Z := 10000.
(** [state.maxHp], [state.maxAmmo] and [state.shootCooldown] are set in the
    literal that creates [state] and never assigned afterwards. *)
Definition maxHp : Z := 100.
Definition maxAmmo : Z := 30.
Definition shootCooldown : Q := 100.

(** ** Terrain *)

Definition getTerrainHeight (x z : R) : R :=
  ((sin (x * 0.01) + cos (z * 0.01)) * 10 +
   (sin (x * 0.05) + cos (z * 0.05)) * 2)%R.

(** ** The scene graph, as far as the game reads it

    An enemy is a [THREE.Group] with eight child meshes.  The group is
    identified by the number of its creation; [bodyMesh] of the enemy
    with group [g] is [Mesh g Body]. *)

Inductive PartName : Type :=
  Body | Head | EyeLeft | EyeRight | ArmLeft | ArmRight | LegLeft | LegRight.

Inductive Object3D : Type :=
| SceneRoot : Object3D
| Group : nat -> Object3D
| Mesh : nat -> PartName -> Object3D.

Definition PartName_eq_dec (a b : PartName) : {a = b} + {a <> b}.
Proof. decide equality. Defined.

Definition Object3D_eq_dec (a b : Object3D) : {a = b} + {a <> b}.
Proof. decide equality; [apply Nat.eq_dec | apply PartName_eq_dec | apply Nat.eq_dec]. Defined.

(** [object.parent] for the objects of a live enemy. *)
Definition parent (o : Object3D) : option Object3D :=
  match o with
  | SceneRoot => None
  | Group _ => Some SceneRoot
  | Mesh g _ => Some (Group g)
  end.

(** One entry of the array returned by [Raycaster.intersectObjects]. *)
Record Intersection : Type := { distance : R; object : Object3D }.

(** ** Enemy records *)

Module Enemy.
Record t : Type := {
  mesh : nat;               (* identity of the enemy's THREE.Group *)
  position : Vector3;       (* mesh.position *)
  speed : R;
  hp : Z;
  attackCooldown : R;
  attackRate : R;
  radius : R
}.

Definition set_position (v : Vector3) (r : t) : t :=
  {| mesh := mesh r; position := v; speed := speed r; hp := hp r;
     attackCooldown := attackCooldown r; attackRate := attackRate r;
     radius := radius r |}.
Definition set_hp (v : Z) (r : t) : t :=
  {| mesh := mesh r; position := position r; speed := speed r; hp := v;
     attackCooldown := attackCooldown r; attackRate := attackRate r;
     radius := radius r |}.
Definition set_attackCooldown (v : R) (r : t) : t :=
  {| mesh := mesh r; position := position r; speed := speed r; hp := hp r;
     attackCooldown := v; attackRate := attackRate r; radius := radius r |}.

(** [enemy.radius || ENEMY_RADIUS] *)
Definition radius_or_default (e : t) : R :=
  if Req_dec_T (radius e) 0 then ENEMY_RADIUS else radius e.
End Enemy.

(** ** Timers of the host *)

Inductive Callback : Type :=
| ReloadDone    (* the arrow function passed to setTimeout in reload *)
| Respawn       (* the arrow function passed to setTimeout in applyDamageToPlayer *)
.

Record Timer : Type := { delay : Z; callback : Callback }.

(** ** The [state] object, the module globals and the host *)

Record Move : Type := { fwd : bool; bwd : bool; left : bool; right : bool }.

Record State : Type := {
  move : Move;
  sprint : bool;
  onGround : bool;
  velocity : Vector3;
  direction : Vector3;
  hp : Z;
  enemies : list Enemy.t;
  ammo : Z;
  reserveAmmo : Z;
  reloading : bool;
  lastShot : Q;
  kills : Z
}.

Record Globals : Type := {
  scene : bool;                     (* [scene] has been created *)
  playerObj : bool;                 (* [playerObj] has been created *)
  playerPos : Vector3;              (* playerObj.position *)
  cameraPos : Vector3;              (* camera.position *)
  cameraLook : Vector3;             (* (0,0,-1) rotated by camera.quaternion *)
  controlsLocked : bool;            (* controls && controls.isLocked *)
  allowMouseDragFallback : bool;
  waveIntervalHandle : option nat;
  prevTime : Q
}.

Record Host : Type := {
  pending : list Timer;             (* one-shot timers not yet fired *)
  intervals : list nat;             (* handles of the active intervals *)
  nextTimer : nat;                  (* next handle setInterval returns *)
  nextMesh : nat;                   (* identity of the next THREE.Group *)
  rngPos : nat                      (* number of Math.random() calls so far *)
}.

Record World : Type := { st : State; gl : Globals; host : Host }.

Definition set_move (v : Move) (r : State) : State :=
  {| move := v; sprint := sprint r; onGround := onGround r;
     velocity := velocity r; direction := direction r; hp := hp r;
     enemies := enemies r; ammo := ammo r; reserveAmmo := reserveAmmo r;
     reloading := reloading r; lastShot := lastShot r; kills := kills r |}.
Definition set_sprint (v : bool) (r : State) : State :=
  {| move := move r; sprint := v; onGround := onGround r;
     velocity := velocity r; direction := direction r; hp := hp r;
     enemies := enemies r; ammo := ammo r; reserveAmmo := reserveAmmo r;
     reloading := reloading r; lastShot := lastShot r; kills := kills r |}.
Definition set_onGround (v : bool) (r : State) : State :=
  {| move := move r; sprint := sprint r; onGround := v;
     velocity := velocity r; direction := direction r; hp := hp r;
     enemies := enemies r; ammo := ammo r; reserveAmmo := reserveAmmo r;
     reloading := reloading r; lastShot := lastShot r; kills := kills r |}.
Definition set_velocity (v : Vector3) (r : State) : State :=
  {| move := move r; sprint := sprint r; onGround := onGround r;
     velocity := v; direction := direction r; hp := hp r;
     enemies := enemies r; ammo := ammo r; reserveAmmo := reserveAmmo r;
     reloading := reloading r; lastShot := lastShot r; kills := kills r |}.
Definition set_direction (v : Vector3) (r : State) : State :=
  {| move := move r; sprint := sprint r; onGround := onGround r;
     velocity := velocity r; direction := v; hp := hp r;
     enemies := enemies r; ammo := ammo r; reserveAmmo := reserveAmmo r;
     reloading := reloading r; lastShot := lastShot r; kills := kills r |}.
Definition set_hp (v : Z) (r : State) : State :=
  {| move := move r; sprint := sprint r; onGround := onGround r;
     velocity := velocity r; direction := direction r; hp := v;
     enemies := enemies r; ammo := ammo r; reserveAmmo := reserveAmmo r;
     reloading := reloading r; lastShot := lastShot r; kills := kills r |}.
Definition set_enemies (v : list Enemy.t) (r : State) : State :=
  {| move := move r; sprint := sprint r; onGround := onGround r;
     velocity := velocity r; direction := direction r; hp := hp r;
     enemies := v; ammo := ammo r; reserveAmmo := reserveAmmo r;
     reloading := reloading r; lastShot := lastShot r; kills := kills r |}.
Definition set_ammo (v : Z) (r : State) : State :=
  {| move := move r; sprint := sprint r; onGround := onGround r;
     velocity := velocity r; direction := direction r; hp := hp r;
     enemies := enemies r; ammo := v; reserveAmmo := reserveAmmo r;
     reloading := reloading r; lastShot := lastShot r; kills := kills r |}.
Definition set_reserveAmmo (v : Z) (r : State) : State :=
  {| move := move r; sprint := sprint r; onGround := onGround r;
     velocity := velocity r; direction := direction r; hp := hp r;
     enemies := enemies r; ammo := ammo r; reserveAmmo := v;
     reloading := reloading r; lastShot := lastShot r; kills := kills r |}.
Definition set_reloading (v : bool) (r : State) : State :=
  {| move := move r; sprint := sprint r; onGround := onGround r;
     velocity := velocity r; direction := direction r; hp := hp r;
     enemies := enemies r; ammo := ammo r; reserveAmmo := reserveAmmo r;
     reloading := v; lastShot := lastShot r; kills := kills r |}.
Definition set_lastShot (v : Q) (r : State) : State :=
  {| move := move r; sprint := sprint r; onGround := onGround r;
     velocity := velocity r; direction := direction r; hp := hp r;
     enemies := enemies r; ammo := ammo r; reserveAmmo := reserveAmmo r;
     reloading := reloading r; lastShot := v; kills := kills r |}.
Definition set_kills (v : Z) (r : State) : State :=
  {| move := move r; sprint := sprint r; onGround := onGround r;
     velocity := velocity r; direction := direction r; hp := hp r;
     enemies := enemies r; ammo := ammo r; reserveAmmo := reserveAmmo r;
     reloading := reloading r; lastShot := lastShot r; kills := v |}.

Definition set_scene (v : bool) (r : Globals) : Globals :=
  {| scene := v; playerObj := playerObj r; playerPos := playerPos r;
     cameraPos := cameraPos r; cameraLook := cameraLook r;
     controlsLocked := controlsLocked r;
     allowMouseDragFallback := allowMouseDragFallback r;
     waveIntervalHandle := waveIntervalHandle r; prevTime := prevTime r |}.
Definition set_playerObj (v : bool) (r : Globals) : Globals :=
  {| scene := scene r; playerObj := v; playerPos := playerPos r;
     cameraPos := cameraPos r; cameraLook := cameraLook r;
     controlsLocked := controlsLocked r;
     allowMouseDragFallback := allowMouseDragFallback r;
     waveIntervalHandle := waveIntervalHandle r; prevTime := prevTime r |}.
Definition set_playerPos (v : Vector3) (r : Globals) : Globals :=
  {| scene := scene r; playerObj := playerObj r; playerPos := v;
     cameraPos := cameraPos r; cameraLook := cameraLook r;
     controlsLocked := controlsLocked r;
     allowMouseDragFallback := allowMouseDragFallback r;
     waveIntervalHandle := waveIntervalHandle r; prevTime := prevTime r |}.
Definition set_cameraPos (v : Vector3) (r : Globals) : Globals :=
  {| scene := scene r; playerObj := playerObj r; playerPos := playerPos r;
     cameraPos := v; cameraLook := cameraLook r;
     controlsLocked := controlsLocked r;
     allowMouseDragFallback := allowMouseDragFallback r;
     waveIntervalHandle := waveIntervalHandle r; prevTime := prevTime r |}.
Definition set_cameraLook (v : Vector3) (r : Globals) : Globals :=
  {| scene := scene r; playerObj := playerObj r; playerPos := playerPos r;
     cameraPos := cameraPos r; cameraLook := v;
     controlsLocked := controlsLocked r;
     allowMouseDragFallback := allowMouseDragFallback r;
     waveIntervalHandle := waveIntervalHandle r; prevTime := prevTime r |}.
Definition set_controlsLocked (v : bool) (r : Globals) : Globals :=
  {| scene := scene r; playerObj := playerObj r; playerPos := playerPos r;
     cameraPos := cameraPos r; cameraLook := cameraLook r;
     controlsLocked := v; allowMouseDragFallback := allowMouseDragFallback r;
     waveIntervalHandle := waveIntervalHandle r; prevTime := prevTime r |}.
Definition set_allowMouseDragFallback (v : bool) (r : Globals) : Globals :=
  {| scene := scene r; playerObj := playerObj r; playerPos := playerPos r;
     cameraPos := cameraPos r; cameraLook := cameraLook r;
     controlsLocked := controlsLocked r; allowMouseDragFallback := v;
     waveIntervalHandle := waveIntervalHandle r; prevTime := prevTime r |}.
Definition set_waveIntervalHandle (v : option nat) (r : Globals) : Globals :=
  {| scene := scene r; playerObj := playerObj r; playerPos := playerPos r;
     cameraPos := cameraPos r; cameraLook := cameraLook r;
     controlsLocked := controlsLocked r;
     allowMouseDragFallback := allowMouseDragFallback r;
     waveIntervalHandle := v; prevTime := prevTime r |}.
Definition set_prevTime (v : Q) (r : Globals) : Globals :=
  {| scene := scene r; playerObj := playerObj r; playerPos := playerPos r;
     cameraPos := cameraPos r; cameraLook := cameraLook r;
     controlsLocked := controlsLocked r;
     allowMouseDragFallback := allowMouseDragFallback r;
     waveIntervalHandle := waveIntervalHandle r; prevTime := v |}.

Definition set_pending (v : list Timer) (r : Host) : Host :=
  {| pending := v; intervals := intervals r; nextTimer := nextTimer r;
     nextMesh := nextMesh r; rngPos := rngPos r |}.
Definition set_intervals (v : list nat) (r : Host) : Host :=
  {| pending := pending r; intervals := v; nextTimer := nextTimer r;
     nextMesh := nextMesh r; rngPos := rngPos r |}.
Definition set_nextTimer (v : nat) (r : Host) : Host :=
  {| pending := pending r; intervals := intervals r; nextTimer := v;
     nextMesh := nextMesh r; rngPos := rngPos r |}.
Definition set_nextMesh (v : nat) (r : Host) : Host :=
  {| pending := pending r; intervals := intervals r;
     nextTimer := nextTimer r; nextMesh := v; rngPos := rngPos r |}.
Definition set_rngPos (v : nat) (r : Host) : Host :=
  {| pending := pending r; intervals := intervals r;
     nextTimer := nextTimer r; nextMesh := nextMesh r; rngPos := v |}.

Definition upd_st (f : State -> State) (w : World) : World :=
  {| st := f (st w); gl := gl w; host := host w |}.
Definition upd_gl (f : Globals -> Globals) (w : World) : World :=
  {| st := st w; gl := f (gl w); host := host w |}.
Definition upd_host (f : Host -> Host) (w : World) : World :=
  {| st := st w; gl := gl w; host := f (host w) |}.

(** [e.code] of a keyboard event. *)
Inductive KeyCode : Type :=
  KeyW | KeyS | KeyA | KeyD | ShiftLeft | Space | KeyE | KeyR | OtherKey.

Definition set_fwd (v : bool) (m : Move) : Move :=
  {| fwd := v; bwd := bwd m; left := left m; right := right m |}.
Definition set_bwd (v : bool) (m : Move) : Move :=
  {| fwd := fwd m; bwd := v; left := left m; right := right m |}.
Definition set_left (v : bool) (m : Move) : Move :=
  {| fwd := fwd m; bwd := bwd m; left := v; right := right m |}.
Definition set_right (v : bool) (m : Move) : Move :=
  {| fwd := fwd m; bwd := bwd m; left := left m; right := v |}.

(** A freshly spawned enemy: full health, no cooldown, the standard
    radius, and a group created at or after [g]. *)
Definition fresh_enemy (g : nat) (e : Enemy.t) : Prop :=
  Enemy.hp e = 100%Z /\ Enemy.attackCooldown e = 0%R /\
  Enemy.radius e = ENEMY_RADIUS /\ (g <= Enemy.mesh e)%nat.




(** ** Arrays *)

(** [a[i] = v] for an index inside the array. *)
Fixpoint replace_nth {A : Type} (i : nat) (v : A) (l : list A) : list A :=
  match l, i with
  | [], _ => []
  | _ :: t, O => v :: t
  | h :: t, S k => h :: replace_nth k v t
  end.

(** [a.splice(i, 1)] *)
Definition splice {A : Type} (i : nat) (l : list A) : list A :=
  firstn i l ++ skipn (S i) l.

(** ** The operations

    [random k] is the value the [k]-th call of [Math.random()] returns and
    [intersectObjects origin dir objs] the array that
    [new THREE.Raycaster(origin, dir).intersectObjects(objs, true)] returns:
    both belong to the host and are parameters of the development. *)

Section Game.
Variable random : nat -> R.
Variable intersectObjects :
  Vector3 -> Vector3 -> list Object3D -> list Intersection.

(** *** Host services *)

Definition Math_random (w : World) : R * World :=
  (random (rngPos (host w)),
   upd_host (fun h => set_rngPos (S (rngPos h)) h) w).

Definition setTimeout (cb : Callback) (ms : Z) (w : World) : World :=
  upd_host
    (fun h => set_pending (pending h ++ [{| delay := ms; callback := cb |}]) h)
    w.

Definition setInterval (w : World) : nat * World :=
  let id := nextTimer (host w) in
  (id,
   upd_host (fun h => set_nextTimer (S id) (set_intervals (intervals h ++ [id]) h))
     w).

Definition clearInterval (id : nat) (w : World) : World :=
  upd_host (fun h => set_intervals (remove Nat.eq_dec id (intervals h)) h) w.

(** *** Spawner *)

(** [Math.sign(a) || (Math.random() < 0.5 ? -1 : 1)] *)
Definition sign_or_random (a : R) (w : World) : R * World :=
  if Req_dec_T (Math_sign a) 0
  then let (r, w1) := Math_random w in
       ((if Rltb r 0.5 then (-1)%R else 1%R), w1)
  else (Math_sign a, w).

(** The position of a new enemy: [y] is read before [x] and [z] are
    pushed out of the centre square. *)
Definition spawn_position (w : World) : Vector3 * World :=
  let (r1, w1) := Math_random w in
  let x := ((r1 - 0.5) * 800)%R in
  let (r2, w2) := Math_random w1 in
  let z := ((r2 - 0.5) * 800)%R in
  let y := getTerrainHeight x z in
  if Rltb (Rabs x) 50 && Rltb (Rabs z) 50 then
    let (signX, w3) := sign_or_random x w2 in
    let (signZ, w4) := sign_or_random z w3 in
    let (r3, w5) := Math_random w4 in
    let (r4, w6) := Math_random w5 in
    (vec3 (signX * (50 + r3 * 200)) y (signZ * (50 + r4 * 200)), w6)
  else (vec3 x y z, w2).

(** One turn of the loop of [spawnEnemies].  Over the reals the speed
    [6 + r * 3] is below 9 for every [r] below 1; in the doubles it is 9.0
    for the largest such [r]. *)
Definition spawn_one (w : World) : World :=
  let (p, w1) := spawn_position w in
  let g := nextMesh (host w1) in
  let w2 := upd_host (set_nextMesh (S g)) w1 in
  let (r5, w3) := Math_random w2 in
  let (r6, w4) := Math_random w3 in
  upd_st
    (fun s =>
       set_enemies
         (enemies s ++
          [{| Enemy.mesh := g;
              Enemy.position := p;
              Enemy.speed := (ENEMY_BASE_SPEED + r5 * ENEMY_RANDOM_SPEED)%R;
              Enemy.hp := 100;
              Enemy.attackCooldown := 0%R;
              Enemy.attackRate := (1 + r6 * 0.8)%R;
              Enemy.radius := ENEMY_RADIUS |}]) s)
    w4.

(** [for (let i = 0; i < toSpawn; i++)] *)
Fixpoint spawn_loop (n : nat) (w : World) : World :=
  match n with
  | O => w
  | S k => spawn_loop k (spawn_one w)
  end.

Definition spawnEnemies (count : Z) (w : World) : World :=
  if negb (scene (gl w)) then w else
  let canSpawn :=
    Z.max 0 (MAX_ENEMIES - Z.of_nat (List.length (enemies (st w)))) in
  let toSpawn := Z.min count canSpawn in
  spawn_loop (Z.to_nat toSpawn) w.

(** A run of spawn calls, one per element of [counts]. *)
Definition spawn_calls (counts : list Z) (w : World) : World :=
  fold_left (fun acc c => spawnEnemies c acc) counts w.

(** *** Ammo *)

Definition reload (w : World) : World :=
  if reloading (st w) then w else
  if (ammo (st w) =? maxAmmo)%Z || (reserveAmmo (st w) <=? 0)%Z then w else
  setTimeout ReloadDone 800 (upd_st (set_reloading true) w).

(** The callback that [reload] hands to [setTimeout]. *)
Definition reload_done (w : World) : World :=
  let needed := (maxAmmo - ammo (st w))%Z in
  let taken := Z.min needed (reserveAmmo (st w)) in
  upd_st
    (fun s =>
       set_reloading false
         (set_reserveAmmo (reserveAmmo s - taken)%Z
            (set_ammo (ammo s + taken)%Z s)))
    w.

(** *** Health *)

Definition applyDamageToPlayer (amount : Z) (w : World) : World :=
  let w1 := upd_st (fun s => set_hp (Z.max 0 (hp s - amount)) s) w in
  if (hp (st w1) <=? 0)%Z then setTimeout Respawn 2000 w1 else w1.

(** *** Wave spawner *)

(** The callback of the interval. *)
Definition wave_tick (w : World) : World :=
  if (Z.of_nat (List.length (enemies (st w))) <? MAX_ENEMIES)%Z
  then spawnEnemies WAVE_SIZE w else w.

Definition startWaveSpawner (w : World) : World :=
  let w1 :=
    match waveIntervalHandle (gl w) with
    | Some (S h) => clearInterval (S h) w   (* a handle is truthy unless 0 *)
    | _ => w
    end in
  let (id, w2) := setInterval w1 in
  upd_gl (set_waveIntervalHandle (Some id)) w2.

(** *** Reset

    [scene.remove(enemy.mesh)] detaches the groups of the old enemies;
    [camera] exists whenever [playerObj] does ([init] creates it first),
    and [camera.rotation.set(0, 0, 0)] turns the view back to (0,0,-1). *)
Definition resetGame (w : World) : World :=
  if negb (playerObj (gl w)) then w else
  let ground := getTerrainHeight 0 0 in
  let w1 := upd_gl (set_playerPos (vec3 0 (ground + 0.1) 0)) w in
  let w2 := upd_st (set_hp maxHp) w1 in
  let w3 := upd_st (set_enemies []) w2 in
  let w4 := spawnEnemies INITIAL_ENEMY_COUNT w3 in
  let w5 := upd_st (fun s => set_onGround false (set_velocity (vec3 0 0 0) s)) w4 in
  let w6 := upd_gl (set_cameraLook (vec3 0 0 (-1))) w5 in
  startWaveSpawner w6.

(** What a fired one-shot timer runs. *)
Definition run_callback (cb : Callback) (w : World) : World :=
  match cb with
  | ReloadDone => reload_done w
  | Respawn => resetGame w
  end.

(** *** Keyboard

    Key E calls [toggleInventory], which shows or hides the inventory
    panel.  The panel is an element of the page and no part of the world
    of the embedding, so the world is unchanged; none of the properties
    speaks of key E. *)

Definition onKey (code : KeyCode) (pressed : bool) (w : World) : World :=
  match code with
  | KeyW => upd_st (fun s => set_move (set_fwd pressed (move s)) s) w
  | KeyS => upd_st (fun s => set_move (set_bwd pressed (move s)) s) w
  | KeyA => upd_st (fun s => set_move (set_left pressed (move s)) s) w
  | KeyD => upd_st (fun s => set_move (set_right pressed (move s)) s) w
  | ShiftLeft => upd_st (set_sprint pressed) w
  | Space =>
      if pressed && onGround (st w)
      then upd_st (fun s => set_velocity (Vec.set_y (velocity s) 15) s) w
      else w
  | KeyE => w                     (* toggleInventory: the panel only *)
  | KeyR => if pressed then reload w else w
  | OtherKey => w
  end.

(** *** Player movement *)

(** [Number(b)] for a boolean. *)
Definition Number (b : bool) : R := if b then 1%R else 0%R.

(** [state.direction] after the keys have been read and the vector
    normalised. *)
Definition intent_direction (w : World) : Vector3 :=
  let m := move (st w) in
  let d0 := vec3 (Number (right m) - Number (left m))
                 (y_ (direction (st w)))
                 (Number (fwd m) - Number (bwd m)) in
  if Rltb 0 (Vec.lengthSq d0) then Vec.normalize d0 else d0.

(** [state.velocity] after damping, gravity and the keys. *)
Definition tick_velocity (delta : R) (w : World) : Vector3 :=
  let s := st w in
  let m := move s in
  let vx1 := (x_ (velocity s) - x_ (velocity s) * 10 * delta)%R in
  let vz1 := (z_ (velocity s) - z_ (velocity s) * 10 * delta)%R in
  let vy1 := (y_ (velocity s) - 30 * delta)%R in
  let d := intent_direction w in
  let speed := if sprint s then PLAYER_SPRINT_SPEED else PLAYER_MOVE_SPEED in
  let vz2 := if fwd m || bwd m then (vz1 - z_ d * speed * delta)%R else vz1 in
  let vx2 := if left m || right m then (vx1 - x_ d * speed * delta)%R else vx1 in
  vec3 vx2 vy1 vz2.

(** [playerObj.position] after the velocity has been integrated, before
    the ground check.  [forward] is the view direction flattened to the
    horizontal plane. *)
Definition integrated_position (delta : R) (w : World) : Vector3 :=
  let v := tick_velocity delta w in
  let forward := Vec.normalize (Vec.set_y (cameraLook (gl w)) 0) in
  let right_ := Vec.crossVectors forward (vec3 0 1 0) in
  let p1 := Vec.addScaledVector (playerPos (gl w)) forward (- z_ v * delta) in
  let p2 := Vec.addScaledVector p1 right_ (- x_ v * delta) in
  Vec.set_y p2 (y_ p2 + y_ v * delta).

Definition updatePlayerMovement (delta : R) (w : World) : World :=
  if negb (controlsLocked (gl w)) && negb (allowMouseDragFallback (gl w))
  then w else
  let v := tick_velocity delta w in
  let d := intent_direction w in
  let p3 := integrated_position delta w in
  let groundHeight := getTerrainHeight (x_ p3) (z_ p3) in
  if Rltb (y_ p3) groundHeight then
    upd_gl (set_playerPos (Vec.set_y p3 groundHeight))
      (upd_st
         (fun s => set_onGround true
                     (set_direction d (set_velocity (Vec.set_y v 0) s)))
         w)
  else
    upd_gl (set_playerPos p3)
      (upd_st
         (fun s => set_onGround false (set_direction d (set_velocity v s)))
         w).

(** A run of ticks, one per element of [deltas]. *)
Definition movement_ticks (deltas : list R) (w : World) : World :=
  fold_left (fun acc d => updatePlayerMovement d acc) deltas w.

(** No movement key is held. *)
Definition no_intent (w : World) : Prop :=
  fwd (move (st w)) = false /\ bwd (move (st w)) = false /\
  left (move (st w)) = false /\ right (move (st w)) = false.

(** [v'] has the sign of [v], or is zero, and is no larger in magnitude. *)
Definition damped (v v' : R) : Prop :=
  ((0 <= v -> 0 <= v' <= v) /\ (v <= 0 -> v <= v' <= 0))%R.

(** *** Camera *)

Definition updateCamera (w : World) : World :=
  if playerObj (gl w)
  then upd_gl (set_cameraPos (Vec.add (playerPos (gl w)) cameraOffset)) w
  else w.

(** *** Enemy AI *)

(** Separation of the pair [(i, j)]: the body of the inner loop.  Over
    the reals the pushed pair is exactly [min] apart and the test of a
    later pass leaves it alone; in the doubles ([min] is
    1.6500000000000001 for two standard radii) the pair is a rounding
    error off, and a later pass may push it once more. *)
Definition separate_pair (i j : nat) (es : list Enemy.t) : list Enemy.t :=
  match nth_error es i, nth_error es j with
  | Some a, Some b =>
      let diff := Vec.sub (Enemy.position a) (Enemy.position b) in
      let dist := Vec.length diff in
      let min :=
        (Enemy.radius_or_default a + Enemy.radius_or_default b + 0.05)%R in
      if Rltb 0 dist && Rltb dist min then
        let push :=
          Vec.multiplyScalar (Vec.normalize diff) ((min - dist) * 0.5) in
        replace_nth j
          (Enemy.set_position (Vec.sub (Enemy.position b) push) b)
          (replace_nth i
             (Enemy.set_position (Vec.add (Enemy.position a) push) a) es)
      else es
  | _, _ => es
  end.

(** [for i in 0 .. n-1, for j in i+1 .. n-1] *)
Definition separation (es : list Enemy.t) : list Enemy.t :=
  let n := List.length es in
  fold_left
    (fun acc i =>
       fold_left (fun acc' j => separate_pair i j acc') (seq (S i) (n - S i)) acc)
    (seq 0 n) es.

(** [minDist]: the distance at which an enemy stops and attacks. *)
Definition melee_threshold (e : Enemy.t) : R :=
  (Enemy.radius_or_default e + PLAYER_RADIUS + ENEMY_MIN_DISTANCE_BUFFER)%R.

(** Cooldown decay, pursuit and attack of one enemy: the body of the
    second loop up to the death check.  The enemy record is mutated in
    place; the world changes only through [applyDamageToPlayer].
    [enemy.mesh] is set for every record, so the [continue] at the head of
    the body never runs, and [enemy.attackCooldown || 0] is the cooldown
    itself.  Over the reals a repositioned enemy is exactly [minDist]
    from the player and stays in the second branch on the next frame; in
    the doubles ([minDist] is 1.5499999999999998 for the standard
    radius) it is a rounding error off, and the test [dist > minDist] of
    the next frame can send it to either branch. *)
Definition ai_step (delta : R) (playerPos : Vector3)
           (e : Enemy.t) (w : World) : Enemy.t * World :=
  let e1 :=
    Enemy.set_attackCooldown (Rmax 0 (Enemy.attackCooldown e - delta)) e in
  let dir := Vec.sub playerPos (Enemy.position e1) in
  let dist := Vec.length dir in
  let minDist := melee_threshold e1 in
  if Rltb minDist dist then
    (Enemy.set_position
       (Vec.addScaledVector (Enemy.position e1) (Vec.normalize dir)
          (Enemy.speed e1 * delta)) e1,
     w)
  else
    let e2 :=
      if Rltb 0.001 dist
      then Enemy.set_position
             (Vec.addScaledVector playerPos (Vec.normalize dir) (- minDist)) e1
      else e1 in
    if Rleb (Enemy.attackCooldown e2) 0
    then (Enemy.set_attackCooldown (Enemy.attackRate e2) e2,
          applyDamageToPlayer PLAYER_ATTACK_DAMAGE w)
    else (e2, w).

(** One turn of the second loop, for index [i]. *)
Definition enemy_iter (delta : R) (playerPos : Vector3)
           (i : nat) (w : World) : World :=
  match nth_error (enemies (st w)) i with
  | None => w
  | Some e =>
      let (e', w1) := ai_step delta playerPos e w in
      if (Enemy.hp e' <=? 0)%Z then
        upd_st (fun s => set_kills (kills s + 1)%Z
                           (set_enemies (splice i (enemies s)) s)) w1
      else
        upd_st (fun s => set_enemies (replace_nth i e' (enemies s)) s) w1
  end.

(** [for (let i = n - 1; i >= 0; i--)]: [enemy_loop n] runs the turns
    [n-1], ..., [0]. *)
Fixpoint enemy_loop (delta : R) (playerPos : Vector3)
         (i : nat) (w : World) : World :=
  match i with
  | O => w
  | S k => enemy_loop delta playerPos k (enemy_iter delta playerPos k w)
  end.

Definition updateEnemies (delta : R) (w : World) : World :=
  if negb (playerObj (gl w)) then w else
  let playerPos := playerPos (gl w) in
  let w1 := upd_st (fun s => set_enemies (separation (enemies s)) s) w in
  enemy_loop delta playerPos (List.length (enemies (st w1))) w1.

(** *** Shooting *)

(** [while (root && !objs.includes(root)) root = root.parent], with a
    bound on the number of turns; [None] when the bound is reached. *)
Fixpoint walk_up (fuel : nat) (objs : list Object3D)
         (root : option Object3D) : option (option Object3D) :=
  match root with
  | None => Some None
  | Some o =>
      if in_dec Object3D_eq_dec o objs then Some (Some o)
      else match fuel with
           | O => None
           | S k => walk_up k objs (parent o)
           end
  end.

(** No object is more than three parents away from [null]. *)
Definition find_root (objs : list Object3D) (o : Object3D) : option Object3D :=
  match walk_up 3 objs (Some o) with
  | Some r => r
  | None => None
  end.

(** [owner = state.enemies.find(e => e.mesh === root)] followed by
    [owner.hp -= 50]: the first record whose group is [root] is updated
    where it stands in the array. *)
Fixpoint damage_owner (root : Object3D) (es : list Enemy.t) : list Enemy.t :=
  match es with
  | [] => []
  | e :: rest =>
      if Object3D_eq_dec (Group (Enemy.mesh e)) root
      then Enemy.set_hp (Enemy.hp e - 50)%Z e :: rest
      else e :: damage_owner root rest
  end.

(** The ray of a shot and what it meets. *)
Definition shot_hits (w : World) : list Intersection :=
  let dir := Vec.normalize (cameraLook (gl w)) in
  let origin := Vec.add (cameraPos (gl w)) (Vec.multiplyScalar dir 0.5) in
  let objs := map (fun e => Group (Enemy.mesh e)) (enemies (st w)) in
  intersectObjects origin dir objs.

(** [now] is the value of [performance.now()] at the call.  A walk up the
    parents that ends at [null] finds no owner. *)
Definition shoot (now : Q) (w : World) : World :=
  if Qltb (now - lastShot (st w)) shootCooldown then w else
  if reloading (st w) then w else
  if (ammo (st w) <=? 0)%Z then reload w else
  let w1 := upd_st (fun s => set_ammo (ammo s - 1)%Z (set_lastShot now s)) w in
  let objs := map (fun e => Group (Enemy.mesh e)) (enemies (st w1)) in
  match shot_hits w1 with
  | [] => w1
  | hit :: _ =>
      match find_root objs (object hit) with
      | Some root =>
          upd_st (fun s => set_enemies (damage_owner root (enemies s)) s) w1
      | None => w1
      end
  end.

(** The three checks at the head of [shoot] all pass. *)
Definition shot_allowed (now : Q) (w : World) : Prop :=
  (shootCooldown <= now - lastShot (st w))%Q /\
  reloading (st w) = false /\
  (0 < ammo (st w))%Z.

(** The magazine never holds more than 30 rounds nor fewer than none, and
    the reserve is never negative: kept by firing, by a reload request and
    by its completion. *)
Definition ammo_ok (w : World) : Prop :=
  (0 <= ammo (st w) <= maxAmmo)%Z /\ (0 <= reserveAmmo (st w))%Z.

(** What a reset is said to leave alone. *)
Definition reset_keeps (w w' : World) : Prop :=
  kills (st w') = kills (st w) /\ ammo (st w') = ammo (st w) /\
  reserveAmmo (st w') = reserveAmmo (st w) /\
  reloading (st w') = reloading (st w) /\ lastShot (st w') = lastShot (st w).

(** Everything of the program state other than the player position, the
    health, the velocity, the grounded flag, the view direction and the
    enemies is as before.  The counters of the host (handles, identities,
    random numbers drawn) are not program state and are left out. *)
Definition reset_touches_only (w w' : World) : Prop :=
  reset_keeps w w' /\
  move (st w') = move (st w) /\ sprint (st w') = sprint (st w) /\
  direction (st w') = direction (st w) /\
  scene (gl w') = scene (gl w) /\ playerObj (gl w') = playerObj (gl w) /\
  cameraPos (gl w') = cameraPos (gl w) /\
  controlsLocked (gl w') = controlsLocked (gl w) /\
  allowMouseDragFallback (gl w') = allowMouseDragFallback (gl w) /\
  prevTime (gl w') = prevTime (gl w) /\
  pending (host w') = pending (host w) /\
  waveIntervalHandle (gl w') = waveIntervalHandle (gl w) /\
  intervals (host w') = intervals (host w).

(** What the enemy update leaves alone: all of [state] but the health,
    the enemies and the kill counter, and all globals. *)
Definition ai_frame (w w' : World) : Prop :=
  gl w' = gl w /\
  move (st w') = move (st w) /\ sprint (st w') = sprint (st w) /\
  onGround (st w') = onGround (st w) /\ velocity (st w') = velocity (st w) /\
  direction (st w') = direction (st w) /\ ammo (st w') = ammo (st w) /\
  reserveAmmo (st w') = reserveAmmo (st w) /\
  reloading (st w') = reloading (st w) /\ lastShot (st w') = lastShot (st w).

(** *** The frame

    [delta] is the exact quotient of the elapsed milliseconds by 1000;
    the program divides in doubles, so that a frame of 100 ms has the
    double nearest to 0.1, which is a little above 1/10. *)

Definition animate (time : Q) (w : World) : World :=
  let delta := Q2R ((time - prevTime (gl w)) / 1000) in
  let w0 := upd_gl (set_prevTime time) w in
  updateCamera (updateEnemies delta (updatePlayerMovement delta w0)).

(** *** Start-up and events

    [init] as far as the game state goes: the scene and the player are
    created, [populateWorld] scatters 300 trees and rocks (which only
    draws random numbers here) and spawns the first enemies, and the wave
    spawner is started.  The renderer, the lights, the gun, the controls
    object and the listeners leave no trace in the state. *)

(** One turn of the decoration loop of [populateWorld]. *)
Definition decorate_one (w : World) : World :=
  let (r1, w1) := Math_random w in
  let x := ((r1 - 0.5) * 1000)%R in
  let (r2, w2) := Math_random w1 in
  let z := ((r2 - 0.5) * 1000)%R in
  if Rltb (Rabs x) 20 && Rltb (Rabs z) 20 then w2 else
  let (type, w3) := Math_random w2 in
  if Rltb 0.3 type
  then snd (Math_random w3)                    (* a tree: its scale *)
  else snd (Math_random (snd (Math_random (snd (Math_random
         (snd (Math_random w3))))))).          (* a rock: rotation and scale *)

Fixpoint decorate (n : nat) (w : World) : World :=
  match n with
  | O => w
  | S k => decorate k (decorate_one w)
  end.

Definition populateWorld (w : World) : World :=
  spawnEnemies INITIAL_ENEMY_COUNT (decorate 300 w).

Definition init (w : World) : World :=
  let w1 := upd_gl (set_scene true) w in
  let w2 := upd_gl (fun g => set_playerPos Vec.zero (set_playerObj true g)) w1 in
  startWaveSpawner (populateWorld w2).

(** What the host can make happen once [init] has run. *)
Inductive Event : Type :=
| Frame (time : Q)                  (* an animation frame: animate *)
| Click (now : Q)                   (* a click on the document: shoot *)
| Key (code : KeyCode) (pressed : bool)
| TimeoutFires (i : nat)            (* the i-th pending one-shot timer fires *)
| WaveFires                         (* the wave interval fires *)
| Start                             (* tryLock: the start button or Enter *)
| PointerLock (locked : bool)       (* the controls lock or unlock *)
| Fallback                          (* enableMouseDragFallback *)
| Look (v : Vector3).               (* the mouse turns the camera *)

Definition step (ev : Event) (w : World) : World :=
  match ev with
  | Frame time => animate time w
  | Click now => shoot now w
  | Key code pressed => onKey code pressed w
  | TimeoutFires i =>
      match nth_error (pending (host w)) i with
      | Some t =>
          run_callback (callback t)
            (upd_host (fun h => set_pending (splice i (pending h)) h) w)
      | None => w
      end
  | WaveFires =>
      match intervals (host w) with
      | [] => w
      | _ :: _ => wave_tick w
      end
  | Start => resetGame w
  | PointerLock locked => upd_gl (set_controlsLocked locked) w
  | Fallback => upd_gl (set_allowMouseDragFallback true) w
  | Look v => upd_gl (set_cameraLook v) w
  end.

Definition run (evs : list Event) (w : World) : World :=
  fold_left (fun acc ev => step ev acc) evs w.

(** What holds of the enemies at all times: distinct groups, all created
    before the next one, and the standard radius. *)
Definition crowd_ok (next : nat) (es : list Enemy.t) : Prop :=
  NoDup (map Enemy.mesh es) /\
  Forall (fun e => (Enemy.mesh e < next)%nat /\
                   Enemy.radius e = ENEMY_RADIUS) es /\
  (Z.of_nat (List.length es) <= MAX_ENEMIES)%Z.

Definition enemies_ok (w : World) : Prop :=
  crowd_ok (nextMesh (host w)) (enemies (st w)).

(** What the enemy update does to a world: the globals stay, the host
    gains pending timers at most, and of [state] only the health, the
    enemies and the kill counter change, the enemies staying a crowd of
    distinct, known groups and the health staying within its bounds. *)
Definition ai_effect (w w' : World) : Prop :=
  gl w' = gl w /\
  (exists p, host w' = set_pending p (host w)) /\
  (exists k es h,
      st w' = set_kills k (set_enemies es (set_hp h (st w))) /\
      (crowd_ok (nextMesh (host w)) (enemies (st w)) ->
       crowd_ok (nextMesh (host w)) es) /\
      ((0 <= hp (st w) <= maxHp)%Z -> (0 <= h <= maxHp)%Z)).

(** What holds of a world once [init] has run. *)
Definition world_ok (w : World) : Prop :=
  scene (gl w) = true /\ playerObj (gl w) = true /\
  (0 <= hp (st w) <= maxHp)%Z /\
  ammo_ok w /\
  enemies_ok w /\
  (exists h, waveIntervalHandle (gl w) = Some (S h) /\
             intervals (host w) = [S h] /\
             (S h < nextTimer (host w))%nat).

End Game.

(** ** The program at start-up

    The values of the literal that creates [state] and of the module
    globals before [init] runs.  [t0] is the value of [performance.now()]
    when the module is loaded; the host hands out interval handles from 1. *)

Definition boot (t0 : Q) : World :=
  {| st := {| move := {| fwd := false; bwd := false; left := false; right := false |};
              sprint := false;
              onGround := false;
              velocity := Vec.zero;
              direction := Vec.zero;
              hp := 100;
              enemies := [];
              ammo := 30;
              reserveAmmo := 90;
              reloading := false;
              lastShot := 0;
              kills := 0 |};
     gl := {| scene := false;
              playerObj := false;
              playerPos := Vec.zero;
              cameraPos := Vec.zero;
              cameraLook := vec3 0 0 (-1);
              controlsLocked := false;
              allowMouseDragFallback := false;
              waveIntervalHandle := None;
              prevTime := t0 |};
     host := {| pending := []; intervals := []; nextTimer := 1;
                nextMesh := 0; rngPos := 0 |} |}.

(** ** Sample data

    Concrete enemies and worlds on which the operations are run below. *)

Definition sample_enemy (g : nat) (p : Vector3) : Enemy.t :=
  {| Enemy.mesh := g; Enemy.position := p; Enemy.speed := 6%R;
     Enemy.hp := 100; Enemy.attackCooldown := 0%R; Enemy.attackRate := 1%R;
     Enemy.radius := ENEMY_RADIUS |}.

(** [n] enemies in a row, groups [0 .. n-1]. *)
Definition crowd (n : nat) : list Enemy.t :=
  map (fun g => sample_enemy g (vec3 (INR g * 10) 0 100)) (seq 0 n).

(** A world in which [init] has created the scene, the player and the
    controls, and the pointer is locked. *)
Definition started : World :=
  upd_gl (fun g => set_controlsLocked true (set_playerObj true (set_scene true g)))
    (boot 0).

Definition with_enemies (es : list Enemy.t) (w : World) : World :=
  upd_host (set_nextMesh (length es)) (upd_st (set_enemies es) w).

(** A source of random numbers and a raycaster that sees nothing. *)
Definition random_half : nat -> R := fun _ => 0.5%R.
Definition raycast_nothing :
  Vector3 -> Vector3 -> list Object3D -> list Intersection := fun _ _ _ => [].

(** A magazine shot empty at time 1000, with the reserve untouched. *)
Definition empty_magazine : World :=
  upd_st (fun s => set_lastShot 1000 (set_ammo 0 s)) started.

(** Seven rounds left in the magazine. *)
Definition seven_left : World := upd_st (set_ammo 7) started.

(** A reload in flight with an empty magazine. *)
Definition reload_in_flight : World := reload empty_magazine.

(** The started world with its wave timer running. *)
Definition running : World := startWaveSpawner started.

(** A raycaster that meets the head of the second enemy at distance 3 and,
    behind it, the body of the first at distance 7. *)
Definition raycast_second_then_first :
  Vector3 -> Vector3 -> list Object3D -> list Intersection :=
  fun _ _ objs =>
    match objs with
    | Group g :: Group g' :: _ =>
        [{| distance := 3; object := Mesh g' Head |};
         {| distance := 7; object := Mesh g Body |}]
    | _ => []
    end.

Definition three_enemies : World := with_enemies (crowd 3) started.

(** Sliding at (4, 0, -3) with no key held, last frame at time 0. *)
Definition sliding : World :=
  upd_st (set_velocity (vec3 4 0 (-3))) started.

(** Standing on the ground at the origin (height 12). *)
Definition standing : World :=
  upd_gl (set_playerPos (vec3 0 (getTerrainHeight 0 0) 0))
    (upd_st (set_onGround true) started).


(** An enemy one unit from the player, and one ten units away. *)
Definition close_enemy : Enemy.t := sample_enemy 0 (vec3 1 0 0).
Definition far_enemy : Enemy.t := sample_enemy 0 (vec3 10 0 0).

(** The same with the pointer released: the start screen is up. *)
Definition paused : World := upd_gl (set_controlsLocked false) standing.

(** ** More of [main.js]: what the further properties speak about *)

(** [Math.random()] returns a number in [0, 1). *)
Definition unit_random (random : nat -> R) : Prop :=
  forall k, (0 <= random k < 1)%R.

(** Where and how [spawnEnemies] creates an enemy.  A point [(x0, z0)] is
    drawn in the square of half-width 400 and the height is read from the
    terrain at that point.  A point outside the centre square of
    half-width 50 is where the enemy stands; a point inside it is
    replaced by one between 50 and 250 from the origin on both axes,
    while the height stays the one read at the point first drawn.  The
    speed lies between 6 and 9 and the attack interval between 1 and 1.8
    (both ends included: [6 + r * 3] is 9.0 in the doubles for the largest
    [r] below 1); the enemy has full health, is ready to attack and has
    the standard radius. *)
Definition well_spawned (e : Enemy.t) : Prop :=
  (exists x0 z0 : R,
      (Rabs x0 <= 400 /\ Rabs z0 <= 400)%R /\
      y_ (Enemy.position e) = getTerrainHeight x0 z0 /\
      ((~ (Rabs x0 < 50 /\ Rabs z0 < 50)%R /\
        x_ (Enemy.position e) = x0 /\ z_ (Enemy.position e) = z0) \/
       ((Rabs x0 < 50 /\ Rabs z0 < 50)%R /\
        (50 <= Rabs (x_ (Enemy.position e)) <= 250)%R /\
        (50 <= Rabs (z_ (Enemy.position e)) <= 250)%R))) /\
  (ENEMY_BASE_SPEED <= Enemy.speed e
   <= ENEMY_BASE_SPEED + ENEMY_RANDOM_SPEED)%R /\
  (1 <= Enemy.attackRate e <= 1.8)%R /\
  Enemy.hp e = 100%Z /\ Enemy.attackCooldown e = 0%R /\
  Enemy.radius e = ENEMY_RADIUS.

(** Where an enemy stands, as far as its place on the map goes: outside
    the centre square, inside the square of half-width 400, at a height
    the terrain takes somewhere. *)
Definition spawn_place_ok (e : Enemy.t) : Prop :=
  (~ (Rabs (x_ (Enemy.position e)) < 50 /\ Rabs (z_ (Enemy.position e)) < 50) /\
   Rabs (x_ (Enemy.position e)) <= 400 /\ Rabs (z_ (Enemy.position e)) <= 400 /\
   Rabs (y_ (Enemy.position e)) <= 24)%R.

(** The enemy does not stand on the terrain: its height is not the
    height of the terrain at its place. *)
Definition off_terrain (e : Enemy.t) : Prop :=
  y_ (Enemy.position e) <>
  getTerrainHeight (x_ (Enemy.position e)) (z_ (Enemy.position e)).

(** The steps of one enemy over a run of frames.  A frame gives the time
    since the frame before, the place of the player, and the place where
    the separation pass of that frame has left the enemy; the rest of the
    record is what the step of the frame before returned. *)
Record EnemyFrame : Type :=
  { frame_delta : R; player_at : Vector3; enemy_at : Vector3 }.

Fixpoint ai_steps (frames : list EnemyFrame)
         (e : Enemy.t) (w : World) : Enemy.t * World :=
  match frames with
  | [] => (e, w)
  | f :: rest =>
      let r := ai_step (frame_delta f) (player_at f)
                 (Enemy.set_position (enemy_at f) e) w in
      ai_steps rest (fst r) (snd r)
  end.

(** The time a run of frames takes. *)
Definition elapsed (frames : list EnemyFrame) : R :=
  fold_right (fun f t => (frame_delta f + t)%R) 0%R frames.

(** An enemy with health left. *)
Definition alive (e : Enemy.t) : bool := (0 <? Enemy.hp e)%Z.

(** What identifies an enemy and its state of health. *)
Definition enemy_key (e : Enemy.t) : nat * Z := (Enemy.mesh e, Enemy.hp e).

(** Three enemies of which the second has been shot twice. *)
Definition one_dead : World :=
  upd_st (fun s => set_enemies
                     (damage_owner (Group 1) (damage_owner (Group 1) (enemies s))) s)
    three_enemies.

(** An enemy at the player's feet whose health is gone. *)
Definition dying_enemy : Enemy.t :=
  Enemy.set_hp 0 (sample_enemy 1 (vec3 1 0 0)).

(** A world whose player stands at the origin of the coordinates, with the
    dying enemy between two others. *)
Definition last_stand : World :=
  upd_st (set_enemies [sample_enemy 0 (vec3 10 0 0); dying_enemy;
                       sample_enemy 2 (vec3 20 0 0)])
    started.

(** The separation distance of two enemies and whether they overlap. *)
Definition separation_min (a b : Enemy.t) : R :=
  (Enemy.radius_or_default a + Enemy.radius_or_default b + 0.05)%R.

Definition overlapping (a b : Enemy.t) : Prop :=
  (0 < Vec.distance (Enemy.position a) (Enemy.position b) < separation_min a b)%R.


(** Running forward and to the right at once. *)
Definition diagonal_run : World :=
  upd_st (set_move {| fwd := true; bwd := false; left := false; right := true |})
    started.

(** Sliding while looking up at an angle, and while looking straight up. *)
Definition looking_up : World :=
  upd_gl (set_cameraLook (vec3 0.6 0.8 0)) sliding.
Definition looking_straight_up : World :=
  upd_gl (set_cameraLook (vec3 0 1 0)) sliding.

(** The flag a key holds down in [state], for the keys that have one. *)
Definition key_flag (c : KeyCode) (w : World) : option bool :=
  match c with
  | KeyW => Some (fwd (move (st w)))
  | KeyS => Some (bwd (move (st w)))
  | KeyA => Some (left (move (st w)))
  | KeyD => Some (right (move (st w)))
  | ShiftLeft => Some (sprint (st w))
  | _ => None
  end.

(** The rounds the player owns: magazine and reserve. *)
Definition rounds (w : World) : Z := (ammo (st w) + reserveAmmo (st w))%Z.




(** The pending timers that will complete a reload. *)
Definition completes_reload (t : Timer) : bool :=
  match callback t with ReloadDone => true | Respawn => false end.

Definition reload_timers (w : World) : nat :=
  length (filter completes_reload (pending (host w))).

(** *** The mouse-drag fallback

    The [mousemove] listener that [init] installs.  [camera.rotation] is
    an Euler triple of which the listener writes [x] (the pitch) and [y]
    (the yaw); the event gives the buttons held and the movement since
    the last event. *)
Record Euler : Type := { rot_x : R; rot_y : R }.

Record MouseEvent : Type :=
  { buttons : Z; movementX : R; movementY : R }.

(** [max] in the listener. *)
Definition pitch_limit : R := (PI / 2 - 0.01)%R.

Definition mouse_drag (e : MouseEvent) (w : World) (rotation : Euler) : Euler :=
  if negb (allowMouseDragFallback (gl w)) then rotation else
  if negb (buttons e =? 1)%Z then rotation else
  let sensitivity := 0.0025%R in
  let y := (rot_y rotation - movementX e * sensitivity)%R in
  let x := (rot_x rotation - movementY e * sensitivity)%R in
  {| rot_x := Rmax (- pitch_limit) (Rmin pitch_limit x); rot_y := y |}.

Definition dragging : World :=
  upd_gl (set_allowMouseDragFallback true) started.

Definition drag_up : MouseEvent :=
  {| buttons := 1; movementX := 40; movementY := -2000 |}.

(** * Properties *)

(** ** Comparisons *)

Lemma Rltb_true (a b : R) : Rltb a b = true <-> (a < b)%R.
Proof. unfold Rltb. destruct (Rlt_dec a b); split; intros; congruence || tauto. Qed.

Lemma Rltb_false (a b : R) : Rltb a b = false <-> (b <= a)%R.
Proof.
  unfold Rltb. destruct (Rlt_dec a b); split; intros; try congruence; lra.
Qed.

Lemma Rleb_true (a b : R) : Rleb a b = true <-> (a <= b)%R.
Proof. unfold Rleb. destruct (Rle_dec a b); split; intros; congruence || tauto. Qed.

Lemma Rleb_false (a b : R) : Rleb a b = false <-> (b < a)%R.
Proof.
  unfold Rleb. destruct (Rle_dec a b); split; intros; try congruence; lra.
Qed.

Lemma Qltb_true (a b : Q) : Qltb a b = true <-> (a < b)%Q.
Proof.
  unfold Qltb. rewrite negb_true_iff, <- not_true_iff_false, Qle_bool_iff.
  split; [apply Qnot_le_lt | apply Qlt_not_le].
Qed.

Lemma Qltb_false (a b : Q) : Qltb a b = false <-> (b <= a)%Q.
Proof. unfold Qltb. rewrite negb_false_iff. apply Qle_bool_iff. Qed.


(** ** Spawner *)

Section SpawnerFacts.
Variable random : nat -> R.

Lemma Math_random_st (w : World) : st (snd (Math_random random w)) = st w.
Proof. reflexivity. Qed.

Lemma Math_random_gl (w : World) : gl (snd (Math_random random w)) = gl w.
Proof. reflexivity. Qed.

Lemma sign_or_random_frame (a : R) (w : World) :
  st (snd (sign_or_random random a w)) = st w /\
  gl (snd (sign_or_random random a w)) = gl w.
Proof.
  unfold sign_or_random. destruct (Req_dec_T (Math_sign a) 0); split; reflexivity.
Qed.

Lemma spawn_position_frame (w : World) :
  st (snd (spawn_position random w)) = st w /\
  gl (snd (spawn_position random w)) = gl w.
Proof.
  unfold spawn_position. cbn [Math_random].
  destruct (Rltb _ 50 && Rltb _ 50).
  - match goal with
    | |- context [sign_or_random random ?a ?u] =>
        destruct (sign_or_random_frame a u) as [Hs1 Hg1];
        destruct (sign_or_random random a u) as [sx w3] end.
    match goal with
    | |- context [sign_or_random random ?a ?u] =>
        destruct (sign_or_random_frame a u) as [Hs2 Hg2];
        destruct (sign_or_random random a u) as [sz w4] end.
    cbn in *. split; congruence.
  - split; reflexivity.
Qed.

(** One turn of the loop appends exactly one record with full health and
    leaves the rest of [state] and the globals alone. *)
Lemma spawn_one_enemies (w : World) :
  exists e,
    enemies (st (spawn_one random w)) = enemies (st w) ++ [e] /\
    Enemy.hp e = 100%Z /\ Enemy.attackCooldown e = 0%R /\
    Enemy.radius e = ENEMY_RADIUS /\
    Enemy.mesh e = nextMesh (host (snd (spawn_position random w))).
Proof.
  unfold spawn_one.
  destruct (spawn_position_frame w) as [Hs _].
  destruct (spawn_position random w) as [p w1]. cbn in *.
  eexists. rewrite Hs. split; [reflexivity | cbn; auto].
Qed.

Lemma spawn_one_gl (w : World) : gl (spawn_one random w) = gl w.
Proof.
  unfold spawn_one.
  destruct (spawn_position_frame w) as [_ Hg].
  destruct (spawn_position random w) as [p w1]. cbn in *. exact Hg.
Qed.

Lemma spawn_one_length (w : World) :
  length (enemies (st (spawn_one random w))) = S (length (enemies (st w))).
Proof.
  destruct (spawn_one_enemies w) as [e [He _]].
  rewrite He, length_app. cbn. lia.
Qed.

Lemma spawn_loop_length (n : nat) (w : World) :
  length (enemies (st (spawn_loop random n w))) = (length (enemies (st w)) + n)%nat.
Proof.
  revert w. induction n as [|n IH]; intros w; cbn.
  - lia.
  - rewrite IH, spawn_one_length. lia.
Qed.

Lemma spawn_loop_gl (n : nat) (w : World) : gl (spawn_loop random n w) = gl w.
Proof.
  revert w. induction n as [|n IH]; intros w; cbn; [reflexivity|].
  rewrite IH. apply spawn_one_gl.
Qed.

(** The number of records [spawnEnemies] adds, for any argument. *)
Lemma spawnEnemies_length (count : Z) (w : World) :
  length (enemies (st (spawnEnemies random count w))) =
  if scene (gl w)
  then (length (enemies (st w)) +
        Z.to_nat (Z.min count
                    (Z.max 0 (MAX_ENEMIES - Z.of_nat (length (enemies (st w)))))))%nat
  else length (enemies (st w)).
Proof.
  unfold spawnEnemies. destruct (scene (gl w)); cbn [negb]; [|reflexivity].
  apply spawn_loop_length.
Qed.

Lemma spawnEnemies_gl (count : Z) (w : World) :
  gl (spawnEnemies random count w) = gl w.
Proof.
  unfold spawnEnemies. destruct (scene (gl w)); cbn [negb]; [|reflexivity].
  apply spawn_loop_gl.
Qed.

Lemma spawnEnemies_le_cap (count : Z) (w : World) :
  (Z.of_nat (length (enemies (st w))) <= MAX_ENEMIES)%Z ->
  (Z.of_nat (length (enemies (st (spawnEnemies random count w)))) <= MAX_ENEMIES)%Z.
Proof.
  intros Hn. rewrite spawnEnemies_length. unfold MAX_ENEMIES in *.
  destruct (scene (gl w)); lia.
Qed.

Lemma spawn_calls_le_cap (counts : list Z) (w : World) :
  (Z.of_nat (length (enemies (st w))) <= MAX_ENEMIES)%Z ->
  (Z.of_nat (length (enemies (st (spawn_calls random counts w)))) <= MAX_ENEMIES)%Z.
Proof.
  revert w. induction counts as [|c cs IH]; intros w Hn; cbn; [exact Hn|].
  apply IH. apply spawnEnemies_le_cap. exact Hn.
Qed.

End SpawnerFacts.

(** ** Ammo: firing and reloading *)

Section AmmoFacts.
Variable random : nat -> R.
Variable intersectObjects :
  Vector3 -> Vector3 -> list Object3D -> list Intersection.

Lemma damage_owner_length (root : Object3D) (es : list Enemy.t) :
  length (damage_owner root es) = length es.
Proof.
  induction es as [|e es IH]; cbn [damage_owner length]; [reflexivity|].
  destruct (Object3D_eq_dec (Group (Enemy.mesh e)) root); cbn [length]; congruence.
Qed.

(** An accepted shot takes one round, stamps the time and touches nothing
    else of [state] except the enemies. *)
Lemma shoot_accepted (now : Q) (w : World) :
  shot_allowed now w ->
  ammo (st (shoot intersectObjects now w)) = (ammo (st w) - 1)%Z /\
  lastShot (st (shoot intersectObjects now w)) = now /\
  reloading (st (shoot intersectObjects now w)) = false /\
  reserveAmmo (st (shoot intersectObjects now w)) = reserveAmmo (st w) /\
  hp (st (shoot intersectObjects now w)) = hp (st w) /\
  host (shoot intersectObjects now w) = host w /\
  gl (shoot intersectObjects now w) = gl w.
Proof.
  intros [Hcd [Hrel Hammo]]. unfold shoot.
  apply Qltb_false in Hcd. rewrite Hcd, Hrel.
  destruct (ammo (st w) <=? 0)%Z eqn:E; [apply Z.leb_le in E; lia|].
  destruct (shot_hits _ _) as [|hit rest]; [cbn; auto 10|].
  destruct (find_root _ _); cbn; auto 10.
Qed.

Lemma shoot_rejected_cooldown (now : Q) (w : World) :
  (now - lastShot (st w) < shootCooldown)%Q -> shoot intersectObjects now w = w.
Proof. intros H. unfold shoot. apply Qltb_true in H. rewrite H. reflexivity. Qed.

Lemma shoot_rejected_reloading (now : Q) (w : World) :
  reloading (st w) = true -> shoot intersectObjects now w = w.
Proof.
  intros H. unfold shoot. rewrite H.
  destruct (Qltb _ _); reflexivity.
Qed.

Lemma shoot_empty (now : Q) (w : World) :
  (shootCooldown <= now - lastShot (st w))%Q -> reloading (st w) = false ->
  (ammo (st w) <= 0)%Z -> shoot intersectObjects now w = reload w.
Proof.
  intros Hcd Hrel Hammo. unfold shoot.
  apply Qltb_false in Hcd. apply Z.leb_le in Hammo.
  rewrite Hcd, Hrel, Hammo. reflexivity.
Qed.

Lemma reload_ammo (w : World) : ammo (st (reload w)) = ammo (st w).
Proof.
  unfold reload. destruct (reloading (st w)); [reflexivity|].
  destruct (_ || _); reflexivity.
Qed.

(** C3, as the code has it.  A fire request is carried out (one round
    leaves the magazine) exactly when at least 100 ms have passed since
    the last accepted shot, no reload is in flight and the magazine is not
    empty; it then stamps [lastShot] with the time of the call.  A request
    that passes the first two checks with an empty magazine is a reload
    request instead of a shot.  A second request 50 ms after an accepted
    one changes nothing. *)
Theorem C3_fire_request (now : Q) (w : World) :
  (ammo (st (shoot intersectObjects now w)) = (ammo (st w) - 1)%Z <->
   shot_allowed now w) /\
  (shot_allowed now w ->
   ammo (st (shoot intersectObjects now w)) = (ammo (st w) - 1)%Z /\
   lastShot (st (shoot intersectObjects now w)) = now) /\
  ((shootCooldown <= now - lastShot (st w))%Q -> reloading (st w) = false ->
   ammo (st w) = 0%Z ->
   shoot intersectObjects now w = reload w /\
   ammo (st (shoot intersectObjects now w)) = 0%Z /\
   lastShot (st (shoot intersectObjects now w)) = lastShot (st w)) /\
  (shot_allowed now w ->
   shoot intersectObjects (now + 50) (shoot intersectObjects now w) =
   shoot intersectObjects now w).
Proof.
  split; [|split; [|split]].
  - split.
    + intros H. unfold shot_allowed.
      destruct (Qlt_le_dec (now - lastShot (st w)) shootCooldown) as [Hlt|Hle].
      { rewrite (shoot_rejected_cooldown now w Hlt) in H. lia. }
      destruct (reloading (st w)) eqn:Hrel.
      { rewrite (shoot_rejected_reloading now w Hrel) in H. lia. }
      destruct (Z_lt_le_dec 0 (ammo (st w))) as [Hpos|Hnon]; [auto|].
      rewrite (shoot_empty now w Hle Hrel Hnon), reload_ammo in H. lia.
    + intros H. apply (shoot_accepted now w H).
  - intros H. destruct (shoot_accepted now w H) as [Ha [Hl _]]. auto.
  - intros Hcd Hrel Hammo.
    assert (Hs : shoot intersectObjects now w = reload w)
      by (apply shoot_empty; [assumption | assumption | lia]).
    rewrite Hs. split; [reflexivity|].
    split; [rewrite reload_ammo; exact Hammo|].
    unfold reload. rewrite Hrel.
    destruct (_ || _); reflexivity.
  - intros H. destruct (shoot_accepted now w H) as [_ [Hl _]].
    apply shoot_rejected_cooldown. rewrite Hl. unfold shootCooldown. lra.
Qed.

End AmmoFacts.

Lemma C3_fire_request_witness :
  (ammo (st (shoot raycast_nothing 5000 started)) = 29%Z /\
   lastShot (st (shoot raycast_nothing 5000 started)) = 5000%Q) /\
  shoot raycast_nothing 5000 empty_magazine = reload empty_magazine /\
  shoot raycast_nothing (5000 + 50) (shoot raycast_nothing 5000 started) =
  shoot raycast_nothing 5000 started.
Proof.
  assert (G : shot_allowed 5000 started).
  { unfold shot_allowed. cbn. split; [unfold shootCooldown; lra | split; [reflexivity | lia]]. }
  destruct (C3_fire_request raycast_nothing 5000 started) as [_ [Hacc [_ Hsecond]]].
  destruct (C3_fire_request raycast_nothing 5000 empty_magazine) as [_ [_ [Hempty _]]].
  split; [exact (Hacc G) | split; [|exact (Hsecond G)]].
  apply Hempty; [cbn; unfold shootCooldown; lra | reflexivity | reflexivity].
Defined.

(** C3 as stated fails: 50 ms after the shot that emptied the magazine a
    fire request with no ammo returns at the cooldown check; no reload is
    started, although a reload request in the same state would start one. *)
Lemma C3_counterexample :
  ammo (st empty_magazine) = 0%Z /\
  shoot raycast_nothing 1050 empty_magazine = empty_magazine /\
  reloading (st (shoot raycast_nothing 1050 empty_magazine)) = false /\
  pending (host (shoot raycast_nothing 1050 empty_magazine)) = [] /\
  reloading (st (reload empty_magazine)) = true /\
  shoot raycast_nothing 1050 empty_magazine <> reload empty_magazine.
Proof.
  assert (E : shoot raycast_nothing 1050 empty_magazine = empty_magazine)
    by reflexivity.
  rewrite E. repeat split; try reflexivity.
  intros H. apply (f_equal (fun w => reloading (st w))) in H. discriminate H.
Qed.

(** C9.  The cooldown and the reloading flag are looked at before the
    magazine: with no ammo, a fire request less than 100 ms after the last
    accepted shot, or during a reload, returns the world as it was; no
    reload is requested. *)
Theorem C9_rate_limit_first
        (intersectObjects :
           Vector3 -> Vector3 -> list Object3D -> list Intersection)
        (now : Q) (w : World) :
  ammo (st w) = 0%Z ->
  (now - lastShot (st w) < 100)%Q \/ reloading (st w) = true ->
  shoot intersectObjects now w = w.
Proof.
  intros _ [Hcd | Hrel].
  - apply shoot_rejected_cooldown. exact Hcd.
  - apply shoot_rejected_reloading. exact Hrel.
Qed.

Lemma C9_rate_limit_first_witness :
  shoot raycast_nothing 1050 empty_magazine = empty_magazine /\
  shoot raycast_nothing 9000 reload_in_flight = reload_in_flight.
Proof.
  split.
  - apply (C9_rate_limit_first raycast_nothing 1050 empty_magazine).
    + reflexivity.
    + left. cbn. lra.
  - apply (C9_rate_limit_first raycast_nothing 9000 reload_in_flight).
    + reflexivity.
    + right. reflexivity.
Defined.

(** ** Reload *)

Lemma reload_started (w : World) :
  reloading (st w) = false -> ammo (st w) <> maxAmmo ->
  (0 < reserveAmmo (st w))%Z ->
  reload w = setTimeout ReloadDone 800 (upd_st (set_reloading true) w).
Proof.
  intros Hrel Hfull Hres. unfold reload. rewrite Hrel.
  destruct (ammo (st w) =? maxAmmo)%Z eqn:E1; [apply Z.eqb_eq in E1; contradiction|].
  destruct (reserveAmmo (st w) <=? 0)%Z eqn:E2; [apply Z.leb_le in E2; lia|].
  reflexivity.
Qed.

Lemma reload_keeps_ammo (w : World) :
  ammo (st (reload w)) = ammo (st w) /\
  reserveAmmo (st (reload w)) = reserveAmmo (st w).
Proof.
  unfold reload. destruct (reloading (st w)); [auto|].
  destruct (_ || _); auto.
Qed.

Lemma ammo_ok_reload (w : World) : ammo_ok w -> ammo_ok (reload w).
Proof.
  unfold ammo_ok. destruct (reload_keeps_ammo w) as [-> ->]. auto.
Qed.

Lemma ammo_ok_reload_done (w : World) : ammo_ok w -> ammo_ok (reload_done w).
Proof. unfold ammo_ok, reload_done, maxAmmo. cbn -[Z.min Z.add Z.sub]. lia. Qed.

Lemma ammo_ok_shoot
      (intersectObjects :
         Vector3 -> Vector3 -> list Object3D -> list Intersection)
      (now : Q) (w : World) :
  ammo_ok w -> ammo_ok (shoot intersectObjects now w).
Proof.
  intros Hok.
  destruct (Qlt_le_dec (now - lastShot (st w)) shootCooldown) as [Hlt|Hle].
  { rewrite shoot_rejected_cooldown; assumption. }
  destruct (reloading (st w)) eqn:Hrel.
  { rewrite shoot_rejected_reloading; assumption. }
  destruct (Z_lt_le_dec 0 (ammo (st w))) as [Hpos|Hnon].
  - destruct (shoot_accepted intersectObjects now w) as [Ha [_ [_ [Hr _]]]].
    { unfold shot_allowed; auto. }
    unfold ammo_ok in *. rewrite Ha, Hr. lia.
  - rewrite shoot_empty by assumption. apply ammo_ok_reload, Hok.
Qed.

(** C4.  A reload request changes nothing while a reload is in flight,
    with a full magazine (30), or with an empty reserve.  Otherwise (the
    reserve is never negative) it sets the reloading flag and schedules the
    completion 800 ms later; the completion moves
    [min (30 - ammo) reserveAmmo] rounds from the reserve to the magazine,
    so that their sum is kept and the magazine holds at most 30, and
    clears the flag. *)
Theorem C4_reload (random : nat -> R) (w : World) :
  (reloading (st w) = true -> reload w = w) /\
  (ammo (st w) = 30%Z -> reload w = w) /\
  (reserveAmmo (st w) = 0%Z -> reload w = w) /\
  (reloading (st w) = false -> ammo (st w) <> 30%Z ->
   reserveAmmo (st w) <> 0%Z -> (0 <= reserveAmmo (st w))%Z ->
   reloading (st (reload w)) = true /\
   pending (host (reload w)) =
     pending (host w) ++ [{| delay := 800; callback := ReloadDone |}] /\
   ammo (st (reload w)) = ammo (st w) /\
   reserveAmmo (st (reload w)) = reserveAmmo (st w)) /\
  (let taken := Z.min (30 - ammo (st w)) (reserveAmmo (st w)) in
   let w' := run_callback random ReloadDone w in
   ammo (st w') = (ammo (st w) + taken)%Z /\
   reserveAmmo (st w') = (reserveAmmo (st w) - taken)%Z /\
   (ammo (st w') + reserveAmmo (st w') = ammo (st w) + reserveAmmo (st w))%Z /\
   (ammo (st w') <= 30)%Z /\
   reloading (st w') = false).
Proof.
  split; [|split; [|split; [|split]]].
  - intros H. unfold reload. rewrite H. reflexivity.
  - intros H. unfold reload, maxAmmo. rewrite H.
    destruct (reloading (st w)); reflexivity.
  - intros H. unfold reload. rewrite H. cbn.
    rewrite orb_true_r. destruct (reloading (st w)); reflexivity.
  - intros Hrel Hfull Hne Hge.
    rewrite reload_started; [ cbn; auto | assumption | exact Hfull | lia ].
  - unfold run_callback, reload_done, maxAmmo. cbn -[Z.min Z.add Z.sub].
    repeat split; lia.
Qed.

Lemma C4_reload_witness :
  reloading (st (reload seven_left)) = true /\
  pending (host (reload seven_left)) = [{| delay := 800; callback := ReloadDone |}] /\
  ammo (st (run_callback random_half ReloadDone (reload seven_left))) = 30%Z /\
  reserveAmmo (st (run_callback random_half ReloadDone (reload seven_left))) = 67%Z /\
  reload reload_in_flight = reload_in_flight /\
  reload started = started.
Proof.
  destruct (C4_reload random_half seven_left) as [_ [_ [_ [Hstart _]]]].
  destruct (C4_reload random_half (reload seven_left)) as [_ [_ [_ [_ Hdone]]]].
  destruct (C4_reload random_half reload_in_flight) as [Hbusy _].
  destruct (C4_reload random_half started) as [_ [Hfull _]].
  destruct Hstart as [Hflag [Hpend _]];
    [reflexivity | cbn; lia | cbn; lia | cbn; lia |].
  destruct Hdone as [Ha [Hr _]].
  split; [exact Hflag|]. split; [exact Hpend|].
  split; [exact Ha|]. split; [exact Hr|].
  split; [apply Hbusy | apply Hfull]; reflexivity.
Defined.

(** ** Health and reset *)

Lemma getTerrainHeight_origin : getTerrainHeight 0 0 = 12%R.
Proof.
  unfold getTerrainHeight. rewrite !Rmult_0_l, sin_0, cos_0. lra.
Qed.

Section ResetFacts.
Variable random : nat -> R.

Lemma sign_or_random_host (a : R) (w : World) :
  let h := host (snd (sign_or_random random a w)) in
  pending h = pending (host w) /\ intervals h = intervals (host w) /\
  nextTimer h = nextTimer (host w) /\ nextMesh h = nextMesh (host w).
Proof.
  unfold sign_or_random. destruct (Req_dec_T (Math_sign a) 0); cbn; auto.
Qed.

Lemma spawn_position_host (w : World) :
  let h := host (snd (spawn_position random w)) in
  pending h = pending (host w) /\ intervals h = intervals (host w) /\
  nextTimer h = nextTimer (host w) /\ nextMesh h = nextMesh (host w).
Proof.
  unfold spawn_position. cbn [Math_random].
  destruct (Rltb _ 50 && Rltb _ 50); [|cbn; auto].
  match goal with
  | |- context [sign_or_random random ?a ?u] =>
      pose proof (sign_or_random_host a u) as H1;
      destruct (sign_or_random random a u) as [sx w3] end.
  match goal with
  | |- context [sign_or_random random ?a ?u] =>
      pose proof (sign_or_random_host a u) as H2;
      destruct (sign_or_random random a u) as [sz w4] end.
  cbn in *. intuition congruence.
Qed.

(** What one turn of the spawn loop does to [state] and to the host. *)
Lemma spawn_one_spec (w : World) :
  exists e,
    st (spawn_one random w) = set_enemies (enemies (st w) ++ [e]) (st w) /\
    Enemy.hp e = 100%Z /\ Enemy.attackCooldown e = 0%R /\
    Enemy.radius e = ENEMY_RADIUS /\ Enemy.mesh e = nextMesh (host w) /\
    nextMesh (host (spawn_one random w)) = S (nextMesh (host w)) /\
    pending (host (spawn_one random w)) = pending (host w) /\
    intervals (host (spawn_one random w)) = intervals (host w) /\
    nextTimer (host (spawn_one random w)) = nextTimer (host w).
Proof.
  unfold spawn_one.
  destruct (spawn_position_frame random w) as [Hs _].
  pose proof (spawn_position_host w) as Hh.
  destruct (spawn_position random w) as [p w1]. cbn in *.
  destruct Hh as [Hp [Hi [Ht Hm]]].
  eexists. rewrite Hs. split; [reflexivity|]. cbn. rewrite Hm. auto 10.
Qed.

Lemma fresh_enemy_mono (g g' : nat) (e : Enemy.t) :
  (g <= g')%nat -> fresh_enemy g' e -> fresh_enemy g e.
Proof. unfold fresh_enemy. intuition lia. Qed.

Lemma spawn_loop_spec (n : nat) (w : World) :
  exists l,
    st (spawn_loop random n w) = set_enemies (enemies (st w) ++ l) (st w) /\
    length l = n /\ Forall (fresh_enemy (nextMesh (host w))) l /\
    nextMesh (host (spawn_loop random n w)) = (nextMesh (host w) + n)%nat /\
    pending (host (spawn_loop random n w)) = pending (host w) /\
    intervals (host (spawn_loop random n w)) = intervals (host w) /\
    nextTimer (host (spawn_loop random n w)) = nextTimer (host w).
Proof.
  revert w. induction n as [|n IH]; intros w; cbn [spawn_loop].
  - exists []. rewrite app_nil_r, Nat.add_0_r. destruct w as [[] ? ?]; cbn; auto 10.
  - destruct (spawn_one_spec w) as [e [Hst [Hhp [Hcd [Hrad [Hmesh [Hnm [Hp [Hi Ht]]]]]]]]].
    destruct (IH (spawn_one random w)) as [l [Hst' [Hlen [Hall [Hnm' [Hp' [Hi' Ht']]]]]]].
    exists (e :: l). rewrite Hst', Hst, Hnm', Hp', Hi', Ht', Hnm. cbn.
    rewrite <- app_assoc. cbn.
    repeat split; auto; try lia.
    constructor.
    + unfold fresh_enemy. rewrite Hmesh. auto.
    + rewrite Hnm in Hall.
      eapply Forall_impl; [|exact Hall]. intros a. apply fresh_enemy_mono. lia.
Qed.

Lemma startWaveSpawner_spec (w : World) :
  st (startWaveSpawner w) = st w /\
  gl (startWaveSpawner w) =
    set_waveIntervalHandle (Some (nextTimer (host w))) (gl w) /\
  pending (host (startWaveSpawner w)) = pending (host w) /\
  nextMesh (host (startWaveSpawner w)) = nextMesh (host w) /\
  nextTimer (host (startWaveSpawner w)) = S (nextTimer (host w)) /\
  intervals (host (startWaveSpawner w)) =
    match waveIntervalHandle (gl w) with
    | Some (S h) => remove Nat.eq_dec (S h) (intervals (host w))
    | _ => intervals (host w)
    end ++ [nextTimer (host w)].
Proof.
  unfold startWaveSpawner.
  destruct (waveIntervalHandle (gl w)) as [[|h]|]; cbn; auto 10.
Qed.

Lemma set_enemies_same (s : State) : set_enemies (enemies s) s = s.
Proof. destruct s; reflexivity. Qed.

(** [spawnEnemies] only appends to the enemies, creates groups and draws
    random numbers. *)
Lemma spawnEnemies_spec (count : Z) (w : World) :
  exists l,
    st (spawnEnemies random count w) =
      set_enemies (enemies (st w) ++ l) (st w) /\
    Forall (fresh_enemy (nextMesh (host w))) l /\
    gl (spawnEnemies random count w) = gl w /\
    pending (host (spawnEnemies random count w)) = pending (host w) /\
    intervals (host (spawnEnemies random count w)) = intervals (host w) /\
    nextTimer (host (spawnEnemies random count w)) = nextTimer (host w).
Proof.
  unfold spawnEnemies. destruct (scene (gl w)); cbn [negb].
  - match goal with |- context [spawn_loop random ?n w] =>
      destruct (spawn_loop_spec n w) as [l [Hst [_ [Hall [_ [Hp [Hi Ht]]]]]]];
      exists l; rewrite Hst, Hp, Hi, Ht, (spawn_loop_gl random n w) end.
    auto 10.
  - exists []. rewrite app_nil_r, set_enemies_same. auto 10.
Qed.

(** What a reset that passes its guard touches. *)
Lemma resetGame_frame (w : World) :
  playerObj (gl w) = true ->
  exists l,
    st (resetGame random w) =
      set_onGround false
        (set_velocity (vec3 0 0 0) (set_enemies l (set_hp maxHp (st w)))) /\
    gl (resetGame random w) =
      set_waveIntervalHandle (Some (nextTimer (host w)))
        (set_cameraLook (vec3 0 0 (-1))
           (set_playerPos (vec3 0 (getTerrainHeight 0 0 + 0.1) 0) (gl w))) /\
    pending (host (resetGame random w)) = pending (host w) /\
    intervals (host (resetGame random w)) =
      match waveIntervalHandle (gl w) with
      | Some (S h) => remove Nat.eq_dec (S h) (intervals (host w))
      | _ => intervals (host w)
      end ++ [nextTimer (host w)].
Proof.
  intros Hp. unfold resetGame. rewrite Hp. cbn [negb].
  set (w3 := upd_st (set_enemies []) _).
  destruct (spawnEnemies_spec INITIAL_ENEMY_COUNT w3)
    as [l [Hst [_ [Hgl [Hpend [Hint Htim]]]]]].
  set (w4 := spawnEnemies random INITIAL_ENEMY_COUNT w3) in *.
  exists l.
  match goal with |- context [startWaveSpawner ?u] =>
    destruct (startWaveSpawner_spec u) as [Es [Eg [Ep [_ [_ Ei]]]]];
    rewrite Es, Eg, Ep, Ei end.
  clearbody w4. subst w3.
  cbn [st gl host upd_st upd_gl]. rewrite Hst, Hgl, Hpend, Htim, Hint. cbn. auto.
Qed.

(** The whole effect of a reset that passes its guard. *)
Lemma resetGame_spec (w : World) :
  playerObj (gl w) = true -> scene (gl w) = true ->
  exists l,
    length l = 30%nat /\ Forall (fresh_enemy (nextMesh (host w))) l /\
    st (resetGame random w) =
      set_onGround false
        (set_velocity (vec3 0 0 0) (set_enemies l (set_hp maxHp (st w)))) /\
    gl (resetGame random w) =
      set_waveIntervalHandle (Some (nextTimer (host w)))
        (set_cameraLook (vec3 0 0 (-1))
           (set_playerPos (vec3 0 (getTerrainHeight 0 0 + 0.1) 0) (gl w))) /\
    pending (host (resetGame random w)) = pending (host w).
Proof.
  intros Hp Hs. unfold resetGame. rewrite Hp. cbn [negb].
  set (w3 := upd_st (set_enemies []) _).
  assert (Hw3 : scene (gl w3) = true) by exact Hs.
  unfold spawnEnemies. rewrite Hw3. cbn [negb].
  replace (Z.to_nat _) with 30%nat by reflexivity.
  destruct (spawn_loop_spec 30 w3) as [l [Hst [Hlen [Hall [Hnm [Hpend [Hint Htim]]]]]]].
  pose proof (spawn_loop_gl random 30 w3) as Hgl.
  set (w4 := spawn_loop random 30 w3) in *.
  exists l. split; [exact Hlen|]. split; [exact Hall|].
  match goal with |- context [startWaveSpawner ?u] =>
    destruct (startWaveSpawner_spec u) as [Es [Eg [Ep _]]]; rewrite Es, Eg, Ep end.
  clearbody w4. subst w3.
  cbn [st gl host upd_st upd_gl]. rewrite Hst, Hgl, Hpend, Htim. cbn. auto.
Qed.

Lemma resetGame_guard (w : World) :
  playerObj (gl w) = false -> resetGame random w = w.
Proof. intros H. unfold resetGame. rewrite H. reflexivity. Qed.

Lemma applyDamageToPlayer_hp (amount : Z) (w : World) :
  hp (st (applyDamageToPlayer amount w)) = Z.max 0 (hp (st w) - amount).
Proof.
  unfold applyDamageToPlayer. cbn -[Z.max Z.sub].
  destruct (Z.max 0 (hp (st w) - amount) <=? 0)%Z; reflexivity.
Qed.

Lemma applyDamageToPlayer_pending (amount : Z) (w : World) :
  pending (host (applyDamageToPlayer amount w)) =
  if (Z.max 0 (hp (st w) - amount) <=? 0)%Z
  then pending (host w) ++ [{| delay := 2000; callback := Respawn |}]
  else pending (host w).
Proof.
  unfold applyDamageToPlayer. cbn -[Z.max Z.sub].
  destruct (Z.max 0 (hp (st w) - amount) <=? 0)%Z; reflexivity.
Qed.

(** C7, as the code has it.  Damage leaves
    [max 0 (health - damage)], never a negative value; when that is 0 one
    reset is scheduled 2000 ms later.  The reset, run with the player and
    the scene created, restores health to 100, puts the player 0.1 above
    the ground at the origin, zeroes the velocity, turns the view back to
    (0,0,-1) and replaces the enemies by 30 freshly spawned ones. *)
Theorem C7_damage_reset (amount : Z) (w : World) :
  (hp (st (applyDamageToPlayer amount w)) = Z.max 0 (hp (st w) - amount) /\
   (0 <= hp (st (applyDamageToPlayer amount w)))%Z) /\
  (hp (st (applyDamageToPlayer amount w)) = 0%Z ->
   pending (host (applyDamageToPlayer amount w)) =
     pending (host w) ++ [{| delay := 2000; callback := Respawn |}]) /\
  (playerObj (gl w) = true -> scene (gl w) = true ->
   let w' := run_callback random Respawn w in
   hp (st w') = 100%Z /\
   playerPos (gl w') = vec3 0 (getTerrainHeight 0 0 + 0.1) 0 /\
   velocity (st w') = vec3 0 0 0 /\
   cameraLook (gl w') = vec3 0 0 (-1) /\
   length (enemies (st w')) = 30%nat /\
   Forall (fresh_enemy (nextMesh (host w))) (enemies (st w'))).
Proof.
  split; [|split].
  - rewrite applyDamageToPlayer_hp. split; [reflexivity | lia].
  - rewrite applyDamageToPlayer_hp, applyDamageToPlayer_pending.
    intros H. rewrite H. reflexivity.
  - intros Hp Hs. cbn [run_callback].
    destruct (resetGame_spec w Hp Hs) as [l [Hlen [Hall [Hst [Hgl _]]]]].
    rewrite Hst, Hgl. cbn. auto 10.
Qed.

(** C10, as the code has it.  A reset leaves the kill counter, the
    magazine, the reserve, the reloading flag and the time of the last
    shot as they were, and with them the movement keys, the scene and
    player handles, the camera position, the controls, the frame clock and
    the pending one-shot timers.  Besides the player position, the health,
    the velocity, the grounded flag, the view direction and the enemies it
    does touch one more thing: the wave timer is cancelled and created
    anew, so its handle changes. *)
Theorem C10_reset_frame (w : World) :
  reset_keeps w (resetGame random w) /\
  move (st (resetGame random w)) = move (st w) /\
  sprint (st (resetGame random w)) = sprint (st w) /\
  direction (st (resetGame random w)) = direction (st w) /\
  scene (gl (resetGame random w)) = scene (gl w) /\
  playerObj (gl (resetGame random w)) = playerObj (gl w) /\
  cameraPos (gl (resetGame random w)) = cameraPos (gl w) /\
  controlsLocked (gl (resetGame random w)) = controlsLocked (gl w) /\
  allowMouseDragFallback (gl (resetGame random w)) =
    allowMouseDragFallback (gl w) /\
  prevTime (gl (resetGame random w)) = prevTime (gl w) /\
  pending (host (resetGame random w)) = pending (host w) /\
  waveIntervalHandle (gl (resetGame random w)) =
    (if playerObj (gl w) then Some (nextTimer (host w))
     else waveIntervalHandle (gl w)) /\
  intervals (host (resetGame random w)) =
    (if playerObj (gl w)
     then match waveIntervalHandle (gl w) with
          | Some (S h) => remove Nat.eq_dec (S h) (intervals (host w))
          | _ => intervals (host w)
          end ++ [nextTimer (host w)]
     else intervals (host w)).
Proof.
  destruct (playerObj (gl w)) eqn:Hp.
  - destruct (resetGame_frame w Hp) as [l [Hst [Hgl [Hpend Hint]]]].
    unfold reset_keeps. rewrite Hst, Hgl, Hpend, Hint. cbn.
    repeat split; auto.
  - rewrite (resetGame_guard w Hp). unfold reset_keeps.
    repeat split; auto.
Qed.

End ResetFacts.

(** C10 as stated fails: with the wave timer running under handle 1, a
    reset leaves it under handle 2; the old interval is gone. *)
Lemma C10_counterexample :
  waveIntervalHandle (gl running) = Some 1%nat /\
  waveIntervalHandle (gl (resetGame random_half running)) = Some 2%nat /\
  intervals (host running) = [1%nat] /\
  intervals (host (resetGame random_half running)) = [2%nat] /\
  ~ reset_touches_only running (resetGame random_half running).
Proof.
  destruct (resetGame_frame random_half running) as [l [_ [Hgl [_ Hint]]]];
    [reflexivity|].
  assert (H2 : waveIntervalHandle (gl (resetGame random_half running)) = Some 2%nat)
    by (rewrite Hgl; reflexivity).
  split; [reflexivity|]. split; [exact H2|]. split; [reflexivity|].
  split; [rewrite Hint; reflexivity|].
  unfold reset_touches_only. intros H.
  destruct H as [_ [_ [_ [_ [_ [_ [_ [_ [_ [_ [_ [Hw _]]]]]]]]]]]].
  rewrite H2 in Hw. discriminate Hw.
Qed.

Lemma C7_damage_reset_witness :
  hp (st (applyDamageToPlayer 10 (upd_st (set_hp 10) started))) = 0%Z /\
  pending (host (applyDamageToPlayer 10 (upd_st (set_hp 10) started))) =
    [{| delay := 2000; callback := Respawn |}] /\
  hp (st (run_callback random_half Respawn
            (applyDamageToPlayer 10 (upd_st (set_hp 10) started)))) = 100%Z /\
  length (enemies (st (run_callback random_half Respawn
            (applyDamageToPlayer 10 (upd_st (set_hp 10) started))))) = 30%nat.
Proof.
  destruct (C7_damage_reset random_half 10 (upd_st (set_hp 10) started))
    as [[Hhp _] [Hpend _]].
  destruct (C7_damage_reset random_half 0
              (applyDamageToPlayer 10 (upd_st (set_hp 10) started)))
    as [_ [_ Hreset]].
  destruct Hreset as [H100 [_ [_ [_ [H30 _]]]]]; [reflexivity | reflexivity |].
  split; [exact Hhp|]. split; [apply Hpend; reflexivity|].
  split; [exact H100 | exact H30].
Defined.

(** C7 as stated fails in one place: the reset does not put the player at
    the height of the ground at the origin but 0.1 above it. *)
Lemma C7_counterexample :
  playerPos (gl (run_callback random_half Respawn started)) =
    vec3 0 (getTerrainHeight 0 0 + 0.1) 0 /\
  playerPos (gl (run_callback random_half Respawn started)) <>
    vec3 0 (getTerrainHeight 0 0) 0.
Proof.
  destruct (resetGame_spec random_half started) as [l [_ [_ [_ [Hgl _]]]]];
    [reflexivity | reflexivity |].
  cbn [run_callback]. rewrite Hgl. cbn [playerPos set_waveIntervalHandle
    set_cameraLook set_playerPos].
  split; [reflexivity|].
  intros H. apply (f_equal y_) in H. cbn in H. lra.
Qed.

(** ** Hitscan *)

Section HitscanFacts.
Variable intersectObjects :
  Vector3 -> Vector3 -> list Object3D -> list Intersection.




(** The loop always ends within the bound. *)
Lemma walk_up_total (objs : list Object3D) (o : Object3D) :
  walk_up 3 objs (Some o) <> None.
Proof.
  destruct o; cbn [walk_up parent];
    repeat (destruct (in_dec _ _ _); [discriminate|]); discriminate.
Qed.


Lemma damage_owner_none (root : Object3D) (es : list Enemy.t) :
  ~ In root (map (fun e => Group (Enemy.mesh e)) es) ->
  damage_owner root es = es.
Proof.
  induction es as [|a es IH]; cbn [map In damage_owner]; [reflexivity|].
  intros Hn. destruct (Object3D_eq_dec (Group (Enemy.mesh a)) root) as [E|E].
  - exfalso. apply Hn. left. exact E.
  - rewrite IH; [reflexivity|]. intros H. apply Hn. right. exact H.
Qed.

Lemma shoot_enemies_accepted (now : Q) (w : World) :
  shot_allowed now w ->
  enemies (st (shoot intersectObjects now w)) =
  match shot_hits intersectObjects w with
  | [] => enemies (st w)
  | hit :: _ =>
      match find_root (map (fun e => Group (Enemy.mesh e)) (enemies (st w)))
                      (object hit) with
      | Some root => damage_owner root (enemies (st w))
      | None => enemies (st w)
      end
  end.
Proof.
  intros [Hcd [Hrel Hammo]]. unfold shoot.
  apply Qltb_false in Hcd. rewrite Hcd, Hrel.
  destruct (ammo (st w) <=? 0)%Z eqn:E; [apply Z.leb_le in E; lia|].
  change (shot_hits intersectObjects (upd_st _ w))
    with (shot_hits intersectObjects w).
  destruct (shot_hits intersectObjects w) as [|hit rest]; [reflexivity|].
  cbn [st upd_st enemies set_ammo set_lastShot].
  destruct (find_root _ _); reflexivity.
Qed.


End HitscanFacts.


(** The same shot, run: only the second enemy is hurt. *)
Example shoot_second_enemy :
  map Enemy.hp
      (enemies (st (shoot raycast_second_then_first 5000 three_enemies))) =
  [100; 50; 100]%Z.
Proof. reflexivity. Qed.

(** ** The enemy update and the rest of the state *)

Lemma ai_frame_refl (w : World) : ai_frame w w.
Proof. unfold ai_frame. auto 10. Qed.

Lemma ai_frame_trans (a b c : World) :
  ai_frame a b -> ai_frame b c -> ai_frame a c.
Proof. unfold ai_frame. intuition congruence. Qed.

Lemma applyDamageToPlayer_frame (amount : Z) (w : World) :
  ai_frame w (applyDamageToPlayer amount w).
Proof.
  unfold applyDamageToPlayer, ai_frame.
  destruct (hp _ <=? 0)%Z; cbn; auto 10.
Qed.

Lemma ai_step_frame (delta : R) (playerPos : Vector3) (e : Enemy.t) (w : World) :
  ai_frame w (snd (ai_step delta playerPos e w)).
Proof.
  unfold ai_step.
  destruct (Rltb _ _); [apply ai_frame_refl|].
  destruct (Rleb _ _); [apply applyDamageToPlayer_frame | apply ai_frame_refl].
Qed.

Lemma enemy_iter_frame (delta : R) (playerPos : Vector3) (i : nat) (w : World) :
  ai_frame w (enemy_iter delta playerPos i w).
Proof.
  unfold enemy_iter.
  destruct (nth_error _ i) as [e|]; [|apply ai_frame_refl].
  pose proof (ai_step_frame delta playerPos e w) as H.
  destruct (ai_step delta playerPos e w) as [e' w1]. cbn [snd] in H.
  destruct (Enemy.hp e' <=? 0)%Z;
    (eapply ai_frame_trans; [exact H|]); unfold ai_frame; cbn; auto 10.
Qed.

Lemma enemy_loop_frame (delta : R) (playerPos : Vector3) (i : nat) (w : World) :
  ai_frame w (enemy_loop delta playerPos i w).
Proof.
  revert w. induction i as [|i IH]; intros w; cbn [enemy_loop].
  - apply ai_frame_refl.
  - eapply ai_frame_trans; [apply enemy_iter_frame | apply IH].
Qed.

Lemma updateEnemies_frame (delta : R) (w : World) :
  ai_frame w (updateEnemies delta w).
Proof.
  unfold updateEnemies. destruct (playerObj (gl w)); cbn [negb];
    [|apply ai_frame_refl].
  eapply ai_frame_trans; [|apply enemy_loop_frame].
  unfold ai_frame. cbn. auto 10.
Qed.

(** The frame hands the tick's velocity, flags and position on unchanged:
    the enemy update and the camera sync do not touch them. *)
Lemma animate_movement (time : Q) (w : World) :
  let delta := Q2R ((time - prevTime (gl w)) / 1000) in
  let w1 := updatePlayerMovement delta (upd_gl (set_prevTime time) w) in
  velocity (st (animate time w)) = velocity (st w1) /\
  onGround (st (animate time w)) = onGround (st w1) /\
  playerPos (gl (animate time w)) = playerPos (gl w1).
Proof.
  intros delta w1. unfold animate. fold delta. fold w1.
  destruct (updateEnemies_frame delta w1) as [Hgl [_ [_ [Hg [Hv _]]]]].
  unfold updateCamera.
  destruct (playerObj (gl (updateEnemies delta w1)));
    cbn [st gl upd_gl playerPos set_cameraPos]; rewrite Hgl; auto.
Qed.

(** ** Player movement *)

Lemma updatePlayerMovement_skipped (delta : R) (w : World) :
  controlsLocked (gl w) = false -> allowMouseDragFallback (gl w) = false ->
  updatePlayerMovement delta w = w.
Proof. intros H1 H2. unfold updatePlayerMovement. rewrite H1, H2. reflexivity. Qed.

(** The tick when its guard is passed. *)
Lemma updatePlayerMovement_run (delta : R) (w : World) :
  controlsLocked (gl w) || allowMouseDragFallback (gl w) = true ->
  let p := integrated_position delta w in
  let ground := getTerrainHeight (x_ p) (z_ p) in
  updatePlayerMovement delta w =
  if Rltb (y_ p) ground then
    upd_gl (set_playerPos (Vec.set_y p ground))
      (upd_st (fun s => set_onGround true
                 (set_direction (intent_direction w)
                    (set_velocity (Vec.set_y (tick_velocity delta w) 0) s))) w)
  else
    upd_gl (set_playerPos p)
      (upd_st (fun s => set_onGround false
                 (set_direction (intent_direction w)
                    (set_velocity (tick_velocity delta w) s))) w).
Proof.
  intros H p ground. unfold updatePlayerMovement.
  destruct (controlsLocked (gl w)), (allowMouseDragFallback (gl w));
    try discriminate H; reflexivity.
Qed.

Lemma tick_velocity_no_intent (delta : R) (w : World) :
  no_intent w ->
  tick_velocity delta w =
  vec3 (x_ (velocity (st w)) - x_ (velocity (st w)) * 10 * delta)
       (y_ (velocity (st w)) - 30 * delta)
       (z_ (velocity (st w)) - z_ (velocity (st w)) * 10 * delta).
Proof.
  intros [Hf [Hb [Hl Hr]]]. unfold tick_velocity. rewrite Hf, Hb, Hl, Hr.
  reflexivity.
Qed.

Lemma updatePlayerMovement_move (delta : R) (w : World) :
  move (st (updatePlayerMovement delta w)) = move (st w).
Proof.
  unfold updatePlayerMovement.
  destruct (negb _ && negb _); [reflexivity|].
  destruct (Rltb _ _); reflexivity.
Qed.

(** The horizontal velocity after a tick with no key held. *)
Lemma updatePlayerMovement_coasting (delta : R) (w : World) :
  no_intent w ->
  let k := if controlsLocked (gl w) || allowMouseDragFallback (gl w)
           then (1 - 10 * delta)%R else 1%R in
  x_ (velocity (st (updatePlayerMovement delta w))) =
    (x_ (velocity (st w)) * k)%R /\
  z_ (velocity (st (updatePlayerMovement delta w))) =
    (z_ (velocity (st w)) * k)%R.
Proof.
  intros Hni k. subst k.
  destruct (controlsLocked (gl w) || allowMouseDragFallback (gl w)) eqn:E.
  - rewrite (updatePlayerMovement_run delta w E).
    rewrite (tick_velocity_no_intent delta w Hni).
    destruct (Rltb _ _); cbn; split; ring.
  - apply orb_false_iff in E. destruct E as [E1 E2].
    rewrite (updatePlayerMovement_skipped delta w E1 E2). split; ring.
Qed.

Lemma damped_refl (v : R) : damped v v.
Proof. unfold damped. lra. Qed.

Lemma damped_trans (a b c : R) : damped a b -> damped b c -> damped a c.
Proof. unfold damped. lra. Qed.

Lemma damped_scale (v k : R) : (0 <= k <= 1)%R -> damped v (v * k).
Proof. unfold damped. intros Hk. split; intros Hv; nra. Qed.

Lemma updatePlayerMovement_damped (delta : R) (w : World) :
  (0 <= delta <= 0.1)%R -> no_intent w ->
  damped (x_ (velocity (st w)))
         (x_ (velocity (st (updatePlayerMovement delta w)))) /\
  damped (z_ (velocity (st w)))
         (z_ (velocity (st (updatePlayerMovement delta w)))).
Proof.
  intros Hd Hni.
  destruct (updatePlayerMovement_coasting delta w Hni) as [Hx Hz].
  rewrite Hx, Hz.
  destruct (controlsLocked (gl w) || allowMouseDragFallback (gl w));
    split; apply damped_scale; lra.
Qed.

(** C5, as the code has it.  With no movement key held and every elapsed
    time at least 0 and below 0.1 s (so that [10 * delta < 1]), a tick,
    and any run of ticks, leaves each horizontal velocity component with
    its sign, or at zero, and no larger in magnitude.  The bound is
    strict: a frame of exactly 100 ms gives the double nearest to 0.1,
    which is above 1/10, and [x - x * 10.0 * delta] then has the other
    sign for some [x]. *)
Theorem C5_damping (deltas : list R) (w : World) :
  Forall (fun d => 0 <= d < 0.1)%R deltas -> no_intent w ->
  damped (x_ (velocity (st w))) (x_ (velocity (st (movement_ticks deltas w)))) /\
  damped (z_ (velocity (st w))) (z_ (velocity (st (movement_ticks deltas w)))) /\
  no_intent (movement_ticks deltas w).
Proof.
  revert w. induction deltas as [|d ds IH]; intros w Hall Hni; cbn.
  - split; [apply damped_refl | split; [apply damped_refl | exact Hni]].
  - inversion Hall as [|? ? Hd Hds]; subst.
    assert (Hd' : (0 <= d <= 0.1)%R) by lra.
    destruct (updatePlayerMovement_damped d w Hd' Hni) as [Hx Hz].
    assert (Hni' : no_intent (updatePlayerMovement d w))
      by (unfold no_intent; rewrite updatePlayerMovement_move; exact Hni).
    destruct (IH (updatePlayerMovement d w) Hds Hni') as [Hx' [Hz' Hn']].
    split; [eapply damped_trans; eassumption|].
    split; [eapply damped_trans; eassumption | exact Hn'].
Qed.

Lemma C5_damping_witness :
  damped 4 (x_ (velocity (st (movement_ticks [0.016; 0.05; 0.099]%R sliding)))) /\
  damped (-3) (z_ (velocity (st (movement_ticks [0.016; 0.05; 0.099]%R sliding)))).
Proof.
  destruct (C5_damping [0.016; 0.05; 0.099]%R sliding) as [Hx [Hz _]].
  - repeat constructor; lra.
  - unfold no_intent. cbn. auto.
  - split; [exact Hx | exact Hz].
Defined.

Lemma Q2R_milliseconds (a b : Z) : Q2R ((inject_Z a - inject_Z b) / 1000) = (IZR (a - b) / 1000)%R.
Proof.
  unfold Qdiv. rewrite Q2R_mult, Q2R_inv, Q2R_minus.
  - unfold Q2R. cbn. rewrite minus_IZR. lra.
  - intros H. discriminate H.
Qed.

(** C5 as stated fails: a frame that comes 150 ms after the previous one
    gives [delta = 0.15]; the tick turns a velocity of 4 into -2. *)
Lemma C5_counterexample :
  no_intent sliding /\
  x_ (velocity (st sliding)) = 4%R /\
  x_ (velocity (st (animate 150 sliding))) = (-2)%R /\
  ~ damped (x_ (velocity (st sliding)))
           (x_ (velocity (st (animate 150 sliding)))).
Proof.
  assert (Hni : no_intent sliding) by (unfold no_intent; cbn; auto).
  assert (Hv : x_ (velocity (st (animate 150 sliding))) = (-2)%R).
  { destruct (animate_movement 150 sliding) as [Hvel _]. rewrite Hvel.
    match goal with |- context [updatePlayerMovement ?d ?u] =>
      destruct (updatePlayerMovement_coasting d u Hni) as [Hx _]; rewrite Hx end.
    change (prevTime (gl sliding)) with (inject_Z 0).
    change (150%Q) with (inject_Z 150).
    rewrite Q2R_milliseconds. cbn. lra. }
  split; [exact Hni|]. split; [reflexivity|]. split; [exact Hv|].
  rewrite Hv. unfold damped. cbn. lra.
Qed.

(** The vertical coordinate is integrated from the vertical velocity
    alone: the flattened view direction and its normal are horizontal. *)
Lemma integrated_position_y (delta : R) (w : World) :
  y_ (integrated_position delta w) =
  (y_ (playerPos (gl w)) + (y_ (velocity (st w)) - 30 * delta) * delta)%R.
Proof. unfold integrated_position, tick_velocity. cbn. ring. Qed.

(** With no key held and no horizontal velocity the player stays over
    the same point of the ground. *)
Lemma integrated_position_at_rest (delta : R) (w : World) :
  no_intent w ->
  x_ (velocity (st w)) = 0%R -> z_ (velocity (st w)) = 0%R ->
  x_ (integrated_position delta w) = x_ (playerPos (gl w)) /\
  z_ (integrated_position delta w) = z_ (playerPos (gl w)).
Proof.
  intros Hni Hx Hz. unfold integrated_position.
  rewrite (tick_velocity_no_intent delta w Hni), Hx, Hz. cbn. split; ring.
Qed.

Lemma onKey_jump (w : World) :
  onKey Space true w =
  if onGround (st w)
  then upd_st (fun s => set_velocity (Vec.set_y (velocity s) 15) s) w
  else w.
Proof. reflexivity. Qed.

Section TickFacts.
Variable delta : R.
Variable w : World.
Hypothesis enabled :
  controlsLocked (gl w) || allowMouseDragFallback (gl w) = true.

Lemma tick_horizontal :
  x_ (playerPos (gl (updatePlayerMovement delta w))) =
    x_ (integrated_position delta w) /\
  z_ (playerPos (gl (updatePlayerMovement delta w))) =
    z_ (integrated_position delta w).
Proof.
  rewrite (updatePlayerMovement_run delta w enabled).
  destruct (Rltb _ _); cbn; auto.
Qed.

Lemma tick_below_ground :
  (y_ (integrated_position delta w) <
   getTerrainHeight (x_ (integrated_position delta w))
                    (z_ (integrated_position delta w)))%R ->
  y_ (playerPos (gl (updatePlayerMovement delta w))) =
    getTerrainHeight (x_ (playerPos (gl (updatePlayerMovement delta w))))
                     (z_ (playerPos (gl (updatePlayerMovement delta w)))) /\
  y_ (velocity (st (updatePlayerMovement delta w))) = 0%R /\
  onGround (st (updatePlayerMovement delta w)) = true.
Proof.
  intros Hlt. rewrite (updatePlayerMovement_run delta w enabled).
  apply Rltb_true in Hlt. rewrite Hlt. cbn. auto.
Qed.

Lemma tick_above_ground :
  ~ (y_ (integrated_position delta w) <
     getTerrainHeight (x_ (integrated_position delta w))
                      (z_ (integrated_position delta w)))%R ->
  onGround (st (updatePlayerMovement delta w)) = false /\
  playerPos (gl (updatePlayerMovement delta w)) = integrated_position delta w /\
  y_ (velocity (st (updatePlayerMovement delta w))) =
    (y_ (velocity (st w)) - 30 * delta)%R.
Proof.
  intros Hge. rewrite (updatePlayerMovement_run delta w enabled).
  assert (E : Rltb (y_ (integrated_position delta w))
                (getTerrainHeight (x_ (integrated_position delta w))
                                  (z_ (integrated_position delta w))) = false)
    by (apply Rltb_false; lra).
  rewrite E. cbn. auto.
Qed.

Hypothesis grounded : onGround (st w) = true.

Lemma tick_after_jump :
  let q := integrated_position delta (onKey Space true w) in
  onGround (st (updatePlayerMovement delta (onKey Space true w))) = false <->
  (getTerrainHeight (x_ q) (z_ q) <=
   y_ (playerPos (gl w)) + (15 - 30 * delta) * delta)%R.
Proof.
  intros q. subst q. rewrite onKey_jump, grounded.
  set (wj := upd_st _ w).
  assert (Hen' : controlsLocked (gl wj) || allowMouseDragFallback (gl wj) = true)
    by exact enabled.
  rewrite (updatePlayerMovement_run delta wj Hen').
  assert (Hy : y_ (integrated_position delta wj) =
               (y_ (playerPos (gl w)) + (15 - 30 * delta) * delta)%R)
    by (rewrite integrated_position_y; reflexivity).
  rewrite <- Hy.
  destruct (Rltb _ _) eqn:E; cbn [st upd_st upd_gl onGround set_onGround].
  - apply Rltb_true in E. split; [discriminate | lra].
  - apply Rltb_false in E. split; [intros _; exact E | reflexivity].
Qed.

Lemma tick_after_standing_jump :
  no_intent w ->
  x_ (velocity (st w)) = 0%R -> z_ (velocity (st w)) = 0%R ->
  y_ (playerPos (gl w)) =
    getTerrainHeight (x_ (playerPos (gl w))) (z_ (playerPos (gl w))) ->
  (0 <= delta <= 0.5)%R ->
  onGround (st (updatePlayerMovement delta (onKey Space true w))) = false.
Proof.
  intros Hni Hx Hz Hy Hd. apply tick_after_jump.
  rewrite onKey_jump, grounded.
  destruct (integrated_position_at_rest delta
              (upd_st (fun s => set_velocity (Vec.set_y (velocity s) 15) s) w))
    as [Hpx Hpz]; [exact Hni | exact Hx | exact Hz |].
  rewrite Hpx, Hpz. cbn [gl upd_st]. rewrite <- Hy. nra.
Qed.

End TickFacts.

(** C6, as the code has it.  For a tick that passes its guard: if the
    integrated height is below the terrain at the new horizontal
    coordinates, the player is put exactly on the terrain, the vertical
    velocity is 0 and the grounded flag is set; otherwise the flag is
    cleared and height and velocity are the integrated ones.  A jump
    request while grounded sets the vertical velocity to 15 and nothing
    else; while airborne it changes nothing.  On the tick after a jump the
    flag is cleared exactly when the terrain at the new coordinates is not
    above the integrated height [y + (15 - 30 delta) delta]; from a
    standstill on the ground this is the case for every elapsed time from
    0 to 0.5 s. *)
Theorem C6_ground_clamp_and_jump (delta : R) (w : World) :
  controlsLocked (gl w) || allowMouseDragFallback (gl w) = true ->
  let p := integrated_position delta w in
  let ground := getTerrainHeight (x_ p) (z_ p) in
  let w' := updatePlayerMovement delta w in
  (y_ p = y_ (playerPos (gl w)) + (y_ (velocity (st w)) - 30 * delta) * delta)%R /\
  x_ (playerPos (gl w')) = x_ p /\ z_ (playerPos (gl w')) = z_ p /\
  ((y_ p < ground)%R ->
   y_ (playerPos (gl w')) = getTerrainHeight (x_ (playerPos (gl w')))
                                             (z_ (playerPos (gl w'))) /\
   y_ (velocity (st w')) = 0%R /\ onGround (st w') = true) /\
  (~ (y_ p < ground)%R ->
   onGround (st w') = false /\ playerPos (gl w') = p /\
   y_ (velocity (st w')) = (y_ (velocity (st w)) - 30 * delta)%R) /\
  (onGround (st w) = true ->
   onKey Space true w =
     upd_st (fun s => set_velocity (Vec.set_y (velocity s) 15) s) w) /\
  (onGround (st w) = false -> onKey Space true w = w) /\
  (onGround (st w) = true ->
   let q := integrated_position delta (onKey Space true w) in
   onGround (st (updatePlayerMovement delta (onKey Space true w))) = false <->
   (getTerrainHeight (x_ q) (z_ q) <=
    y_ (playerPos (gl w)) + (15 - 30 * delta) * delta)%R) /\
  (onGround (st w) = true -> no_intent w ->
   x_ (velocity (st w)) = 0%R -> z_ (velocity (st w)) = 0%R ->
   y_ (playerPos (gl w)) =
     getTerrainHeight (x_ (playerPos (gl w))) (z_ (playerPos (gl w))) ->
   (0 <= delta <= 0.5)%R ->
   onGround (st (updatePlayerMovement delta (onKey Space true w))) = false).
Proof.
  intros Hen p ground w'. subst p ground w'.
  split; [apply integrated_position_y|].
  destruct (tick_horizontal delta w Hen) as [Hx Hz].
  split; [exact Hx|]. split; [exact Hz|].
  split; [apply (tick_below_ground delta w Hen)|].
  split; [apply (tick_above_ground delta w Hen)|].
  split; [intros Hg; rewrite onKey_jump, Hg; reflexivity|].
  split; [intros Hg; rewrite onKey_jump, Hg; reflexivity|].
  split; [apply (tick_after_jump delta w Hen)|].
  apply (tick_after_standing_jump delta w Hen).
Qed.

Lemma standing_height : y_ (playerPos (gl standing)) = 12%R.
Proof. cbn. apply getTerrainHeight_origin. Qed.

Lemma C6_ground_clamp_and_jump_witness :
  (y_ (playerPos (gl (updatePlayerMovement 0.016 standing))) =
     getTerrainHeight (x_ (playerPos (gl (updatePlayerMovement 0.016 standing))))
                      (z_ (playerPos (gl (updatePlayerMovement 0.016 standing)))) /\
   y_ (velocity (st (updatePlayerMovement 0.016 standing))) = 0%R /\
   onGround (st (updatePlayerMovement 0.016 standing)) = true) /\
  onGround (st (updatePlayerMovement 0.016 (onKey Space true standing))) = false.
Proof.
  destruct (C6_ground_clamp_and_jump 0.016 standing eq_refl)
    as [Hy [_ [_ [Hbelow [_ [_ [_ [_ Hjump]]]]]]]].
  split.
  - apply Hbelow. rewrite Hy.
    destruct (integrated_position_at_rest 0.016 standing) as [Hx Hz];
      [unfold no_intent; cbn; auto | reflexivity | reflexivity |].
    rewrite Hx, Hz. cbn. rewrite getTerrainHeight_origin. lra.
  - apply Hjump.
    + reflexivity.
    + unfold no_intent. cbn. auto.
    + reflexivity.
    + reflexivity.
    + reflexivity.
    + lra.
Defined.

(** C6 as stated fails in two places.  A frame that comes 600 ms after a
    jump from the ground at the origin integrates the height to
    12 + (15 - 18) * 0.6 = 10.2, below the terrain, so the tick after the
    jump sets the grounded flag again.  And while the pointer is released
    the tick is skipped: a player who stands on the ground keeps the flag,
    although the height is not below the terrain. *)
Lemma C6_counterexample :
  (onGround (st standing) = true /\
   y_ (velocity (st (onKey Space true standing))) = 15%R /\
   onGround (st (animate 600 (onKey Space true standing))) = true) /\
  (updatePlayerMovement 0.016 paused = paused /\
   ~ (y_ (playerPos (gl paused)) <
      getTerrainHeight (x_ (playerPos (gl paused))) (z_ (playerPos (gl paused))))%R /\
   onGround (st (updatePlayerMovement 0.016 paused)) = true).
Proof.
  split.
  - split; [reflexivity|]. split; [reflexivity|].
    destruct (animate_movement 600 (onKey Space true standing)) as [_ [Hg _]].
    rewrite Hg.
    change (prevTime (gl (onKey Space true standing))) with (inject_Z 0).
    change (600%Q) with (inject_Z 600).
    rewrite Q2R_milliseconds.
    set (wj := upd_gl (set_prevTime (inject_Z 600)) (onKey Space true standing)).
    set (d := (IZR (600 - 0) / 1000)%R).
    assert (Hd : d = 0.6%R) by (unfold d; cbn; lra).
    apply (tick_below_ground d wj eq_refl).
    rewrite integrated_position_y.
    destruct (integrated_position_at_rest d wj) as [Hx Hz];
      [unfold no_intent; cbn; auto | reflexivity | reflexivity |].
    rewrite Hx, Hz. cbn [wj gl upd_gl st onKey standing playerPos set_prevTime].
    cbn. rewrite getTerrainHeight_origin, Hd. lra.
  - assert (E : updatePlayerMovement 0.016 paused = paused)
      by (apply updatePlayerMovement_skipped; reflexivity).
    rewrite E. split; [reflexivity|]. split; [cbn; lra | reflexivity].
Qed.

(** ** Enemy AI: vectors *)

Lemma lengthSq_nonneg (v : Vector3) : (0 <= Vec.lengthSq v)%R.
Proof. unfold Vec.lengthSq. nra. Qed.

Lemma length_nonneg (v : Vector3) : (0 <= Vec.length v)%R.
Proof. apply sqrt_pos. Qed.

Lemma length_sqr (v : Vector3) :
  (Vec.length v * Vec.length v = Vec.lengthSq v)%R.
Proof. apply sqrt_sqrt, lengthSq_nonneg. Qed.

Lemma length_multiplyScalar (v : Vector3) (k : R) :
  Vec.length (Vec.multiplyScalar v k) = (Rabs k * Vec.length v)%R.
Proof.
  unfold Vec.length.
  replace (Vec.lengthSq (Vec.multiplyScalar v k))
    with (Rsqr k * Vec.lengthSq v)%R
    by (unfold Vec.lengthSq, Vec.multiplyScalar, Rsqr; cbn; ring).
  rewrite sqrt_mult; [|apply Rle_0_sqr | apply lengthSq_nonneg].
  rewrite sqrt_Rsqr_abs. reflexivity.
Qed.

Lemma vec3_eq (a b : Vector3) :
  x_ a = x_ b -> y_ a = y_ b -> z_ a = z_ b -> a = b.
Proof. destruct a, b. cbn. intros -> -> ->. reflexivity. Qed.

(** [normalize] divides by the length when that is not zero. *)
Lemma normalize_nonzero (v : Vector3) :
  Vec.length v <> 0%R ->
  Vec.normalize v = Vec.multiplyScalar v (1 / Vec.length v).
Proof.
  intros H. unfold Vec.normalize, Vec.divideScalar.
  destruct (Req_dec_T (Vec.length v) 0); [contradiction | reflexivity].
Qed.

Lemma length_normalize (v : Vector3) :
  Vec.length v <> 0%R -> Vec.length (Vec.normalize v) = 1%R.
Proof.
  intros H. rewrite (normalize_nonzero v H), length_multiplyScalar.
  pose proof (length_nonneg v) as Hpos.
  rewrite Rabs_right.
  - field. exact H.
  - apply Rle_ge. apply Rlt_le. apply Rdiv_lt_0_compat; lra.
Qed.

Lemma length_sub_sym (a b : Vector3) :
  Vec.length (Vec.sub a b) = Vec.length (Vec.sub b a).
Proof.
  unfold Vec.length. f_equal. unfold Vec.lengthSq, Vec.sub. cbn. ring.
Qed.

Lemma length_of_x (a : R) : (0 <= a)%R -> Vec.length (vec3 a 0 0) = a.
Proof.
  intros Ha. unfold Vec.length, Vec.lengthSq. cbn.
  replace (a * a + 0 * 0 + 0 * 0)%R with (a * a)%R by ring.
  apply sqrt_square, Ha.
Qed.

(** ** Enemy AI: one enemy's step *)

Section AiStepFacts.
Variable delta : R.
Variable playerPos : Vector3.
Variable e : Enemy.t.
Variable w : World.

Let dist : R := Vec.distance playerPos (Enemy.position e).
Let cd : R := Rmax 0 (Enemy.attackCooldown e - delta).

Lemma ai_step_far :
  (melee_threshold e < dist)%R ->
  ai_step delta playerPos e w =
  (Enemy.set_position
     (Vec.addScaledVector (Enemy.position e)
        (Vec.normalize (Vec.sub playerPos (Enemy.position e)))
        (Enemy.speed e * delta))
     (Enemy.set_attackCooldown cd e),
   w).
Proof.
  intros H. unfold ai_step. apply Rltb_true in H.
  change (melee_threshold (Enemy.set_attackCooldown _ e)) with (melee_threshold e).
  cbn [Enemy.position Enemy.set_attackCooldown Enemy.speed].
  unfold dist, Vec.distance in H. rewrite H. reflexivity.
Qed.

Lemma ai_step_near :
  (dist <= melee_threshold e)%R ->
  ai_step delta playerPos e w =
  let e2 :=
    if Rltb 0.001 dist
    then Enemy.set_position
           (Vec.addScaledVector playerPos
              (Vec.normalize (Vec.sub playerPos (Enemy.position e)))
              (- melee_threshold e))
           (Enemy.set_attackCooldown cd e)
    else Enemy.set_attackCooldown cd e in
  if Rleb cd 0
  then (Enemy.set_attackCooldown (Enemy.attackRate e) e2,
        applyDamageToPlayer PLAYER_ATTACK_DAMAGE w)
  else (e2, w).
Proof.
  intros H. unfold ai_step. apply Rltb_false in H.
  change (melee_threshold (Enemy.set_attackCooldown _ e)) with (melee_threshold e).
  cbn [Enemy.position Enemy.set_attackCooldown Enemy.speed].
  unfold dist, Vec.distance in H. rewrite H.
  fold cd. unfold dist, Vec.distance.
  destruct (Rltb 0.001 _); cbn [Enemy.attackCooldown Enemy.set_position
    Enemy.set_attackCooldown Enemy.attackRate]; reflexivity.
Qed.



Lemma pursuit_on_line (s : R) :
  (0 < dist)%R ->
  Vec.addScaledVector (Enemy.position e)
    (Vec.normalize (Vec.sub playerPos (Enemy.position e))) s =
  Vec.addScaledVector (Enemy.position e)
    (Vec.sub playerPos (Enemy.position e)) (s / dist).
Proof.
  intros Hd. unfold dist, Vec.distance in *.
  rewrite normalize_nonzero by lra.
  set (l := Vec.length _) in *.
  apply vec3_eq; cbn; field; lra.
Qed.

Lemma pursuit_distance (s : R) :
  (0 < dist)%R ->
  Vec.distance
    (Vec.addScaledVector (Enemy.position e)
       (Vec.normalize (Vec.sub playerPos (Enemy.position e))) s)
    (Enemy.position e) = Rabs s.
Proof.
  intros Hd. unfold Vec.distance.
  assert (Hn : Vec.length (Vec.sub playerPos (Enemy.position e)) <> 0%R)
    by (unfold dist, Vec.distance in Hd; lra).
  replace (Vec.sub _ (Enemy.position e))
    with (Vec.multiplyScalar
            (Vec.normalize (Vec.sub playerPos (Enemy.position e))) s)
    by (apply vec3_eq; cbn; ring).
  rewrite length_multiplyScalar, (length_normalize _ Hn). ring.
Qed.

Lemma melee_threshold_radius :
  Enemy.radius e <> 0%R ->
  melee_threshold e = (Enemy.radius e + PLAYER_RADIUS + 0.15)%R.
Proof.
  intros H. unfold melee_threshold, Enemy.radius_or_default,
    ENEMY_MIN_DISTANCE_BUFFER.
  destruct (Req_dec_T (Enemy.radius e) 0); [contradiction | reflexivity].
Qed.

End AiStepFacts.


Lemma distance_on_x_axis (a : R) :
  (0 <= a)%R -> Vec.distance Vec.zero (vec3 a 0 0) = a.
Proof.
  intros Ha. unfold Vec.distance. rewrite length_sub_sym.
  replace (Vec.sub (vec3 a 0 0) Vec.zero) with (vec3 a 0 0)
    by (apply vec3_eq; cbn; ring).
  apply length_of_x, Ha.
Qed.

Lemma sample_enemy_threshold (g : nat) (p : Vector3) :
  melee_threshold (sample_enemy g p) = 1.55%R.
Proof.
  rewrite melee_threshold_radius; cbn; unfold ENEMY_RADIUS, PLAYER_RADIUS; lra.
Qed.



(** ** Arrays *)

Section ArrayFacts.
Context {A B : Type}.
Variable f : A -> B.

Lemma replace_nth_length (i : nat) (v : A) (l : list A) :
  length (replace_nth i v l) = length l.
Proof.
  revert i. induction l as [|a l IH]; intros [|i]; cbn; auto.
Qed.

(** Writing back an element with the same key leaves the keys as they
    were. *)
Lemma map_replace_nth_same (i : nat) (v a : A) (l : list A) :
  nth_error l i = Some a -> f v = f a ->
  map f (replace_nth i v l) = map f l.
Proof.
  revert i. induction l as [|b l IH]; intros [|i] Hn Hf; cbn in *;
    try discriminate.
  - injection Hn as ->. rewrite Hf. reflexivity.
  - rewrite (IH i Hn Hf). reflexivity.
Qed.

Lemma Forall_replace_nth (P : A -> Prop) (i : nat) (v : A) (l : list A) :
  Forall P l -> P v -> Forall P (replace_nth i v l).
Proof.
  intros Hl Hv. revert i.
  induction Hl as [|a l Ha Hl IH]; intros [|i]; cbn; constructor; auto.
Qed.

Lemma splice_cons (i : nat) (a : A) (l : list A) :
  splice (S i) (a :: l) = a :: splice i l.
Proof. reflexivity. Qed.

Lemma splice_length_le (i : nat) (l : list A) :
  (length (splice i l) <= length l)%nat.
Proof.
  unfold splice. rewrite length_app, length_firstn, length_skipn. lia.
Qed.

Lemma in_splice (i : nat) (x : A) (l : list A) :
  In x (splice i l) -> In x l.
Proof.
  revert i. induction l as [|a l IH]; intros [|i]; cbn; auto.
  fold (splice i l). intros [H|H]; [left; exact H | right; exact (IH i H)].
Qed.

Lemma Forall_splice (P : A -> Prop) (i : nat) (l : list A) :
  Forall P l -> Forall P (splice i l).
Proof.
  rewrite !Forall_forall. intros H x Hx. apply H. exact (in_splice i x l Hx).
Qed.

Lemma map_splice (i : nat) (l : list A) :
  map f (splice i l) = splice i (map f l).
Proof.
  unfold splice. rewrite map_app, firstn_map.
  f_equal. change (S i) with (1 + i)%nat.
  rewrite <- !skipn_skipn. rewrite skipn_map.
  destruct (skipn i l); reflexivity.
Qed.

End ArrayFacts.

Lemma NoDup_splice {A : Type} (i : nat) (l : list A) :
  NoDup l -> NoDup (splice i l).
Proof.
  intros H. revert i.
  induction H as [|a l Ha Hl IH]; intros [|i].
  - constructor.
  - constructor.
  - exact Hl.
  - rewrite splice_cons. constructor; [|apply IH].
    intros Hin. apply Ha. exact (in_splice i a l Hin).
Qed.

(** ** What holds in every world the game can reach *)

Lemma set_st_same (s : State) :
  set_kills (kills s) (set_enemies (enemies s) (set_hp (hp s) s)) = s.
Proof. destruct s; reflexivity. Qed.

Lemma set_pending_same (h : Host) : set_pending (pending h) h = h.
Proof. destruct h; reflexivity. Qed.

Lemma crowd_ok_nil (next : nat) : crowd_ok next [].
Proof.
  unfold crowd_ok, MAX_ENEMIES. cbn.
  split; [constructor | split; [constructor | lia]].
Qed.

Lemma crowd_ok_replace (next i : nat) (v a : Enemy.t) (es : list Enemy.t) :
  crowd_ok next es -> nth_error es i = Some a ->
  Enemy.mesh v = Enemy.mesh a -> Enemy.radius v = Enemy.radius a ->
  crowd_ok next (replace_nth i v es).
Proof.
  intros [Hnd [Hall Hlen]] Hn Hm Hr. unfold crowd_ok.
  rewrite (map_replace_nth_same Enemy.mesh i v a es Hn Hm), replace_nth_length.
  split; [exact Hnd|]. split; [|exact Hlen].
  apply Forall_replace_nth; [exact Hall|].
  rewrite Forall_forall in Hall. rewrite Hm, Hr.
  apply Hall. exact (nth_error_In es i Hn).
Qed.

Lemma crowd_ok_splice (next i : nat) (es : list Enemy.t) :
  crowd_ok next es -> crowd_ok next (splice i es).
Proof.
  intros [Hnd [Hall Hlen]]. unfold crowd_ok.
  rewrite map_splice. split; [apply NoDup_splice, Hnd|].
  split; [apply Forall_splice, Hall|].
  pose proof (splice_length_le i es). lia.
Qed.

Lemma crowd_ok_mono (next next' : nat) (es : list Enemy.t) :
  (next <= next')%nat -> crowd_ok next es -> crowd_ok next' es.
Proof.
  intros Hle [Hnd [Hall Hlen]]. unfold crowd_ok.
  split; [exact Hnd|]. split; [|exact Hlen].
  eapply Forall_impl; [|exact Hall]. cbn. intros e [H1 H2]. split; [lia | exact H2].
Qed.

(** Appending [n] new enemies whose groups are [next, ..., next + n - 1]. *)
Lemma crowd_ok_app (next n : nat) (es l : list Enemy.t) :
  crowd_ok next es ->
  map Enemy.mesh l = seq next n ->
  Forall (fun e => Enemy.radius e = ENEMY_RADIUS) l ->
  (Z.of_nat (length es) + Z.of_nat n <= MAX_ENEMIES)%Z ->
  crowd_ok (next + n) (es ++ l).
Proof.
  intros [Hnd [Hall Hlen]] Hm Hr Hcap. unfold crowd_ok.
  assert (Hl : length l = n) by (rewrite <- (length_map Enemy.mesh), Hm; apply length_seq).
  rewrite Forall_forall in Hall.
  split; [|split].
  - rewrite map_app, Hm. apply NoDup_app; [exact Hnd | apply seq_NoDup |].
    intros g Hg Hin. apply in_seq in Hin.
    apply in_map_iff in Hg. destruct Hg as [e [<- He]].
    destruct (Hall e He) as [Hlt _]. lia.
  - apply Forall_app. split.
    + apply Forall_forall. intros e He. destruct (Hall e He) as [H1 H2].
      split; [lia | exact H2].
    + rewrite Forall_forall in Hr. apply Forall_forall. intros e He.
      split; [|apply Hr, He].
      assert (Hin : In (Enemy.mesh e) (seq next n))
        by (rewrite <- Hm; apply in_map, He).
      apply in_seq in Hin. lia.
  - rewrite length_app, Hl. lia.
Qed.

Section SpawnInvariant.
Variable random : nat -> R.

Lemma spawn_loop_meshes (n : nat) (w : World) :
  exists l,
    enemies (st (spawn_loop random n w)) = enemies (st w) ++ l /\
    map Enemy.mesh l = seq (nextMesh (host w)) n /\
    Forall (fun e => Enemy.radius e = ENEMY_RADIUS) l /\
    nextMesh (host (spawn_loop random n w)) = (nextMesh (host w) + n)%nat.
Proof.
  revert w. induction n as [|n IH]; intros w; cbn [spawn_loop].
  - exists []. rewrite app_nil_r, Nat.add_0_r. cbn. auto.
  - destruct (spawn_one_spec random w)
      as [e [Hst [_ [_ [Hrad [Hmesh [Hnm _]]]]]]].
    destruct (IH (spawn_one random w)) as [l [Hes [Hm [Hr Hnm']]]].
    exists (e :: l). rewrite Hes, Hst, Hnm', Hnm. cbn.
    rewrite <- app_assoc, Hm, Hnm, Hmesh. cbn.
    repeat split; auto; lia.
Qed.

Lemma spawnEnemies_enemies_ok (count : Z) (w : World) :
  enemies_ok w -> enemies_ok (spawnEnemies random count w).
Proof.
  intros Hok. unfold spawnEnemies.
  destruct (scene (gl w)); cbn [negb]; [|exact Hok].
  set (n := Z.to_nat _).
  destruct (spawn_loop_meshes n w) as [l [Hes [Hm [Hr Hnm]]]].
  unfold enemies_ok. rewrite Hes, Hnm.
  apply crowd_ok_app; auto.
  destruct Hok as [_ [_ Hlen]]. unfold MAX_ENEMIES in *. subst n. lia.
Qed.

End SpawnInvariant.

Lemma ai_effect_refl (w : World) : ai_effect w w.
Proof.
  unfold ai_effect. split; [reflexivity|]. split.
  - exists (pending (host w)). symmetry. apply set_pending_same.
  - exists (kills (st w)), (enemies (st w)), (hp (st w)).
    split; [symmetry; apply set_st_same | auto].
Qed.

Lemma ai_effect_trans (a b c : World) :
  ai_effect a b -> ai_effect b c -> ai_effect a c.
Proof.
  intros [Hg1 [[p1 Hh1] [k1 [es1 [h1 [Hs1 [Hc1 Hb1]]]]]]]
         [Hg2 [[p2 Hh2] [k2 [es2 [h2 [Hs2 [Hc2 Hb2]]]]]]].
  unfold ai_effect. split; [congruence|]. split.
  - exists p2. rewrite Hh2, Hh1. reflexivity.
  - exists k2, es2, h2. split; [rewrite Hs2, Hs1; reflexivity|].
    rewrite Hh1, Hs1 in Hc2. rewrite Hs1 in Hb2. cbn in Hc2, Hb2. auto.
Qed.

Lemma applyDamageToPlayer_effect (amount : Z) (w : World) :
  (0 <= amount)%Z -> ai_effect w (applyDamageToPlayer amount w).
Proof.
  intros Ha. unfold applyDamageToPlayer, ai_effect.
  assert (Hst : forall s : State,
             set_hp (Z.max 0 (hp s - amount)) s =
             set_kills (kills s)
               (set_enemies (enemies s) (set_hp (Z.max 0 (hp s - amount)) s)))
    by (intros []; reflexivity).
  destruct (hp _ <=? 0)%Z; cbn -[Z.max Z.sub].
  - split; [reflexivity|]. split; [eexists; reflexivity|].
    exists (kills (st w)), (enemies (st w)), (Z.max 0 (hp (st w) - amount)).
    split; [apply Hst | split; [auto | lia]].
  - split; [reflexivity|].
    split; [exists (pending (host w)); symmetry; apply set_pending_same|].
    exists (kills (st w)), (enemies (st w)), (Z.max 0 (hp (st w) - amount)).
    split; [apply Hst | split; [auto | lia]].
Qed.

Lemma applyDamageToPlayer_enemies (amount : Z) (w : World) :
  enemies (st (applyDamageToPlayer amount w)) = enemies (st w).
Proof.
  unfold applyDamageToPlayer. destruct (hp _ <=? 0)%Z; reflexivity.
Qed.

Lemma ai_step_effect (delta : R) (playerPos : Vector3) (e : Enemy.t) (w : World) :
  ai_effect w (snd (ai_step delta playerPos e w)) /\
  enemies (st (snd (ai_step delta playerPos e w))) = enemies (st w) /\
  Enemy.mesh (fst (ai_step delta playerPos e w)) = Enemy.mesh e /\
  Enemy.radius (fst (ai_step delta playerPos e w)) = Enemy.radius e.
Proof.
  unfold ai_step.
  destruct (Rltb _ _); [cbn; auto using ai_effect_refl|].
  destruct (Rltb 0.001 _); destruct (Rleb _ _); cbn [fst snd].
  all: split;
    [ first [ apply applyDamageToPlayer_effect; unfold PLAYER_ATTACK_DAMAGE; lia
            | apply ai_effect_refl ]
    | split; [ first [ apply applyDamageToPlayer_enemies | reflexivity ]
             | split; reflexivity ] ].
Qed.

Lemma enemy_iter_effect (delta : R) (playerPos : Vector3) (i : nat) (w : World) :
  ai_effect w (enemy_iter delta playerPos i w).
Proof.
  unfold enemy_iter.
  destruct (nth_error (enemies (st w)) i) as [e|] eqn:Hn; [|apply ai_effect_refl].
  destruct (ai_step_effect delta playerPos e w) as [Heff [Hsame [Hm Hr]]].
  destruct (ai_step delta playerPos e w) as [e' w1]. cbn [fst snd] in *.
  destruct Heff as [Hg [[p Hh] [k [es [h [Hs [Hc Hb]]]]]]].
  unfold ai_effect.
  destruct (Enemy.hp e' <=? 0)%Z; cbn [st gl host upd_st].
  - split; [exact Hg|]. split; [exists p; exact Hh|].
    exists (kills (st w1) + 1)%Z, (splice i (enemies (st w1))), h.
    split; [rewrite Hs; reflexivity|]. split; [|exact Hb].
    intros Hok. rewrite Hsame. apply crowd_ok_splice, Hok.
  - split; [exact Hg|]. split; [exists p; exact Hh|].
    exists (kills (st w1)), (replace_nth i e' (enemies (st w1))), h.
    split; [rewrite Hs; reflexivity|]. split; [|exact Hb].
    intros Hok. rewrite Hsame.
    eapply crowd_ok_replace; [exact Hok | exact Hn | exact Hm | exact Hr].
Qed.

Lemma enemy_loop_effect (delta : R) (playerPos : Vector3) (i : nat) (w : World) :
  ai_effect w (enemy_loop delta playerPos i w).
Proof.
  revert w. induction i as [|i IH]; intros w; cbn [enemy_loop].
  - apply ai_effect_refl.
  - eapply ai_effect_trans; [apply enemy_iter_effect | apply IH].
Qed.

Lemma separate_pair_ok (next i j : nat) (es : list Enemy.t) :
  crowd_ok next es -> crowd_ok next (separate_pair i j es).
Proof.
  intros Hok. unfold separate_pair.
  destruct (nth_error es i) as [a|] eqn:Ha; [|exact Hok].
  destruct (nth_error es j) as [b|] eqn:Hb; [|exact Hok].
  destruct (Rltb 0 _ && Rltb _ _); [|exact Hok].
  assert (Hok1 : crowd_ok next
                   (replace_nth i
                      (Enemy.set_position
                         (Vec.add (Enemy.position a)
                            (Vec.multiplyScalar
                               (Vec.normalize
                                  (Vec.sub (Enemy.position a) (Enemy.position b)))
                               ((Enemy.radius_or_default a +
                                 Enemy.radius_or_default b + 0.05 -
                                 Vec.length
                                   (Vec.sub (Enemy.position a) (Enemy.position b))) *
                                0.5))) a) es))
    by (eapply crowd_ok_replace; [exact Hok | exact Ha | reflexivity | reflexivity]).
  set (es1 := replace_nth i _ es) in *.
  destruct (nth_error es1 j) as [b'|] eqn:Hb'.
  - eapply crowd_ok_replace; [exact Hok1 | exact Hb' | |].
    + assert (Hmap : map Enemy.mesh es1 = map Enemy.mesh es)
        by (apply (map_replace_nth_same Enemy.mesh i _ a es Ha); reflexivity).
      pose proof (map_nth_error Enemy.mesh j es1 Hb') as M1.
      pose proof (map_nth_error Enemy.mesh j es Hb) as M2.
      rewrite Hmap in M1. cbn. congruence.
    + assert (Hmap : map Enemy.radius es1 = map Enemy.radius es)
        by (apply (map_replace_nth_same Enemy.radius i _ a es Ha); reflexivity).
      pose proof (map_nth_error Enemy.radius j es1 Hb') as M1.
      pose proof (map_nth_error Enemy.radius j es Hb) as M2.
      rewrite Hmap in M1. cbn. congruence.
  - apply nth_error_None in Hb'. unfold es1 in Hb'.
    rewrite replace_nth_length in Hb'.
    assert (Hj : nth_error es j <> None) by congruence.
    apply nth_error_Some in Hj. lia.
Qed.

Lemma separation_ok (next : nat) (es : list Enemy.t) :
  crowd_ok next es -> crowd_ok next (separation es).
Proof.
  unfold separation. generalize (length es) at 1 2 as n.
  intros n. generalize (seq 0 n) as outer. intros outer. revert es.
  induction outer as [|i outer IH]; intros es Hok; cbn [fold_left]; [exact Hok|].
  apply IH.
  generalize (seq (S i) (n - S i)) as inner. intros inner. revert es Hok.
  induction inner as [|j inner IHj]; intros es Hok; cbn [fold_left]; [exact Hok|].
  apply IHj, separate_pair_ok, Hok.
Qed.

Lemma updateEnemies_effect (delta : R) (w : World) :
  ai_effect w (updateEnemies delta w).
Proof.
  unfold updateEnemies. destruct (playerObj (gl w)); cbn [negb];
    [|apply ai_effect_refl].
  eapply ai_effect_trans; [|apply enemy_loop_effect].
  unfold ai_effect. cbn [st gl host upd_st].
  split; [reflexivity|].
  split; [exists (pending (host w)); symmetry; apply set_pending_same|].
  exists (kills (st w)), (separation (enemies (st w))), (hp (st w)).
  split; [destruct (st w); reflexivity|].
  split; [apply separation_ok | auto].
Qed.

(** [world_ok] reads ten fields only. *)
Lemma world_ok_same (w w' : World) :
  scene (gl w') = scene (gl w) -> playerObj (gl w') = playerObj (gl w) ->
  waveIntervalHandle (gl w') = waveIntervalHandle (gl w) ->
  hp (st w') = hp (st w) -> ammo (st w') = ammo (st w) ->
  reserveAmmo (st w') = reserveAmmo (st w) ->
  enemies (st w') = enemies (st w) ->
  intervals (host w') = intervals (host w) ->
  nextTimer (host w') = nextTimer (host w) ->
  nextMesh (host w') = nextMesh (host w) ->
  world_ok w -> world_ok w'.
Proof.
  unfold world_ok, ammo_ok, enemies_ok.
  intros -> -> -> -> -> -> -> -> -> ->. auto.
Qed.

Lemma world_ok_ai_effect (w w' : World) :
  ai_effect w w' -> world_ok w -> world_ok w'.
Proof.
  intros [Hg [[p Hh] [k [es [h [Hs [Hc Hb]]]]]]]
         [H1 [H2 [H3 [H4 [H5 H6]]]]].
  unfold world_ok, ammo_ok, enemies_ok in *. rewrite Hg, Hh, Hs. cbn.
  auto 10.
Qed.

Lemma world_ok_updatePlayerMovement (delta : R) (w : World) :
  world_ok w -> world_ok (updatePlayerMovement delta w).
Proof.
  apply world_ok_same; unfold updatePlayerMovement;
    destruct (negb _ && negb _); try reflexivity;
    destruct (Rltb _ _); reflexivity.
Qed.

Lemma world_ok_updateCamera (w : World) :
  world_ok w -> world_ok (updateCamera w).
Proof.
  unfold updateCamera. destruct (playerObj (gl w)) eqn:E; [|tauto].
  apply world_ok_same; reflexivity.
Qed.

Lemma world_ok_animate (time : Q) (w : World) :
  world_ok w -> world_ok (animate time w).
Proof.
  intros H. unfold animate.
  apply world_ok_updateCamera.
  eapply world_ok_ai_effect; [apply updateEnemies_effect|].
  apply world_ok_updatePlayerMovement.
  revert H. apply world_ok_same; reflexivity.
Qed.

Lemma world_ok_reload (w : World) : world_ok w -> world_ok (reload w).
Proof.
  apply world_ok_same; unfold reload;
    destruct (reloading (st w)); try reflexivity;
    destruct (_ || _); reflexivity.
Qed.

Lemma world_ok_reload_done (w : World) : world_ok w -> world_ok (reload_done w).
Proof.
  intros [H1 [H2 [H3 [H4 [H5 H6]]]]].
  pose proof (ammo_ok_reload_done w H4) as H4'.
  unfold world_ok. auto 10.
Qed.

Lemma damage_owner_keys (root : Object3D) (es : list Enemy.t) :
  map Enemy.mesh (damage_owner root es) = map Enemy.mesh es /\
  map Enemy.radius (damage_owner root es) = map Enemy.radius es.
Proof.
  induction es as [|e es [IH1 IH2]]; cbn [damage_owner map]; [auto|].
  destruct (Object3D_eq_dec _ _); cbn [map]; [auto|].
  rewrite IH1, IH2. auto.
Qed.

(** The crowd invariant only reads groups and radii. *)
Lemma crowd_ok_keys (next : nat) (es es' : list Enemy.t) :
  map Enemy.mesh es' = map Enemy.mesh es ->
  map Enemy.radius es' = map Enemy.radius es ->
  crowd_ok next es -> crowd_ok next es'.
Proof.
  intros Hm Hr [Hnd [Hall Hlen]]. unfold crowd_ok.
  assert (Hl : length es' = length es)
    by (rewrite <- (length_map Enemy.mesh es'), Hm; apply length_map).
  rewrite Hm, Hl. split; [exact Hnd|]. split; [|exact Hlen].
  apply Forall_forall. intros e He.
  assert (Hm1 : Forall (fun g => (g < next)%nat) (map Enemy.mesh es)).
  { apply Forall_map. eapply Forall_impl; [|exact Hall]. cbn. tauto. }
  assert (Hr1 : Forall (fun r => r = ENEMY_RADIUS) (map Enemy.radius es)).
  { apply Forall_map. eapply Forall_impl; [|exact Hall]. cbn. tauto. }
  rewrite <- Hm in Hm1. rewrite <- Hr in Hr1.
  rewrite Forall_forall in Hm1, Hr1.
  split; [apply Hm1, in_map, He | apply Hr1, in_map, He].
Qed.

Lemma damage_owner_ok (next : nat) (root : Object3D) (es : list Enemy.t) :
  crowd_ok next es -> crowd_ok next (damage_owner root es).
Proof.
  destruct (damage_owner_keys root es) as [Hm Hr].
  apply crowd_ok_keys; assumption.
Qed.

Lemma world_ok_shoot
      (intersectObjects :
         Vector3 -> Vector3 -> list Object3D -> list Intersection)
      (now : Q) (w : World) :
  world_ok w -> world_ok (shoot intersectObjects now w).
Proof.
  intros Hok.
  destruct (Qlt_le_dec (now - lastShot (st w)) shootCooldown) as [Hlt|Hle].
  { rewrite shoot_rejected_cooldown; assumption. }
  destruct (reloading (st w)) eqn:Hrel.
  { rewrite shoot_rejected_reloading; assumption. }
  destruct (Z_lt_le_dec 0 (ammo (st w))) as [Hpos|Hnon].
  2:{ rewrite shoot_empty by assumption. apply world_ok_reload, Hok. }
  assert (G : shot_allowed now w) by (unfold shot_allowed; auto).
  destruct (shoot_accepted intersectObjects now w G)
    as [Ha [_ [_ [Hr [Hhp [Hhost Hgl]]]]]].
  pose proof (shoot_enemies_accepted intersectObjects now w G) as Hes.
  pose proof (ammo_ok_shoot intersectObjects now w) as Hammo.
  destruct Hok as [H1 [H2 [H3 [H4 [H5 H6]]]]].
  unfold world_ok, enemies_ok. rewrite Hgl, Hhost, Hhp, Hes.
  repeat (split; [now auto|]). split; [|exact H6].
  destruct (shot_hits _ _) as [|hit rest]; [exact H5|].
  destruct (find_root _ _); [apply damage_owner_ok, H5 | exact H5].
Qed.

Lemma world_ok_onKey (code : KeyCode) (pressed : bool) (w : World) :
  world_ok w -> world_ok (onKey code pressed w).
Proof.
  destruct code; cbn [onKey];
    try (apply world_ok_same; reflexivity); try tauto.
  - apply world_ok_same; destruct (pressed && _); reflexivity.
  - destruct pressed; [apply world_ok_reload | tauto].
Qed.

Section ReachableWorlds.
Variable random : nat -> R.
Variable intersectObjects :
  Vector3 -> Vector3 -> list Object3D -> list Intersection.

Lemma world_ok_spawnEnemies (count : Z) (w : World) :
  world_ok w -> world_ok (spawnEnemies random count w).
Proof.
  intros [H1 [H2 [H3 [H4 [H5 H6]]]]].
  pose proof (spawnEnemies_enemies_ok random count w H5) as H5'.
  destruct (spawnEnemies_spec random count w)
    as [l [Hst [_ [Hgl [_ [Hint Htim]]]]]].
  unfold world_ok, ammo_ok in *.
  rewrite Hgl, Hint, Htim, Hst. cbn. auto 10.
Qed.

Lemma world_ok_wave_tick (w : World) : world_ok w -> world_ok (wave_tick random w).
Proof.
  intros H. unfold wave_tick.
  destruct (_ <? _)%Z; [apply world_ok_spawnEnemies, H | exact H].
Qed.

(** Restarting the wave spawner leaves exactly one interval running,
    under a new handle. *)
Lemma startWaveSpawner_one_interval (w : World) :
  (waveIntervalHandle (gl w) = None /\ intervals (host w) = [] /\
   (1 <= nextTimer (host w))%nat) \/
  (exists h, waveIntervalHandle (gl w) = Some (S h) /\
             intervals (host w) = [S h] /\ (S h < nextTimer (host w))%nat) ->
  exists h, waveIntervalHandle (gl (startWaveSpawner w)) = Some (S h) /\
            intervals (host (startWaveSpawner w)) = [S h] /\
            (S h < nextTimer (host (startWaveSpawner w)))%nat.
Proof.
  intros H.
  destruct (startWaveSpawner_spec w) as [_ [Hgl [_ [_ [Htim Hint]]]]].
  rewrite Hgl, Htim, Hint. cbn [waveIntervalHandle set_waveIntervalHandle].
  destruct H as [[Hnone [Hnil Hone]] | [h [Hsome [Hone Hlt]]]].
  - rewrite Hnone, Hnil. destruct (nextTimer (host w)) as [|k]; [lia|].
    exists k. cbn. auto.
  - rewrite Hsome, Hone. cbn [remove].
    destruct (Nat.eq_dec (S h) (S h)) as [_|Hne]; [|contradiction].
    destruct (nextTimer (host w)) as [|k]; [lia|].
    exists k. cbn. auto.
Qed.

Lemma world_ok_startWaveSpawner (w : World) :
  world_ok w -> world_ok (startWaveSpawner w).
Proof.
  intros [H1 [H2 [H3 [H4 [H5 H6]]]]].
  pose proof (startWaveSpawner_one_interval w (or_intror H6)) as H6'.
  destruct (startWaveSpawner_spec w) as [Hst [Hgl [_ [Hnm _]]]].
  unfold world_ok, ammo_ok, enemies_ok in *.
  rewrite Hst, Hnm. rewrite Hgl in *. cbn in *. auto 10.
Qed.

Lemma world_ok_resetGame (w : World) :
  world_ok w -> world_ok (resetGame random w).
Proof.
  intros Hok. unfold resetGame.
  destruct (playerObj (gl w)) eqn:Hp; cbn [negb]; [|exact Hok].
  apply world_ok_startWaveSpawner.
  match goal with
  | |- world_ok (upd_gl ?f (upd_st ?g ?u)) =>
      assert (Hu : world_ok u); [|revert Hu; apply world_ok_same; reflexivity]
  end.
  apply world_ok_spawnEnemies.
  destruct Hok as [H1 [H2 [H3 [H4 [H5 H6]]]]].
  unfold world_ok, ammo_ok, enemies_ok in *. cbn.
  repeat (split; [first [assumption | unfold maxHp; lia]|]).
  split; [apply crowd_ok_nil | exact H6].
Qed.

Lemma decorate_one_frame (w : World) :
  st (decorate_one random w) = st w /\ gl (decorate_one random w) = gl w /\
  pending (host (decorate_one random w)) = pending (host w) /\
  intervals (host (decorate_one random w)) = intervals (host w) /\
  nextTimer (host (decorate_one random w)) = nextTimer (host w) /\
  nextMesh (host (decorate_one random w)) = nextMesh (host w).
Proof.
  unfold decorate_one. cbn [Math_random].
  destruct (Rltb _ 20 && Rltb _ 20); [cbn; auto 10|].
  destruct (Rltb 0.3 _); cbn; auto 10.
Qed.

Lemma decorate_frame (n : nat) (w : World) :
  st (decorate random n w) = st w /\ gl (decorate random n w) = gl w /\
  pending (host (decorate random n w)) = pending (host w) /\
  intervals (host (decorate random n w)) = intervals (host w) /\
  nextTimer (host (decorate random n w)) = nextTimer (host w) /\
  nextMesh (host (decorate random n w)) = nextMesh (host w).
Proof.
  revert w. induction n as [|n IH]; intros w; cbn [decorate]; [auto 10|].
  destruct (IH (decorate_one random w)) as [A [B [C [D [E F]]]]].
  destruct (decorate_one_frame w) as [A' [B' [C' [D' [E' F']]]]].
  rewrite A, B, C, D, E, F. auto 10.
Qed.

(** The world [init] leaves behind satisfies the invariant. *)
Lemma world_ok_init (t0 : Q) : world_ok (init random (boot t0)).
Proof.
  unfold init, populateWorld.
  set (w2 := upd_gl _ (upd_gl _ (boot t0))).
  destruct (decorate_frame 300 w2) as [Dst [Dgl [_ [Dint [Dtim Dnm]]]]].
  set (w3 := decorate random 300 w2) in *. clearbody w3.
  assert (Hen : enemies_ok w3).
  { unfold enemies_ok. rewrite Dst. apply crowd_ok_nil. }
  pose proof (spawnEnemies_enemies_ok random INITIAL_ENEMY_COUNT w3 Hen) as Hen'.
  destruct (spawnEnemies_spec random INITIAL_ENEMY_COUNT w3)
    as [l [Hst [_ [Hgl [_ [Hint Htim]]]]]].
  set (w4 := spawnEnemies random INITIAL_ENEMY_COUNT w3) in *. clearbody w4.
  assert (Hwave : exists h,
             waveIntervalHandle (gl (startWaveSpawner w4)) = Some (S h) /\
             intervals (host (startWaveSpawner w4)) = [S h] /\
             (S h < nextTimer (host (startWaveSpawner w4)))%nat).
  { apply startWaveSpawner_one_interval. left.
    rewrite Hgl, Dgl, Hint, Dint, Htim, Dtim. cbn. auto. }
  destruct (startWaveSpawner_spec w4) as [Sst [Sgl [_ [Snm _]]]].
  unfold world_ok, ammo_ok, enemies_ok in *.
  rewrite Sst, Snm. rewrite Sgl in *. rewrite Hst, Dst, Hgl, Dgl.
  rewrite Hst, Dst in Hen'. cbn in *. unfold maxHp, maxAmmo.
  repeat (split; [first [reflexivity | lia | assumption]|]).
  exact Hwave.
Qed.

Lemma world_ok_step (ev : Event) (w : World) :
  world_ok w -> world_ok (step random intersectObjects ev w).
Proof.
  intros Hok. destruct ev; cbn [step].
  - apply world_ok_animate, Hok.
  - apply world_ok_shoot, Hok.
  - apply world_ok_onKey, Hok.
  - destruct (nth_error _ i) as [t|]; [|exact Hok].
    assert (Hok' : world_ok (upd_host (fun h => set_pending (splice i (pending h)) h) w))
      by (revert Hok; apply world_ok_same; reflexivity).
    destruct (callback t); cbn [run_callback].
    + apply world_ok_reload_done, Hok'.
    + apply world_ok_resetGame, Hok'.
  - destruct (intervals (host w)); [exact Hok | apply world_ok_wave_tick, Hok].
  - apply world_ok_resetGame, Hok.
  - revert Hok. apply world_ok_same; reflexivity.
  - revert Hok. apply world_ok_same; reflexivity.
  - revert Hok. apply world_ok_same; reflexivity.
Qed.

(** Whatever happens after [init], the scene and the player exist, the
    health is between 0 and 100, the magazine between 0 and 30, the
    reserve not negative, the enemies at most 120 with distinct groups and
    the standard radius, and exactly one wave timer runs. *)
Theorem world_ok_run (t0 : Q) (evs : list Event) :
  world_ok (run random intersectObjects evs (init random (boot t0))).
Proof.
  unfold run. generalize (world_ok_init t0).
  generalize (init random (boot t0)) as w. revert evs.
  induction evs as [|ev evs IH]; intros w Hok; cbn [fold_left]; [exact Hok|].
  apply IH, world_ok_step, Hok.
Qed.

End ReachableWorlds.

(** The enemy written back by one turn of the second loop of
    [updateEnemies] is the one [ai_step] returns, and the world is the one
    it returns, unless the enemy is dead and removed. *)
Lemma enemy_iter_step (delta : R) (playerPos : Vector3) (i : nat)
      (e : Enemy.t) (w : World) :
  nth_error (enemies (st w)) i = Some e ->
  (0 < Enemy.hp e)%Z ->
  enemies (st (enemy_iter delta playerPos i w)) =
    replace_nth i (fst (ai_step delta playerPos e w)) (enemies (st w)) /\
  hp (st (enemy_iter delta playerPos i w)) =
    hp (st (snd (ai_step delta playerPos e w))).
Proof.
  intros Hn Hhp. unfold enemy_iter. rewrite Hn.
  destruct (ai_step_effect delta playerPos e w) as [_ [Hsame _]].
  assert (Hkeep : Enemy.hp (fst (ai_step delta playerPos e w)) = Enemy.hp e).
  { unfold ai_step. destruct (Rltb _ _); [reflexivity|].
    destruct (Rltb 0.001 _); destruct (Rleb _ _); reflexivity. }
  destruct (ai_step delta playerPos e w) as [e' w1]. cbn [fst snd] in *.
  destruct (Enemy.hp e' <=? 0)%Z eqn:E; [apply Z.leb_le in E; lia|].
  cbn. rewrite Hsame. auto.
Qed.

(** In every world the game can reach the melee threshold of a live enemy
    is its radius + 0.6 + 0.15: no radius is 0. *)
Lemma reachable_threshold
      (random : nat -> R)
      (intersectObjects :
         Vector3 -> Vector3 -> list Object3D -> list Intersection)
      (t0 : Q) (evs : list Event) (e : Enemy.t) :
  In e (enemies (st (run random intersectObjects evs (init random (boot t0))))) ->
  melee_threshold e = (Enemy.radius e + PLAYER_RADIUS + 0.15)%R.
Proof.
  intros Hin.
  destruct (world_ok_run random intersectObjects t0 evs)
    as [_ [_ [_ [_ [[_ [Hall _]] _]]]]].
  rewrite Forall_forall in Hall. destruct (Hall e Hin) as [_ Hr].
  apply melee_threshold_radius. rewrite Hr. unfold ENEMY_RADIUS. lra.
Qed.

(** ** A reload in flight *)

Section ReloadInFlight.
Variable random : nat -> R.
Variable intersectObjects :
  Vector3 -> Vector3 -> list Object3D -> list Intersection.

Lemma resetGame_ammo (w : World) :
  ammo (st (resetGame random w)) = ammo (st w) /\
  reserveAmmo (st (resetGame random w)) = reserveAmmo (st w) /\
  reloading (st (resetGame random w)) = reloading (st w).
Proof.
  destruct (playerObj (gl w)) eqn:Hp.
  - destruct (resetGame_frame random w Hp) as [l [Hst _]]. rewrite Hst. cbn. auto.
  - rewrite (resetGame_guard random w Hp). auto.
Qed.

Lemma spawnEnemies_ammo (count : Z) (w : World) :
  ammo (st (spawnEnemies random count w)) = ammo (st w) /\
  reserveAmmo (st (spawnEnemies random count w)) = reserveAmmo (st w) /\
  reloading (st (spawnEnemies random count w)) = reloading (st w).
Proof.
  destruct (spawnEnemies_spec random count w) as [l [Hst _]].
  rewrite Hst. cbn. auto.
Qed.

(** While a reload is in flight the magazine and the reserve are frozen:
    the only event that changes them, or clears the flag, is the firing
    of a pending timer whose callback is the completion of the reload.
    The rounds counted at completion are those of the request. *)
Lemma reloading_freezes_ammo (ev : Event) (w : World) :
  reloading (st w) = true ->
  (ammo (st (step random intersectObjects ev w)) = ammo (st w) /\
   reserveAmmo (st (step random intersectObjects ev w)) = reserveAmmo (st w) /\
   reloading (st (step random intersectObjects ev w)) = true) \/
  (exists i t, ev = TimeoutFires i /\ nth_error (pending (host w)) i = Some t /\
               callback t = ReloadDone).
Proof.
  intros Hrel. destruct ev; cbn [step].
  - left. unfold animate.
    set (w0 := upd_gl _ w).
    assert (H0 : ammo (st (updatePlayerMovement (Q2R ((time - prevTime (gl w)) / 1000)) w0))
                 = ammo (st w) /\
                 reserveAmmo (st (updatePlayerMovement (Q2R ((time - prevTime (gl w)) / 1000)) w0))
                 = reserveAmmo (st w) /\
                 reloading (st (updatePlayerMovement (Q2R ((time - prevTime (gl w)) / 1000)) w0))
                 = true).
    { unfold updatePlayerMovement. destruct (negb _ && negb _); [cbn; auto|].
      destruct (Rltb _ _); cbn; auto. }
    destruct H0 as [A [B C]].
    match goal with |- context [updateEnemies ?d ?u] =>
      destruct (updateEnemies_frame d u) as [_ [_ [_ [_ [_ [_ [Ea [Er [El _]]]]]]]]] end.
    unfold updateCamera.
    destruct (playerObj _); cbn [st upd_gl]; rewrite Ea, Er, El; auto.
  - left. rewrite shoot_rejected_reloading by exact Hrel. auto.
  - left. destruct code; cbn [onKey]; auto.
    + destruct (pressed && _); auto.
    + destruct pressed; [|auto]. unfold reload. rewrite Hrel. auto.
  - destruct (nth_error (pending (host w)) i) as [t|] eqn:Hn; [|left; auto].
    destruct (callback t) eqn:Hcb; cbn [run_callback].
    + right. exists i, t. auto.
    + left.
      match goal with |- context [resetGame random ?u] =>
        destruct (resetGame_ammo u) as [A [B C]]; rewrite A, B, C end.
      auto.
  - left. destruct (intervals (host w)); [auto|]. unfold wave_tick.
    destruct (_ <? _)%Z; [|auto].
    destruct (spawnEnemies_ammo WAVE_SIZE w) as [A [B C]]. rewrite A, B, C. auto.
  - left. destruct (resetGame_ammo w) as [A [B C]]. rewrite A, B, C. auto.
  - left. auto.
  - left. auto.
  - left. auto.
Qed.

End ReloadInFlight.

(** ** The cap on live enemies *)

(** C1.  With the scene created and a count that is not negative,
    [spawnEnemies count] called with [n] enemies alive adds exactly
    [min count (120 - n)] enemies, and none when [n >= 120]; whatever the
    arguments, a run of spawn calls started with at most 120 enemies never
    has more than 120; [spawnEnemies 6] with 118 alive creates exactly 2;
    and whatever happens after [init], spawn calls included, there are
    never more than 120 enemies alive. *)
Theorem C1_spawn_cap
        (random : nat -> R)
        (intersectObjects :
           Vector3 -> Vector3 -> list Object3D -> list Intersection) :
  (forall (count : Z) (w : World),
      scene (gl w) = true -> (0 <= count)%Z ->
      let n := Z.of_nat (length (enemies (st w))) in
      (Z.of_nat (length (enemies (st (spawnEnemies random count w)))) - n =
       if (120 <=? n) then 0 else Z.min count (120 - n))%Z) /\
  (forall (counts : list Z) (w : World),
      (Z.of_nat (length (enemies (st w))) <= 120)%Z ->
      (Z.of_nat (length (enemies (st (spawn_calls random counts w)))) <= 120)%Z) /\
  (forall w : World,
      scene (gl w) = true -> length (enemies (st w)) = 118%nat ->
      length (enemies (st (spawnEnemies random 6 w))) = (118 + 2)%nat) /\
  (forall (t0 : Q) (evs : list Event),
      (Z.of_nat (length (enemies (st (run random intersectObjects evs
                                        (init random (boot t0)))))) <= 120)%Z).
Proof.
  split; [|split; [|split]].
  - intros count w Hscene Hc n. subst n.
    rewrite spawnEnemies_length, Hscene. unfold MAX_ENEMIES.
    destruct (120 <=? Z.of_nat (length (enemies (st w))))%Z eqn:E;
      [apply Z.leb_le in E | apply Z.leb_gt in E]; lia.
  - intros counts w Hn. apply (spawn_calls_le_cap random counts w Hn).
  - intros w Hscene Hn.
    rewrite spawnEnemies_length, Hscene, Hn. reflexivity.
  - intros t0 evs.
    destruct (world_ok_run random intersectObjects t0 evs)
      as [_ [_ [_ [_ [[_ [_ Hcap]] _]]]]].
    exact Hcap.
Qed.

Lemma C1_spawn_cap_witness :
  (Z.of_nat (length (enemies (st (spawnEnemies random_half 6
                                    (with_enemies (crowd 118) started))))) -
   Z.of_nat (length (enemies (st (with_enemies (crowd 118) started)))) = 2)%Z /\
  (Z.of_nat (length (enemies (st (spawn_calls random_half [30; 6; 200; -4; 6]%Z
                                    started)))) <= 120)%Z /\
  length (enemies (st (spawnEnemies random_half 6
                         (with_enemies (crowd 118) started)))) = 120%nat.
Proof.
  destruct (C1_spawn_cap random_half raycast_nothing) as [Hexact [Hcap [Hscn _]]].
  split; [|split].
  - apply (Hexact 6%Z (with_enemies (crowd 118) started)); [reflexivity | lia].
  - apply (Hcap [30; 6; 200; -4; 6]%Z started). cbn. lia.
  - apply (Hscn (with_enemies (crowd 118) started)); reflexivity.
Defined.

(** * Further properties *)

(** ** Terrain *)

Lemma getTerrainHeight_bounds (x z : R) :
  (-24 <= getTerrainHeight x z <= 24)%R.
Proof.
  unfold getTerrainHeight.
  pose proof (SIN_bound (x * 0.01)). pose proof (COS_bound (z * 0.01)).
  pose proof (SIN_bound (x * 0.05)). pose proof (COS_bound (z * 0.05)).
  lra.
Qed.

(** X1.  The terrain is bounded and mirrored: its height lies between -24
    and 24 everywhere, and it is the same at [(x, z)] and [(x, -z)]. *)
Theorem X1_terrain_bounded (x z : R) :
  (-24 <= getTerrainHeight x z <= 24)%R /\
  getTerrainHeight x (- z) = getTerrainHeight x z.
Proof.
  split; [apply getTerrainHeight_bounds|].
  unfold getTerrainHeight.
  replace (- z * 0.01)%R with (- (z * 0.01))%R by ring.
  replace (- z * 0.05)%R with (- (z * 0.05))%R by ring.
  rewrite !cos_neg. reflexivity.
Qed.

(** ** Where enemies appear *)

Section SpawnPlaces.
Variable random : nat -> R.
Hypothesis random_unit : unit_random random.

Lemma sign_or_random_unit (a : R) (w : World) :
  fst (sign_or_random random a w) = 1%R \/
  fst (sign_or_random random a w) = (-1)%R.
Proof.
  unfold sign_or_random, Math_sign.
  destruct (Req_dec_T _ 0) as [E|E].
  - cbn. destruct (Rltb _ 0.5); auto.
  - cbn. destruct (Rlt_dec 0 a); [auto|].
    destruct (Rlt_dec a 0); [auto | contradiction].
Qed.

Lemma spawn_position_place (w : World) :
  let p := fst (spawn_position random w) in
  exists x0 z0 : R,
    (Rabs x0 <= 400 /\ Rabs z0 <= 400)%R /\
    y_ p = getTerrainHeight x0 z0 /\
    ((~ (Rabs x0 < 50 /\ Rabs z0 < 50)%R /\ x_ p = x0 /\ z_ p = z0) \/
     ((Rabs x0 < 50 /\ Rabs z0 < 50)%R /\
      (50 <= Rabs (x_ p) <= 250)%R /\ (50 <= Rabs (z_ p) <= 250)%R)).
Proof.
  unfold spawn_position. cbn [Math_random].
  set (r1 := random (rngPos (host w))).
  set (w1 := upd_host _ w).
  set (r2 := random (rngPos (host w1))).
  set (w2 := upd_host _ w1).
  pose proof (random_unit (rngPos (host w))) as H1. fold r1 in H1.
  pose proof (random_unit (rngPos (host w1))) as H2. fold r2 in H2.
  exists ((r1 - 0.5) * 800)%R, ((r2 - 0.5) * 800)%R.
  assert (Bx : (Rabs ((r1 - 0.5) * 800) <= 400)%R) by (apply Rabs_le; lra).
  assert (Bz : (Rabs ((r2 - 0.5) * 800) <= 400)%R) by (apply Rabs_le; lra).
  split; [split; assumption|].
  destruct (Rltb (Rabs ((r1 - 0.5) * 800)) 50) eqn:Ex;
    [destruct (Rltb (Rabs ((r2 - 0.5) * 800)) 50) eqn:Ez|]; cbn [andb].
  - apply Rltb_true in Ex. apply Rltb_true in Ez.
    pose proof (sign_or_random_unit ((r1 - 0.5) * 800) w2) as Sx.
    destruct (sign_or_random random ((r1 - 0.5) * 800) w2) as [sx w3].
    pose proof (sign_or_random_unit ((r2 - 0.5) * 800) w3) as Sz.
    destruct (sign_or_random random ((r2 - 0.5) * 800) w3) as [sz w4].
    cbn [fst] in Sx, Sz. cbn [Math_random fst x_ y_ z_].
    set (r3 := random (rngPos (host w4))).
    set (r4 := random (rngPos (host (upd_host _ w4)))).
    pose proof (random_unit (rngPos (host w4))) as H3. fold r3 in H3.
    assert (H4 : (0 <= r4 < 1)%R) by apply random_unit.
    assert (Ax : (Rabs (sx * (50 + r3 * 200)) = 50 + r3 * 200)%R).
    { destruct Sx as [-> | ->].
      - rewrite Rmult_1_l. apply Rabs_right. lra.
      - replace (-1 * (50 + r3 * 200))%R with (- (50 + r3 * 200))%R by ring.
        rewrite Rabs_Ropp. apply Rabs_right. lra. }
    assert (Az : (Rabs (sz * (50 + r4 * 200)) = 50 + r4 * 200)%R).
    { destruct Sz as [-> | ->].
      - rewrite Rmult_1_l. apply Rabs_right. lra.
      - replace (-1 * (50 + r4 * 200))%R with (- (50 + r4 * 200))%R by ring.
        rewrite Rabs_Ropp. apply Rabs_right. lra. }
    split; [reflexivity|]. right. rewrite Ax, Az.
    split; [split; assumption|]. split; lra.
  - apply Rltb_false in Ez. cbn [fst x_ y_ z_].
    split; [reflexivity|]. left.
    split; [intros [_ Hz]; lra | split; reflexivity].
  - apply Rltb_false in Ex. cbn [fst x_ y_ z_].
    split; [reflexivity|]. left.
    split; [intros [Hx _]; lra | split; reflexivity].
Qed.

End SpawnPlaces.

Lemma well_spawned_place (e : Enemy.t) : well_spawned e -> spawn_place_ok e.
Proof.
  intros [[x0 [z0 [[Bx Bz] [Hy Hcase]]]] _]. unfold spawn_place_ok.
  assert (Hh : (Rabs (y_ (Enemy.position e)) <= 24)%R).
  { rewrite Hy. pose proof (getTerrainHeight_bounds x0 z0).
    apply Rabs_le. lra. }
  destruct Hcase as [[Hout [-> ->]] | [_ [Hx Hz]]].
  - split; [exact Hout|]. split; [exact Bx|]. split; [exact Bz | exact Hh].
  - split; [intros [Hlt _]; lra|]. split; [lra|]. split; [lra | exact Hh].
Qed.

Section SpawnedEnemies.
Variable random : nat -> R.
Hypothesis random_unit : unit_random random.

Lemma spawn_one_well (w : World) :
  exists e,
    enemies (st (spawn_one random w)) = enemies (st w) ++ [e] /\
    Enemy.position e = fst (spawn_position random w) /\
    well_spawned e.
Proof.
  unfold spawn_one.
  destruct (spawn_position_frame random w) as [Hs _].
  pose proof (spawn_position_place random random_unit w) as Hp.
  destruct (spawn_position random w) as [p w1]. cbn [fst snd] in *.
  cbn [Math_random].
  eexists. split; [cbn; rewrite Hs; reflexivity|].
  split; [reflexivity|].
  unfold well_spawned.
  cbn [Enemy.position Enemy.speed Enemy.attackRate Enemy.hp
       Enemy.attackCooldown Enemy.radius].
  pose proof (random_unit (rngPos (host (upd_host (set_nextMesh
                 (S (nextMesh (host w1)))) w1)))) as H5.
  pose proof (random_unit (S (rngPos (host (upd_host (set_nextMesh
                 (S (nextMesh (host w1)))) w1))))) as H6.
  cbn [host upd_host rngPos set_nextMesh set_rngPos] in *.
  unfold ENEMY_BASE_SPEED, ENEMY_RANDOM_SPEED in *.
  split; [exact Hp|]. split; [lra|]. split; [lra|]. auto.
Qed.

Lemma spawn_loop_well (n : nat) (w : World) :
  exists l,
    enemies (st (spawn_loop random n w)) = enemies (st w) ++ l /\
    length l = n /\ Forall well_spawned l.
Proof.
  revert w. induction n as [|n IH]; intros w; cbn [spawn_loop].
  - exists []. rewrite app_nil_r. auto.
  - destruct (spawn_one_well w) as [e [He [_ Hw]]].
    destruct (IH (spawn_one random w)) as [l [Hl [Hn Hall]]].
    exists (e :: l). rewrite Hl, He, <- app_assoc. cbn. auto.
Qed.

(** X2.  With [Math.random()] in [0, 1), [spawnEnemies] keeps the enemies
    that are there, in their order, and appends new ones only.  Every new
    enemy stands outside the square of half-width 50 around the origin
    and inside the square of half-width 400, has a speed between 6 and 9
    and an attack interval between 1 and 1.8, full health, no cooldown and
    the radius 0.8.  Its height is the height of the terrain at the point
    first drawn: the height is read before a point drawn inside the centre
    square is moved out to between 50 and 250 on both axes, so an enemy
    moved out keeps the height of the place it was moved from and does
    not, in general, stand on the terrain. *)
Theorem X2_spawned_enemies (count : Z) (w : World) :
  exists l,
    enemies (st (spawnEnemies random count w)) = enemies (st w) ++ l /\
    Forall well_spawned l /\ Forall spawn_place_ok l.
Proof.
  assert (H : exists l,
             enemies (st (spawnEnemies random count w)) = enemies (st w) ++ l /\
             Forall well_spawned l).
  { unfold spawnEnemies. destruct (scene (gl w)); cbn [negb].
    - destruct (spawn_loop_well
                  (Z.to_nat (Z.min count
                     (Z.max 0 (MAX_ENEMIES - Z.of_nat (length (enemies (st w)))))))
                  w) as [l [Hl [_ Hall]]].
      exists l. auto.
    - exists []. rewrite app_nil_r. auto. }
  destruct H as [l [Hl Hall]]. exists l.
  split; [exact Hl|]. split; [exact Hall|].
  revert Hall. apply Forall_impl. exact well_spawned_place.
Qed.

End SpawnedEnemies.

Lemma random_half_unit : unit_random random_half.
Proof. intros k. unfold random_half. lra. Qed.

Lemma sin_cos_above_1 (t : R) :
  (0 < t < PI / 2)%R -> (1 < sin t + cos t)%R.
Proof.
  intros [H0 H1]. pose proof PI_RGT_0 as Hpi.
  assert (Hs : (0 < sin t)%R) by (apply sin_gt_0; lra).
  assert (Hc : (0 < cos t)%R) by (apply cos_gt_0; lra).
  pose proof (sin2_cos2 t) as H. unfold Rsqr in H. nra.
Qed.

Lemma PI_below_13_4 : (PI < 13 / 4)%R.
Proof.
  pose proof (PI_2_3_7_ineq 0) as [_ H].
  unfold sum_f_R0, tg_alt, PI_2_3_7_tg, Ratan_seq in H. cbn in H. lra.
Qed.

(** The terrain at (150, 150) is higher than at the origin. *)
Lemma getTerrainHeight_150 : (12 < getTerrainHeight 150 150)%R.
Proof.
  unfold getTerrainHeight.
  pose proof PI2_3_2 as Hlow. pose proof PI_below_13_4 as Hup.
  assert (H1 : (1 < sin (150 * 0.01) + cos (150 * 0.01))%R)
    by (apply sin_cos_above_1; lra).
  assert (H2 : (1 < sin (150 * 0.05 - 2 * PI) + cos (150 * 0.05 - 2 * PI))%R)
    by (apply sin_cos_above_1; lra).
  assert (Es : sin (150 * 0.05) = sin (150 * 0.05 - 2 * PI)).
  { rewrite <- (sin_period (150 * 0.05 - 2 * PI) 1). f_equal. cbn. lra. }
  assert (Ec : cos (150 * 0.05) = cos (150 * 0.05 - 2 * PI)).
  { rewrite <- (cos_period (150 * 0.05 - 2 * PI) 1). f_equal. cbn. lra. }
  rewrite Es, Ec. lra.
Qed.

(** With every draw of [Math.random()] equal to 0.5 the point first drawn
    is the origin, where the terrain is 12 high, and the enemy is moved
    out to (150, 150). *)
Lemma spawn_position_half (w : World) :
  fst (spawn_position random_half w) = vec3 150 12 150.
Proof.
  unfold spawn_position, sign_or_random, Math_random, random_half.
  replace ((0.5 - 0.5) * 800)%R with 0%R by lra.
  rewrite Rabs_R0.
  assert (E50 : Rltb 0 50 = true) by (apply Rltb_true; lra).
  assert (Ehalf : Rltb 0.5 0.5 = false) by (apply Rltb_false; lra).
  assert (Es : Math_sign 0 = 0%R).
  { unfold Math_sign. destruct (Rlt_dec 0 0); [lra | reflexivity]. }
  rewrite E50, Es. cbn [andb].
  destruct (Req_dec_T 0 0) as [_|N]; [|contradiction].
  rewrite Ehalf. cbn [fst].
  rewrite <- getTerrainHeight_origin.
  apply vec3_eq; cbn [x_ y_ z_]; lra.
Qed.

Lemma X2_spawned_enemies_witness :
  (exists l,
      enemies (st (spawnEnemies random_half 6 three_enemies)) =
        enemies (st three_enemies) ++ l /\
      Forall well_spawned l /\ Forall spawn_place_ok l) /\
  (exists e,
      enemies (st (spawnEnemies random_half 1 started)) = [e] /\
      Enemy.position e = vec3 150 12 150 /\ off_terrain e).
Proof.
  split.
  - exact (X2_spawned_enemies random_half random_half_unit 6 three_enemies).
  - destruct (spawn_one_well random_half random_half_unit started)
      as [e [He [Hp _]]].
    exists e. rewrite spawn_position_half in Hp.
    split; [exact He|]. split; [exact Hp|].
    unfold off_terrain. rewrite Hp. cbn [x_ y_ z_].
    pose proof getTerrainHeight_150. lra.
Defined.

(** ** The death sweep *)

Lemma replace_nth_middle {A : Type} (l1 l2 : list A) (a v : A) :
  replace_nth (length l1) v (l1 ++ a :: l2) = l1 ++ v :: l2.
Proof. induction l1 as [|b l1 IH]; cbn; [reflexivity | rewrite IH; reflexivity]. Qed.

Lemma splice_middle {A : Type} (l1 l2 : list A) (a : A) :
  splice (length l1) (l1 ++ a :: l2) = l1 ++ l2.
Proof.
  induction l1 as [|b l1 IH]; [reflexivity|].
  cbn [length app]. rewrite splice_cons, IH. reflexivity.
Qed.

Lemma nth_error_middle {A : Type} (l1 l2 : list A) (a : A) :
  nth_error (l1 ++ a :: l2) (length l1) = Some a.
Proof. induction l1 as [|b l1 IH]; cbn; auto. Qed.

Section KeysOfEnemies.
Context {B : Type}.
Variable g : Enemy.t -> B.
Hypothesis g_position : forall p e, g (Enemy.set_position p e) = g e.
Hypothesis g_cooldown : forall c e, g (Enemy.set_attackCooldown c e) = g e.

Lemma separate_pair_map (i j : nat) (es : list Enemy.t) :
  map g (separate_pair i j es) = map g es.
Proof.
  unfold separate_pair.
  destruct (nth_error es i) as [a|] eqn:Ha; [|reflexivity].
  destruct (nth_error es j) as [b|] eqn:Hb; [|reflexivity].
  destruct (Rltb 0 _ && Rltb _ _); [|reflexivity].
  match goal with |- map g (replace_nth j ?b' (replace_nth i ?a' es)) = _ =>
    set (a1 := a'); set (b1 := b') end.
  assert (H1 : map g (replace_nth i a1 es) = map g es)
    by (apply (map_replace_nth_same g i a1 a es Ha); apply g_position).
  destruct (nth_error (replace_nth i a1 es) j) as [b2|] eqn:Hb2.
  - rewrite (map_replace_nth_same g j b1 b2 _ Hb2); [exact H1|].
    pose proof (map_nth_error g j _ Hb2) as M1.
    pose proof (map_nth_error g j es Hb) as M2.
    rewrite H1 in M1. unfold b1. rewrite g_position. congruence.
  - apply nth_error_None in Hb2. rewrite replace_nth_length in Hb2.
    assert (Hj : nth_error es j <> None) by congruence.
    apply nth_error_Some in Hj. lia.
Qed.

Lemma separation_map (es : list Enemy.t) : map g (separation es) = map g es.
Proof.
  unfold separation. generalize (length es) at 1 2 as n.
  intros n. generalize (seq 0 n) as outer. intros outer. revert es.
  induction outer as [|i outer IH]; intros es; cbn [fold_left]; [reflexivity|].
  rewrite IH.
  generalize (seq (S i) (n - S i)) as inner. intros inner. revert es.
  induction inner as [|j inner IHj]; intros es; cbn [fold_left]; [reflexivity|].
  rewrite IHj. apply separate_pair_map.
Qed.

Lemma ai_step_key (delta : R) (playerPos : Vector3) (e : Enemy.t) (w : World) :
  g (fst (ai_step delta playerPos e w)) = g e.
Proof.
  unfold ai_step.
  destruct (Rltb _ _); [cbn [fst]; rewrite g_position; apply g_cooldown|].
  destruct (Rltb 0.001 _); destruct (Rleb _ _); cbn [fst];
    rewrite ?g_cooldown, ?g_position, ?g_cooldown; reflexivity.
Qed.

End KeysOfEnemies.

Lemma filter_alive_keys (l l' : list Enemy.t) :
  map enemy_key l = map enemy_key l' ->
  map enemy_key (filter alive l) = map enemy_key (filter alive l') /\
  length (filter (fun e => negb (alive e)) l) =
  length (filter (fun e => negb (alive e)) l').
Proof.
  revert l'. induction l as [|a l IH]; intros [|b l'] H; cbn in H;
    try discriminate; [auto|].
  injection H as Hm Hh Hrest. destruct (IH l' Hrest) as [IH1 IH2].
  assert (Ha : alive a = alive b) by (unfold alive; congruence).
  assert (Hk : enemy_key a = enemy_key b) by (unfold enemy_key; congruence).
  cbn [filter]. rewrite Ha. destruct (alive b); cbn; split; congruence.
Qed.

(** One turn of the second loop on the enemy at the end of [l1]. *)
Lemma enemy_iter_sweep (delta : R) (playerPos : Vector3)
      (l1 l2 : list Enemy.t) (e : Enemy.t) (w : World) :
  enemies (st w) = l1 ++ e :: l2 ->
  exists e',
    enemy_key e' = enemy_key e /\
    enemies (st (enemy_iter delta playerPos (length l1) w)) =
      (if alive e then l1 ++ e' :: l2 else l1 ++ l2) /\
    kills (st (enemy_iter delta playerPos (length l1) w)) =
      (kills (st (snd (ai_step delta playerPos e w))) +
       if alive e then 0 else 1)%Z.
Proof.
  intros Hes. unfold enemy_iter. rewrite Hes, nth_error_middle.
  pose proof (ai_step_key enemy_key (fun _ _ => eq_refl) (fun _ _ => eq_refl)
                delta playerPos e w) as Hk.
  destruct (ai_step_effect delta playerPos e w) as [_ [Hsame _]].
  destruct (ai_step delta playerPos e w) as [e' w1]. cbn [fst snd] in *.
  exists e'. split; [exact Hk|].
  assert (Hhp : Enemy.hp e' = Enemy.hp e)
    by (unfold enemy_key in Hk; congruence).
  unfold alive. rewrite Hhp.
  destruct (Z.leb_spec (Enemy.hp e) 0) as [Hd|Ha].
  - destruct (Z.ltb_spec 0 (Enemy.hp e)) as [Hx|_]; [lia|].
    cbn. rewrite Hsame, Hes, splice_middle. auto.
  - destruct (Z.ltb_spec 0 (Enemy.hp e)) as [_|Hx]; [|lia].
    cbn. rewrite Hsame, Hes, replace_nth_middle. split; [reflexivity | lia].
Qed.

Lemma ai_step_kills (delta : R) (playerPos : Vector3) (e : Enemy.t) (w : World) :
  kills (st (snd (ai_step delta playerPos e w))) = kills (st w).
Proof.
  unfold ai_step. destruct (Rltb _ _); [reflexivity|].
  destruct (Rleb _ _); [|reflexivity].
  cbn [snd]. unfold applyDamageToPlayer. destruct (_ <=? 0)%Z; reflexivity.
Qed.

(** The second loop of [updateEnemies] run over the first [length l1]
    enemies: the dead among them are gone, the others and the rest of the
    array keep their place, group and health, and the kill counter has
    grown by the number of the dead. *)
Lemma enemy_loop_sweep (delta : R) (playerPos : Vector3) (l1 : list Enemy.t) :
  forall (l2 : list Enemy.t) (w : World),
    enemies (st w) = l1 ++ l2 ->
    map enemy_key (enemies (st (enemy_loop delta playerPos (length l1) w))) =
      map enemy_key (filter alive l1) ++ map enemy_key l2 /\
    kills (st (enemy_loop delta playerPos (length l1) w)) =
      (kills (st w) +
       Z.of_nat (length (filter (fun e => negb (alive e)) l1)))%Z.
Proof.
  induction l1 as [|e l IH] using rev_ind; intros l2 w Hes.
  - cbn. rewrite Hes. split; [reflexivity | lia].
  - rewrite length_app. cbn [length]. rewrite Nat.add_1_r. cbn [enemy_loop].
    rewrite <- app_assoc in Hes. cbn [app] in Hes.
    destruct (enemy_iter_sweep delta playerPos l l2 e w Hes)
      as [e' [Hk [Hen Hkl]]].
    rewrite ai_step_kills in Hkl.
    rewrite !filter_app, !length_app, map_app. cbn [filter].
    destruct (alive e) eqn:Ha; cbn [negb].
    + destruct (IH (e' :: l2) _ Hen) as [H1 H2].
      rewrite H1, H2, Hkl. cbn. rewrite Hk, <- app_assoc. cbn.
      split; [reflexivity | lia].
    + destruct (IH l2 _ Hen) as [H1 H2].
      rewrite H1, H2, Hkl. cbn. rewrite app_nil_r.
      split; [reflexivity | lia].
Qed.

(** X3.  The enemy update removes exactly the enemies whose health is 0 or
    less: those with health left stay, in their order, with their group
    and their health, and the kill counter grows by exactly the number of
    enemies removed. *)
Theorem X3_death_sweep (delta : R) (w : World) :
  playerObj (gl w) = true ->
  map enemy_key (enemies (st (updateEnemies delta w))) =
    map enemy_key (filter alive (enemies (st w))) /\
  kills (st (updateEnemies delta w)) =
    (kills (st w) +
     Z.of_nat (length (filter (fun e => negb (alive e)) (enemies (st w)))))%Z /\
  (Z.of_nat (length (enemies (st (updateEnemies delta w)))) +
   (kills (st (updateEnemies delta w)) - kills (st w)) =
   Z.of_nat (length (enemies (st w))))%Z.
Proof.
  intros Hp. unfold updateEnemies. rewrite Hp. cbn [negb].
  set (w1 := upd_st _ w).
  assert (Hes : enemies (st w1) = separation (enemies (st w)) ++ [])
    by (rewrite app_nil_r; reflexivity).
  destruct (enemy_loop_sweep delta (playerPos (gl w)) _ _ w1 Hes) as [H1 H2].
  assert (Hsep : map enemy_key (separation (enemies (st w))) =
                 map enemy_key (enemies (st w)))
    by (apply separation_map; reflexivity).
  destruct (filter_alive_keys _ _ Hsep) as [F1 F2].
  change (length (enemies (st w1))) with (length (separation (enemies (st w)))).
  rewrite H1, H2, F1, F2. cbn [map]. rewrite app_nil_r.
  change (kills (st w1)) with (kills (st w)).
  split; [reflexivity|]. split; [reflexivity|].
  assert (L : length (enemies (st (enemy_loop delta (playerPos (gl w))
                                     (length (separation (enemies (st w)))) w1))) =
              length (filter alive (enemies (st w)))).
  { rewrite <- (length_map enemy_key), H1, F1. cbn [map].
    rewrite app_nil_r. apply length_map. }
  rewrite L.
  pose proof (filter_length alive (enemies (st w))) as FL. lia.
Qed.

Lemma X3_death_sweep_witness :
  map enemy_key (enemies (st (updateEnemies 0.016 one_dead))) =
    [(0%nat, 100%Z); (2%nat, 100%Z)] /\
  kills (st (updateEnemies 0.016 one_dead)) = 1%Z.
Proof.
  destruct (X3_death_sweep 0.016 one_dead eq_refl) as [H1 [H2 _]].
  split; [exact H1 | exact H2].
Defined.

(** ** Damage to the player *)

Lemma applyDamageToPlayer_rest (amount : Z) (w : World) :
  gl (applyDamageToPlayer amount w) = gl w /\
  enemies (st (applyDamageToPlayer amount w)) = enemies (st w) /\
  kills (st (applyDamageToPlayer amount w)) = kills (st w) /\
  ammo (st (applyDamageToPlayer amount w)) = ammo (st w).
Proof.
  unfold applyDamageToPlayer. destruct (_ <=? 0)%Z; cbn; auto.
Qed.

(** X4.  Damage adds up: two hits of [a] and then [b >= 0] leave the
    health that one hit of [a + b] leaves, and as long as the health stays
    above 0 no reset is scheduled (health 100, two attacks of 10: health
    80, nothing pending). *)
Theorem X4_damage_adds_up (a b : Z) (w : World) :
  (0 <= b)%Z ->
  hp (st (applyDamageToPlayer b (applyDamageToPlayer a w))) =
    hp (st (applyDamageToPlayer (a + b) w)) /\
  ((0 <= a)%Z -> (a + b < hp (st w))%Z ->
   hp (st (applyDamageToPlayer b (applyDamageToPlayer a w))) =
     (hp (st w) - a - b)%Z /\
   pending (host (applyDamageToPlayer b (applyDamageToPlayer a w))) =
     pending (host w)).
Proof.
  intros Hb. rewrite !applyDamageToPlayer_hp. split; [lia|].
  intros Ha Hlt. split; [lia|].
  rewrite !applyDamageToPlayer_pending, applyDamageToPlayer_hp.
  destruct (Z.leb_spec (Z.max 0 (Z.max 0 (hp (st w) - a) - b)) 0) as [H|H]; [lia|].
  destruct (Z.leb_spec (Z.max 0 (hp (st w) - a)) 0) as [H'|H']; [lia | reflexivity].
Qed.

Lemma X4_damage_adds_up_witness :
  hp (st (applyDamageToPlayer 10 (applyDamageToPlayer 10 started))) = 80%Z /\
  pending (host (applyDamageToPlayer 10 (applyDamageToPlayer 10 started))) = [].
Proof.
  destruct (X4_damage_adds_up 10 10 started) as [_ H]; [lia|].
  apply H; cbn; lia.
Defined.

(** X5.  Every hit that leaves the health at 0 schedules a reset of its
    own: a lethal hit followed by another hit before the reset has run
    leaves two resets pending, 2000 ms each. *)
Theorem X5_lethal_hits_stack (a b : Z) (w : World) :
  (hp (st w) <= a)%Z -> (0 <= b)%Z ->
  hp (st (applyDamageToPlayer b (applyDamageToPlayer a w))) = 0%Z /\
  pending (host (applyDamageToPlayer b (applyDamageToPlayer a w))) =
    pending (host w) ++
    [{| delay := 2000; callback := Respawn |};
     {| delay := 2000; callback := Respawn |}].
Proof.
  intros Ha Hb.
  rewrite !applyDamageToPlayer_pending, !applyDamageToPlayer_hp.
  split; [lia|].
  destruct (Z.leb_spec (Z.max 0 (Z.max 0 (hp (st w) - a) - b)) 0) as [_|H]; [|lia].
  destruct (Z.leb_spec (Z.max 0 (hp (st w) - a)) 0) as [_|H']; [|lia].
  rewrite <- app_assoc. reflexivity.
Qed.

Lemma X5_lethal_hits_stack_witness :
  pending (host (applyDamageToPlayer 10
                   (applyDamageToPlayer 10 (upd_st (set_hp 10) started)))) =
    [{| delay := 2000; callback := Respawn |};
     {| delay := 2000; callback := Respawn |}].
Proof.
  destruct (X5_lethal_hits_stack 10 10 (upd_st (set_hp 10) started)) as [_ H];
    [cbn; lia | lia | exact H].
Defined.

(** ** Attacks and pursuit *)

(** While the cooldown has not run out the enemy does not attack, near or
    far. *)
Lemma ai_step_cooling (delta : R) (playerPos : Vector3) (e : Enemy.t) (w : World) :
  (0 < Enemy.attackCooldown e - delta)%R ->
  snd (ai_step delta playerPos e w) = w /\
  Enemy.attackCooldown (fst (ai_step delta playerPos e w)) =
    (Enemy.attackCooldown e - delta)%R.
Proof.
  intros Hcd. unfold ai_step.
  assert (Hmax : Rmax 0 (Enemy.attackCooldown e - delta) =
                 (Enemy.attackCooldown e - delta)%R) by (apply Rmax_right; lra).
  destruct (Rltb _ _); [cbn; auto|].
  assert (E : forall e2 : Enemy.t,
             Enemy.attackCooldown e2 = (Enemy.attackCooldown e - delta)%R ->
             Rleb (Enemy.attackCooldown e2) 0 = false)
    by (intros e2 ->; apply Rleb_false; lra).
  destruct (Rltb 0.001 _); rewrite E by (cbn; exact Hmax); cbn; auto.
Qed.

Lemma elapsed_nonneg (frames : list EnemyFrame) :
  Forall (fun f => (0 <= frame_delta f)%R) frames -> (0 <= elapsed frames)%R.
Proof.
  induction 1 as [|f frames Hf _ IH]; cbn [elapsed fold_right]; [lra|].
  fold (elapsed frames). lra.
Qed.

(** While the cooldown an enemy carries is longer than the time a run of
    frames takes, no step of the run touches the world. *)
Lemma ai_steps_cooling (frames : list EnemyFrame) :
  forall (e : Enemy.t) (w : World),
    Forall (fun f => (0 <= frame_delta f)%R) frames ->
    (elapsed frames < Enemy.attackCooldown e)%R ->
    snd (ai_steps frames e w) = w /\
    Enemy.attackCooldown (fst (ai_steps frames e w)) =
      (Enemy.attackCooldown e - elapsed frames)%R.
Proof.
  induction frames as [|f frames IH]; intros e w Hall Hlt.
  - cbn in *. split; [reflexivity | lra].
  - cbn [ai_steps elapsed fold_right] in *. fold (elapsed frames) in *.
    cbv zeta.
    inversion Hall as [|? ? Hf Hrest]; subst.
    pose proof (elapsed_nonneg frames Hrest) as Hn.
    set (e0 := Enemy.set_position (enemy_at f) e).
    assert (Hc0 : Enemy.attackCooldown e0 = Enemy.attackCooldown e)
      by reflexivity.
    destruct (ai_step_cooling (frame_delta f) (player_at f) e0 w)
      as [Hw Hc]; [rewrite Hc0; lra|].
    destruct (IH (fst (ai_step (frame_delta f) (player_at f) e0 w))
                 (snd (ai_step (frame_delta f) (player_at f) e0 w)) Hrest)
      as [Hw' Hc'].
    { rewrite Hc, Hc0. lra. }
    rewrite Hw', Hc', Hw, Hc, Hc0. split; [reflexivity | lra].
Qed.

(** X6.  An enemy attacks at most once per attack interval.  After a step
    in which it hits the player (for 10), no step of the frames that
    follow does any damage or changes anything in the world, wherever the
    player stands and wherever the separation pass has pushed the enemy
    in them, as long as the time those frames take stays below the
    enemy's attack interval; its cooldown is then the interval less that
    time.  The statement asks for a run of at most a million frames that
    takes at most 0.999999 of the interval: over the reals a time below
    the interval is enough, but the doubles round each subtraction
    [cooldown - delta], and a run that comes within a rounding error of
    the interval can end it a frame early. *)
Theorem X6_one_attack_per_interval
        (delta1 : R) (playerPos : Vector3) (frames : list EnemyFrame)
        (e : Enemy.t) (w : World) :
  (Vec.distance playerPos (Enemy.position e) <= melee_threshold e)%R ->
  (Enemy.attackCooldown e - delta1 <= 0)%R ->
  (0 < Enemy.attackRate e)%R ->
  Forall (fun f => (0 <= frame_delta f)%R) frames ->
  (Z.of_nat (length frames) <= 1000000)%Z ->
  (elapsed frames <= 0.999999 * Enemy.attackRate e)%R ->
  let e1 := fst (ai_step delta1 playerPos e w) in
  let w1 := snd (ai_step delta1 playerPos e w) in
  hp (st w1) = Z.max 0 (hp (st w) - 10) /\
  snd (ai_steps frames e1 w1) = w1 /\
  Enemy.attackCooldown (fst (ai_steps frames e1 w1)) =
    (Enemy.attackRate e - elapsed frames)%R.
Proof.
  intros Hnear Hcd Hrate Hall _ Hel e1 w1.
  assert (H1 : w1 = applyDamageToPlayer PLAYER_ATTACK_DAMAGE w /\
               Enemy.attackCooldown e1 = Enemy.attackRate e).
  { subst e1 w1. rewrite (ai_step_near delta1 playerPos e w Hnear). cbv zeta.
    assert (E : Rleb (Rmax 0 (Enemy.attackCooldown e - delta1)) 0 = true)
      by (apply Rleb_true; rewrite Rmax_left; lra).
    destruct (Rltb 0.001 _); cbn [Enemy.attackCooldown Enemy.set_position
      Enemy.set_attackCooldown]; rewrite E; cbn; auto. }
  destruct H1 as [Hw Hc].
  split; [rewrite Hw; apply applyDamageToPlayer_hp|].
  rewrite <- Hc. apply ai_steps_cooling; [exact Hall|]. rewrite Hc. lra.
Qed.

Lemma X6_one_attack_per_interval_witness :
  hp (st (snd (ai_step 0.016 Vec.zero close_enemy started))) = 90%Z /\
  snd (ai_steps
         [ {| frame_delta := 0.5; player_at := Vec.zero;
              enemy_at := vec3 1.55 0 0 |};
           {| frame_delta := 0.4; player_at := vec3 3 0 0;
              enemy_at := vec3 2 0 0 |} ]%R
         (fst (ai_step 0.016 Vec.zero close_enemy started))
         (snd (ai_step 0.016 Vec.zero close_enemy started))) =
  snd (ai_step 0.016 Vec.zero close_enemy started).
Proof.
  destruct (X6_one_attack_per_interval 0.016 Vec.zero
              [ {| frame_delta := 0.5; player_at := Vec.zero;
                   enemy_at := vec3 1.55 0 0 |};
                {| frame_delta := 0.4; player_at := vec3 3 0 0;
                   enemy_at := vec3 2 0 0 |} ]%R
              close_enemy started) as [H1 [H2 _]].
  - unfold close_enemy. rewrite sample_enemy_threshold.
    cbn [Enemy.position sample_enemy]. rewrite distance_on_x_axis; lra.
  - cbn. lra.
  - cbn. lra.
  - repeat constructor; cbn; lra.
  - cbn. lia.
  - cbn. lra.
  - split; [exact H1 | exact H2].
Defined.

(** X7.  An enemy outside its melee threshold walks straight at the
    player and does not attack: its new place is its old one moved along
    the line to the player by the fraction [speed * delta / dist] of the
    way, a step of length [|speed * delta|], and the world is as before.
    After the step its distance to the player is
    [|dist - speed * delta|]: it comes [speed * delta] nearer as long as
    that is no more than the distance, and a step longer than the
    distance carries it past the player. *)
Theorem X7_pursuit_closes_in
        (delta : R) (playerPos : Vector3) (e : Enemy.t) (w : World) :
  Enemy.radius e = ENEMY_RADIUS ->
  (melee_threshold e < Vec.distance playerPos (Enemy.position e))%R ->
  let dist := Vec.distance playerPos (Enemy.position e) in
  let e' := fst (ai_step delta playerPos e w) in
  snd (ai_step delta playerPos e w) = w /\
  Enemy.position e' =
    Vec.addScaledVector (Enemy.position e)
      (Vec.sub playerPos (Enemy.position e)) (Enemy.speed e * delta / dist) /\
  Vec.distance (Enemy.position e') (Enemy.position e) =
    Rabs (Enemy.speed e * delta) /\
  Vec.distance playerPos (Enemy.position e') =
    Rabs (dist - Enemy.speed e * delta) /\
  ((0 <= Enemy.speed e * delta <= dist)%R ->
   Vec.distance playerPos (Enemy.position e') =
     (dist - Enemy.speed e * delta)%R) /\
  ((dist < Enemy.speed e * delta)%R ->
   Vec.distance playerPos (Enemy.position e') =
     (Enemy.speed e * delta - dist)%R).
Proof.
  intros Hr Hfar dist e'.
  assert (Hm : melee_threshold e = 1.55%R).
  { rewrite melee_threshold_radius; rewrite Hr; unfold ENEMY_RADIUS, PLAYER_RADIUS; lra. }
  assert (Hpos : (0 < dist)%R) by (unfold dist; lra).
  assert (Hp : Enemy.position e' =
               Vec.addScaledVector (Enemy.position e)
                 (Vec.sub playerPos (Enemy.position e))
                 (Enemy.speed e * delta / dist)).
  { subst e'. rewrite (ai_step_far delta playerPos e w Hfar). cbn [fst].
    cbn [Enemy.position Enemy.set_position Enemy.set_attackCooldown].
    apply (pursuit_on_line playerPos e (Enemy.speed e * delta) Hpos). }
  assert (Hs : Vec.distance (Enemy.position e') (Enemy.position e) =
               Rabs (Enemy.speed e * delta)).
  { subst e'. rewrite (ai_step_far delta playerPos e w Hfar). cbn [fst].
    cbn [Enemy.position Enemy.set_position Enemy.set_attackCooldown].
    apply (pursuit_distance playerPos e (Enemy.speed e * delta) Hpos). }
  assert (Hd : Vec.distance playerPos (Enemy.position e') =
               Rabs (dist - Enemy.speed e * delta)).
  { rewrite Hp. unfold Vec.distance.
    replace (Vec.sub playerPos _)
      with (Vec.multiplyScalar (Vec.sub playerPos (Enemy.position e))
              (1 - Enemy.speed e * delta / dist))
      by (apply vec3_eq; cbn; ring).
    rewrite length_multiplyScalar.
    change (Vec.length (Vec.sub playerPos (Enemy.position e))) with dist.
    rewrite <- (Rabs_right dist) at 2 by lra.
    rewrite <- Rabs_mult. f_equal. field. lra. }
  split; [rewrite (ai_step_far delta playerPos e w Hfar); reflexivity|].
  split; [exact Hp|]. split; [exact Hs|].
  split; [exact Hd|]. split; intros H; rewrite Hd.
  - apply Rabs_right. lra.
  - rewrite Rabs_left; lra.
Qed.

Lemma X7_pursuit_closes_in_witness :
  Vec.distance Vec.zero
    (Enemy.position (fst (ai_step 0.5 Vec.zero far_enemy started))) = 7%R.
Proof.
  assert (D : Vec.distance Vec.zero (Enemy.position far_enemy) = 10%R)
    by (apply distance_on_x_axis; lra).
  destruct (X7_pursuit_closes_in 0.5 Vec.zero far_enemy started)
    as [_ [_ [_ [_ [H _]]]]].
  - reflexivity.
  - rewrite D. unfold far_enemy. rewrite sample_enemy_threshold. lra.
  - rewrite H; [rewrite D; cbn; lra | rewrite D; cbn; lra].
Defined.

Lemma enemy_iter_hp (delta : R) (playerPos : Vector3) (i : nat)
      (e : Enemy.t) (w : World) :
  nth_error (enemies (st w)) i = Some e ->
  hp (st (enemy_iter delta playerPos i w)) =
  hp (st (snd (ai_step delta playerPos e w))).
Proof.
  intros Hn. unfold enemy_iter. rewrite Hn.
  destruct (ai_step delta playerPos e w) as [e' w1].
  destruct (_ <=? 0)%Z; reflexivity.
Qed.

(** X8.  An enemy whose health is gone is still run once by the enemy
    update: within its melee threshold and with its cooldown run out it
    hits the player for 10 in the very turn that removes it from the
    array and counts the kill. *)
Theorem X8_last_blow
        (delta : R) (playerPos : Vector3) (l1 l2 : list Enemy.t)
        (e : Enemy.t) (w : World) :
  enemies (st w) = l1 ++ e :: l2 ->
  (Enemy.hp e <= 0)%Z ->
  (Vec.distance playerPos (Enemy.position e) <= melee_threshold e)%R ->
  (Enemy.attackCooldown e - delta <= 0)%R ->
  let w' := enemy_iter delta playerPos (length l1) w in
  enemies (st w') = l1 ++ l2 /\
  kills (st w') = (kills (st w) + 1)%Z /\
  hp (st w') = Z.max 0 (hp (st w) - 10).
Proof.
  intros Hes Hdead Hnear Hcd w'. subst w'.
  destruct (enemy_iter_sweep delta playerPos l1 l2 e w Hes) as [e' [_ [Hen Hk]]].
  assert (Ha : alive e = false) by (unfold alive; apply Z.ltb_ge; exact Hdead).
  rewrite Ha in Hen, Hk. rewrite ai_step_kills in Hk.
  split; [exact Hen|]. split; [exact Hk|].
  rewrite (enemy_iter_hp delta playerPos (length l1) e w)
    by (rewrite Hes; apply nth_error_middle).
  rewrite (ai_step_near delta playerPos e w Hnear). cbv zeta.
  assert (E : Rleb (Rmax 0 (Enemy.attackCooldown e - delta)) 0 = true)
    by (apply Rleb_true; rewrite Rmax_left; lra).
  destruct (Rltb 0.001 _); cbn [Enemy.attackCooldown Enemy.set_position
    Enemy.set_attackCooldown]; rewrite E; cbn [snd];
    apply applyDamageToPlayer_hp.
Qed.

Lemma X8_last_blow_witness :
  map Enemy.mesh (enemies (st (enemy_iter 0.016 Vec.zero 1 last_stand))) =
    [0%nat; 2%nat] /\
  kills (st (enemy_iter 0.016 Vec.zero 1 last_stand)) = 1%Z /\
  hp (st (enemy_iter 0.016 Vec.zero 1 last_stand)) = 90%Z.
Proof.
  destruct (X8_last_blow 0.016 Vec.zero
              [sample_enemy 0 (vec3 10 0 0)] [sample_enemy 2 (vec3 20 0 0)]
              dying_enemy last_stand) as [H1 [H2 H3]].
  - reflexivity.
  - cbn. lia.
  - unfold dying_enemy.
    change (melee_threshold (Enemy.set_hp 0 (sample_enemy 1 (vec3 1 0 0))))
      with (melee_threshold (sample_enemy 1 (vec3 1 0 0))).
    rewrite sample_enemy_threshold.
    cbn [Enemy.position Enemy.set_hp sample_enemy].
    rewrite distance_on_x_axis; lra.
  - cbn. lra.
  - cbn [length] in *. rewrite H1. split; [reflexivity|].
    split; [exact H2 | exact H3].
Defined.

(** ** Separation *)



Lemma separate_pair_apart (i j : nat) (a b : Enemy.t) (es : list Enemy.t) :
  nth_error es i = Some a -> nth_error es j = Some b ->
  ~ overlapping a b -> separate_pair i j es = es.
Proof.
  intros Ha Hb Hno. unfold separate_pair. rewrite Ha, Hb.
  destruct (Rltb 0 _ && Rltb _ _) eqn:E; [|reflexivity].
  apply andb_true_iff in E. destruct E as [E1 E2].
  apply Rltb_true in E1. apply Rltb_true in E2.
  exfalso. apply Hno. unfold overlapping, separation_min, Vec.distance. lra.
Qed.




Lemma fold_left_fixed {A B : Type} (f : A -> B -> A) (l : list B) (a : A) :
  (forall b, In b l -> f a b = a) -> fold_left f l a = a.
Proof.
  induction l as [|b l IH]; intros H; cbn; [reflexivity|].
  rewrite (H b (or_introl eq_refl)). apply IH.
  intros c Hc. apply H. right. exact Hc.
Qed.

(** X10.  The separation pass changes positions only: the number of
    enemies, their order, groups, health, speed and cooldowns are kept;
    and a crowd in which no two enemies overlap is left exactly as it is. *)
Theorem X10_separation_pass (es : list Enemy.t) :
  map enemy_key (separation es) = map enemy_key es /\
  map Enemy.speed (separation es) = map Enemy.speed es /\
  map Enemy.attackCooldown (separation es) = map Enemy.attackCooldown es /\
  length (separation es) = length es /\
  ((forall i j a b, (i < j)%nat -> nth_error es i = Some a ->
                    nth_error es j = Some b -> ~ overlapping a b) ->
   separation es = es).
Proof.
  split; [apply separation_map; reflexivity|].
  split; [apply separation_map; reflexivity|].
  split; [apply separation_map; reflexivity|].
  split.
  - rewrite <- (length_map enemy_key), separation_map by reflexivity.
    apply length_map.
  - intros Hno. unfold separation.
    apply fold_left_fixed. intros i Hi.
    apply fold_left_fixed. intros j Hj.
    apply in_seq in Hi. apply in_seq in Hj.
    destruct (nth_error es i) as [a|] eqn:Ha;
      [|unfold separate_pair; rewrite Ha; reflexivity].
    destruct (nth_error es j) as [b|] eqn:Hb;
      [|unfold separate_pair; rewrite Ha, Hb; reflexivity].
    apply (separate_pair_apart i j a b es Ha Hb).
    apply (Hno i j a b); [lia | exact Ha | exact Hb].
Qed.

Lemma X10_separation_pass_witness :
  separation [sample_enemy 0 (vec3 0 0 0); sample_enemy 1 (vec3 50 0 0)] =
  [sample_enemy 0 (vec3 0 0 0); sample_enemy 1 (vec3 50 0 0)].
Proof.
  apply (X10_separation_pass
           [sample_enemy 0 (vec3 0 0 0); sample_enemy 1 (vec3 50 0 0)]).
  intros [|[|i]] [|[|[|j]]] a b Hij Ha Hb; cbn in Ha, Hb;
    try lia; try discriminate.
  injection Ha as <-. injection Hb as <-.
  unfold overlapping, separation_min, Enemy.radius_or_default. cbn.
  assert (D : Vec.distance (vec3 0 0 0) (vec3 50 0 0) = 50%R)
    by (apply (distance_on_x_axis 50); lra).
  rewrite D.
  destruct (Req_dec_T ENEMY_RADIUS 0); unfold ENEMY_RADIUS in *; lra.
Defined.

(** ** Movement keys *)

Lemma Number_diff_zero (b1 b2 : bool) :
  (Number b1 - Number b2 = 0)%R <-> b1 = b2.
Proof. destruct b1, b2; cbn; split; intros H; try reflexivity; try discriminate; lra. Qed.

Lemma intent_direction_cases (w : World) :
  y_ (direction (st w)) = 0%R ->
  let dx := (Number (right (move (st w))) - Number (left (move (st w))))%R in
  let dz := (Number (fwd (move (st w))) - Number (bwd (move (st w))))%R in
  (dx = 0%R /\ dz = 0%R /\ intent_direction w = vec3 0 0 0) \/
  (~ (dx = 0%R /\ dz = 0%R) /\
   exists L, (0 < L)%R /\ (L * L = dx * dx + dz * dz)%R /\
             intent_direction w = vec3 (dx * (1 / L)) 0 (dz * (1 / L))).
Proof.
  intros Hy dx dz. unfold intent_direction. rewrite Hy. fold dx. fold dz.
  assert (Hsq : Vec.lengthSq (vec3 dx 0 dz) = (dx * dx + dz * dz)%R)
    by (unfold Vec.lengthSq; cbn; ring).
  destruct (Rltb 0 (Vec.lengthSq (vec3 dx 0 dz))) eqn:E.
  - apply Rltb_true in E. right.
    assert (HL : (0 < Vec.length (vec3 dx 0 dz))%R)
      by (apply sqrt_lt_R0; exact E).
    split; [intros [H1 H2]; rewrite Hsq, H1, H2 in E; lra|].
    exists (Vec.length (vec3 dx 0 dz)). split; [exact HL|].
    split; [rewrite length_sqr; exact Hsq|].
    rewrite normalize_nonzero by lra. apply vec3_eq; cbn; ring.
  - apply Rltb_false in E. left. rewrite Hsq in E.
    assert (H1 : dx = 0%R) by nra. assert (H2 : dz = 0%R) by nra.
    rewrite H1, H2. auto.
Qed.

(** X11.  Running diagonally is no faster than running straight: with
    [state.direction.y] at 0, as it always is, the direction the keys ask
    for is the zero vector when they cancel or none is held, and a
    horizontal unit vector otherwise; and one tick adds exactly that
    direction times [speed * delta] to the damped horizontal velocity. *)
Theorem X11_diagonal_no_faster (delta : R) (w : World) :
  y_ (direction (st w)) = 0%R ->
  let d := intent_direction w in
  let m := move (st w) in
  let speed := if sprint (st w) then PLAYER_SPRINT_SPEED else PLAYER_MOVE_SPEED in
  y_ d = 0%R /\
  (fwd m = bwd m /\ left m = right m -> d = vec3 0 0 0) /\
  (~ (fwd m = bwd m /\ left m = right m) ->
   (x_ d * x_ d + z_ d * z_ d = 1)%R) /\
  x_ (tick_velocity delta w) =
    (x_ (velocity (st w)) - x_ (velocity (st w)) * 10 * delta
     - x_ d * speed * delta)%R /\
  z_ (tick_velocity delta w) =
    (z_ (velocity (st w)) - z_ (velocity (st w)) * 10 * delta
     - z_ d * speed * delta)%R.
Proof.
  intros Hy d m speed.
  pose proof (intent_direction_cases w Hy) as Hc. cbv zeta in Hc.
  fold m in Hc. fold d in Hc.
  assert (Hzero : forall b1 b2, (Number b1 - Number b2 = 0)%R -> b1 = b2)
    by (intros b1 b2; apply Number_diff_zero).
  assert (Hx : (left m || right m = false) -> x_ d = 0%R).
  { intros H. apply orb_false_iff in H. destruct H as [Hl Hr].
    destruct Hc as [[_ [_ ->]] | [_ [L [_ [_ ->]]]]]; [reflexivity|].
    rewrite Hl, Hr. cbn. ring. }
  assert (Hz : (fwd m || bwd m = false) -> z_ d = 0%R).
  { intros H. apply orb_false_iff in H. destruct H as [Hf Hb].
    destruct Hc as [[_ [_ ->]] | [_ [L [_ [_ ->]]]]]; [reflexivity|].
    rewrite Hf, Hb. cbn. ring. }
  split; [destruct Hc as [[_ [_ ->]] | [_ [L [_ [_ ->]]]]]; reflexivity|].
  split.
  { intros [Hfb Hlr].
    destruct Hc as [[_ [_ H]] | [Hn _]]; [exact H|].
    exfalso. apply Hn. split; apply Number_diff_zero; congruence. }
  split.
  { intros Hn.
    destruct Hc as [[H1 [H2 _]] | [_ [L [HL [Hsq ->]]]]].
    - exfalso. apply Hn. split; [apply Hzero, H2 | symmetry; apply Hzero, H1].
    - cbn [x_ z_].
      set (dx := (Number (right m) - Number (left m))%R) in *.
      set (dz := (Number (fwd m) - Number (bwd m))%R) in *.
      replace (dx * (1 / L) * (dx * (1 / L)) + dz * (1 / L) * (dz * (1 / L)))%R
        with ((dx * dx + dz * dz) * (1 / L) * (1 / L))%R by ring.
      rewrite <- Hsq. field. lra. }
  unfold tick_velocity. fold m. fold d. fold speed. cbn [x_ z_].
  split.
  - destruct (left m || right m) eqn:E; [reflexivity|].
    rewrite (Hx eq_refl). ring.
  - destruct (fwd m || bwd m) eqn:E; [reflexivity|].
    rewrite (Hz eq_refl). ring.
Qed.

Lemma X11_diagonal_no_faster_witness :
  (x_ (intent_direction diagonal_run) * x_ (intent_direction diagonal_run) +
   z_ (intent_direction diagonal_run) * z_ (intent_direction diagonal_run) = 1)%R.
Proof.
  destruct (X11_diagonal_no_faster 0.016 diagonal_run) as [_ [_ [H _]]].
  - reflexivity.
  - apply H. cbn. intros [H1 _]. discriminate H1.
Defined.

(** ** The player and the ground *)




(** X13.  The player moves in the horizontal plane along the view
    direction flattened to that plane, so looking up or down does not
    tilt or slow the movement.  With [(fx, fz)] the horizontal part of the
    view direction scaled to length 1, a tick moves the player by
    [- vz * delta] along [(fx, fz)] and by [- vx * delta] along
    [(- fz, fx)], the direction to its right, for the velocity [(vx, vz)]
    of that tick; the horizontal step therefore has length
    [delta * sqrt (vx^2 + vz^2)] whatever the pitch.  With the view
    straight up or down the player does not move horizontally at all.
    The height changes by the vertical velocity alone. *)
Theorem X13_movement_ignores_pitch (delta : R) (w : World) :
  let v := tick_velocity delta w in
  let p := integrated_position delta w in
  let look := cameraLook (gl w) in
  let flat := Vec.set_y look 0 in
  let fx := (x_ look / Vec.length flat)%R in
  let fz := (z_ look / Vec.length flat)%R in
  let dx := (x_ p - x_ (playerPos (gl w)))%R in
  let dz := (z_ p - z_ (playerPos (gl w)))%R in
  (Vec.length flat <> 0%R ->
   (fx * fx + fz * fz = 1)%R /\
   dx = ((- z_ v * delta) * fx + (- x_ v * delta) * (- fz))%R /\
   dz = ((- z_ v * delta) * fz + (- x_ v * delta) * fx)%R /\
   (dx * dx + dz * dz = delta * delta * (x_ v * x_ v + z_ v * z_ v))%R) /\
  (Vec.length flat = 0%R -> dx = 0%R /\ dz = 0%R) /\
  y_ p = (y_ (playerPos (gl w)) + y_ v * delta)%R.
Proof.
  intros v p look flat fx fz dx dz. subst dx dz p.
  unfold integrated_position. fold v. fold look. fold flat.
  split; [|split].
  - intros Hn.
    pose proof (length_normalize flat Hn) as H1.
    assert (Hsq : Vec.lengthSq (Vec.normalize flat) = 1%R)
      by (rewrite <- length_sqr, H1; ring).
    assert (Hx : x_ (Vec.normalize flat) = fx).
    { rewrite (normalize_nonzero flat Hn). unfold fx. cbn [x_ Vec.set_y
        Vec.divideScalar Vec.multiplyScalar flat]. field. exact Hn. }
    assert (Hy : y_ (Vec.normalize flat) = 0%R)
      by (rewrite (normalize_nonzero flat Hn); cbn; ring).
    assert (Hz : z_ (Vec.normalize flat) = fz).
    { rewrite (normalize_nonzero flat Hn). unfold fz. cbn [z_ Vec.set_y
        Vec.divideScalar Vec.multiplyScalar flat]. field. exact Hn. }
    unfold Vec.lengthSq in Hsq. rewrite Hx, Hy, Hz in Hsq.
    cbn [x_ y_ z_ Vec.set_y Vec.addScaledVector Vec.crossVectors].
    rewrite Hx, Hy, Hz. clearbody fx fz v.
    assert (Hunit : (fx * fx + fz * fz = 1)%R) by lra.
    split; [exact Hunit|]. split; [ring|]. split; [ring|].
    replace ((x_ (playerPos (gl w)) + fx * (- z_ v * delta) +
              (0 * 0 - fz * 1) * (- x_ v * delta) - x_ (playerPos (gl w))) *
             (x_ (playerPos (gl w)) + fx * (- z_ v * delta) +
              (0 * 0 - fz * 1) * (- x_ v * delta) - x_ (playerPos (gl w))) +
             (z_ (playerPos (gl w)) + fz * (- z_ v * delta) +
              (fx * 1 - 0 * 0) * (- x_ v * delta) - z_ (playerPos (gl w))) *
             (z_ (playerPos (gl w)) + fz * (- z_ v * delta) +
              (fx * 1 - 0 * 0) * (- x_ v * delta) - z_ (playerPos (gl w))))%R
      with ((fx * fx + fz * fz) *
            (delta * delta * (x_ v * x_ v + z_ v * z_ v)))%R by ring.
    rewrite Hunit. ring.
  - intros Hz.
    assert (Hf : Vec.normalize flat = flat).
    { unfold Vec.normalize, Vec.divideScalar.
      destruct (Req_dec_T (Vec.length flat) 0); [|contradiction].
      apply vec3_eq; cbn; field. }
    assert (Hsq : Vec.lengthSq flat = 0%R) by (rewrite <- length_sqr, Hz; ring).
    unfold Vec.lengthSq in Hsq.
    assert (Hx0 : x_ flat = 0%R) by nra.
    assert (Hz0 : z_ flat = 0%R) by nra.
    assert (Hy0 : y_ flat = 0%R) by reflexivity.
    rewrite Hf. cbn [x_ y_ z_ Vec.set_y Vec.addScaledVector Vec.crossVectors].
    rewrite Hx0, Hz0, Hy0. split; ring.
  - cbn [x_ y_ z_ Vec.set_y Vec.addScaledVector Vec.crossVectors].
    assert (Hy : y_ (Vec.normalize flat) = 0%R).
    { unfold Vec.normalize, Vec.divideScalar. cbn. ring. }
    rewrite Hy. ring.
Qed.

Lemma X13_movement_ignores_pitch_witness :
  ((x_ (integrated_position 0.016 looking_up) - x_ (playerPos (gl looking_up))) *
   (x_ (integrated_position 0.016 looking_up) - x_ (playerPos (gl looking_up))) +
   (z_ (integrated_position 0.016 looking_up) - z_ (playerPos (gl looking_up))) *
   (z_ (integrated_position 0.016 looking_up) - z_ (playerPos (gl looking_up))) =
   0.016 * 0.016 *
   (x_ (tick_velocity 0.016 looking_up) * x_ (tick_velocity 0.016 looking_up) +
    z_ (tick_velocity 0.016 looking_up) * z_ (tick_velocity 0.016 looking_up)))%R /\
  x_ (integrated_position 0.016 looking_straight_up) =
    x_ (playerPos (gl looking_straight_up)).
Proof.
  destruct (X13_movement_ignores_pitch 0.016 looking_up) as [H1 _].
  destruct (X13_movement_ignores_pitch 0.016 looking_straight_up) as [_ [H2 _]].
  split.
  - apply H1. change (Vec.length (vec3 0.6 0 0) <> 0%R).
    rewrite length_of_x; lra.
  - destruct H2 as [Hx _]; [|lra].
    change (Vec.length (vec3 0 0 0) = 0%R).
    apply (length_of_x 0). lra.
Defined.

(** ** Keys *)

Lemma reload_idempotent (w : World) : reload (reload w) = reload w.
Proof.
  assert (H : reload w = w \/ reloading (st (reload w)) = true).
  { unfold reload. destruct (reloading (st w)) eqn:Hr; [left; reflexivity|].
    destruct (_ || _); [left | right]; reflexivity. }
  destruct H as [H|H].
  - rewrite H. exact H.
  - unfold reload at 1. rewrite H. reflexivity.
Qed.

(** X14.  Two key events of the same kind with nothing between them act
    as one: a second key-down of the same key changes nothing (the second
    R finds the reload in flight, the second Space leaves the upward
    velocity at 15), and neither does a second key-up.  A key-down followed
    by the key-up of a movement key or of Shift that was up gives the
    world back as it was, and the key-up of Space, R or any other key
    does nothing.  A key-down that comes after a frame is another
    matter: Space pressed after a frame in which the player has landed
    jumps again, so holding Space makes the player hop.  Key E is left
    out: it shows and hides the inventory panel, which is not part of
    the world of the embedding. *)
Theorem X14_key_events (c : KeyCode) (w : World) :
  c <> KeyE ->
  onKey c true (onKey c true w) = onKey c true w /\
  onKey c false (onKey c false w) = onKey c false w /\
  (key_flag c w = Some false -> onKey c false (onKey c true w) = w) /\
  (key_flag c w = None -> onKey c false w = w) /\
  (forall delta : R,
      controlsLocked (gl w) || allowMouseDragFallback (gl w) = true ->
      (y_ (integrated_position delta w) <
       getTerrainHeight (x_ (integrated_position delta w))
                        (z_ (integrated_position delta w)))%R ->
      y_ (velocity (st (updatePlayerMovement delta w))) = 0%R /\
      y_ (velocity (st (onKey Space true (updatePlayerMovement delta w))))
        = 15%R).
Proof.
  intros HE.
  assert (Hland : forall delta : R,
      controlsLocked (gl w) || allowMouseDragFallback (gl w) = true ->
      (y_ (integrated_position delta w) <
       getTerrainHeight (x_ (integrated_position delta w))
                        (z_ (integrated_position delta w)))%R ->
      y_ (velocity (st (updatePlayerMovement delta w))) = 0%R /\
      y_ (velocity (st (onKey Space true (updatePlayerMovement delta w))))
        = 15%R).
  { intros delta Hen Hlt.
    destruct (tick_below_ground delta w Hen Hlt) as [_ [Hv Hg]].
    split; [exact Hv|]. rewrite onKey_jump, Hg. reflexivity. }
  destruct c; cbn [onKey key_flag andb]; try (exfalso; apply HE; reflexivity).
  1-5: split; [reflexivity|]; split; [reflexivity|]; split; [|split;
         [intros H; discriminate H | exact Hland]];
       intros H; injection H as H;
       destruct w as [[[? ? ? ?] ? ? ? ? ? ? ? ? ? ? ?] ? ?]; cbn in *;
       subst; reflexivity.
  - (* Space *)
    split.
    + destruct (onGround (st w)) eqn:Hg; [|rewrite Hg; reflexivity].
      cbn [st upd_st onGround set_velocity]. rewrite Hg. reflexivity.
    + split; [reflexivity|]. split; [intros H; discriminate H|].
      split; [reflexivity | exact Hland].
  - split; [apply reload_idempotent |].
    split; [reflexivity|]. split; [intros H; discriminate H|].
    split; [reflexivity | exact Hland].
  - split; [reflexivity|].
    split; [reflexivity|]. split; [intros H; discriminate H|].
    split; [reflexivity | exact Hland].
Qed.

Lemma X14_key_events_witness :
  onKey KeyW false (onKey KeyW true started) = started /\
  onKey KeyR false seven_left = seven_left.
Proof.
  destruct (X14_key_events KeyW started) as [_ [_ [H1 _]]];
    [discriminate|].
  destruct (X14_key_events KeyR seven_left) as [_ [_ [_ [H2 _]]]];
    [discriminate|].
  split; [apply H1 | apply H2]; reflexivity.
Defined.

(** ** Clicks *)

Lemma damage_owner_cases (root : Object3D) (es : list Enemy.t) :
  damage_owner root es = es \/
  exists l1 e l2,
    es = l1 ++ e :: l2 /\
    damage_owner root es = l1 ++ Enemy.set_hp (Enemy.hp e - 50)%Z e :: l2.
Proof.
  induction es as [|a es IH]; cbn [damage_owner]; [left; reflexivity|].
  destruct (Object3D_eq_dec _ _).
  - right. exists [], a, es. auto.
  - destruct IH as [-> | [l1 [e [l2 [Hes Hd]]]]]; [left; reflexivity|].
    right. exists (a :: l1), e, l2. rewrite Hd, Hes. auto.
Qed.

Lemma reload_rest (w : World) :
  gl (reload w) = gl w /\ hp (st (reload w)) = hp (st w) /\
  kills (st (reload w)) = kills (st w) /\
  enemies (st (reload w)) = enemies (st w) /\
  direction (st (reload w)) = direction (st w).
Proof.
  unfold reload. destruct (reloading (st w)); [auto 10|].
  destruct (_ || _); cbn; auto 10.
Qed.

(** X15.  Whatever the raycaster answers, a click hurts at most one
    enemy, by exactly 50: it never removes, adds, moves or reorders an
    enemy, never touches the player's health, the kill counter or the
    globals, and takes at most one round from the magazine. *)
Theorem X15_click_hurts_at_most_one
        (intersectObjects :
           Vector3 -> Vector3 -> list Object3D -> list Intersection)
        (now : Q) (w : World) :
  hp (st (shoot intersectObjects now w)) = hp (st w) /\
  kills (st (shoot intersectObjects now w)) = kills (st w) /\
  gl (shoot intersectObjects now w) = gl w /\
  (enemies (st (shoot intersectObjects now w)) = enemies (st w) \/
   exists l1 e l2,
     enemies (st w) = l1 ++ e :: l2 /\
     enemies (st (shoot intersectObjects now w)) =
       l1 ++ Enemy.set_hp (Enemy.hp e - 50)%Z e :: l2) /\
  (ammo (st (shoot intersectObjects now w)) = ammo (st w) \/
   ammo (st (shoot intersectObjects now w)) = (ammo (st w) - 1)%Z).
Proof.
  destruct (Qlt_le_dec (now - lastShot (st w)) shootCooldown) as [Hlt|Hle].
  { rewrite shoot_rejected_cooldown by assumption. auto 10. }
  destruct (reloading (st w)) eqn:Hrel.
  { rewrite shoot_rejected_reloading by assumption. auto 10. }
  destruct (Z_lt_le_dec 0 (ammo (st w))) as [Hpos|Hnon].
  2:{ rewrite shoot_empty by assumption.
      destruct (reload_rest w) as [A [B [C [D _]]]].
      rewrite A, B, C, D, reload_ammo. auto 10. }
  assert (G : shot_allowed now w) by (unfold shot_allowed; auto).
  destruct (shoot_accepted intersectObjects now w G)
    as [Ha [_ [_ [_ [Hhp [_ Hgl]]]]]].
  rewrite (shoot_enemies_accepted intersectObjects now w G).
  split; [exact Hhp|]. split.
  { unfold shoot. destruct (Qltb _ _); [reflexivity|].
    rewrite Hrel. destruct (_ <=? 0)%Z eqn:E; [apply Z.leb_le in E; lia|].
    destruct (shot_hits _ _); [reflexivity|].
    destruct (find_root _ _); reflexivity. }
  split; [exact Hgl|]. split; [|right; exact Ha].
  destruct (shot_hits _ _) as [|hit rest]; [left; reflexivity|].
  destruct (find_root _ _) as [root|]; [|left; reflexivity].
  apply damage_owner_cases.
Qed.

(** ** Rounds *)

Lemma updatePlayerMovement_ammo (delta : R) (w : World) :
  ammo (st (updatePlayerMovement delta w)) = ammo (st w) /\
  reserveAmmo (st (updatePlayerMovement delta w)) = reserveAmmo (st w).
Proof.
  unfold updatePlayerMovement. destruct (negb _ && negb _); [auto|].
  destruct (Rltb _ _); cbn; auto.
Qed.

Lemma animate_ammo (time : Q) (w : World) :
  ammo (st (animate time w)) = ammo (st w) /\
  reserveAmmo (st (animate time w)) = reserveAmmo (st w).
Proof.
  unfold animate.
  match goal with |- context [updateEnemies ?d ?u] =>
    destruct (updateEnemies_frame d u) as [_ [_ [_ [_ [_ [_ [Ea [Er _]]]]]]]];
    destruct (updatePlayerMovement_ammo d (upd_gl (set_prevTime time) w))
      as [Pa Pr]
  end.
  unfold updateCamera.
  destruct (playerObj _); cbn [st upd_gl]; rewrite Ea, Er, Pa, Pr; auto.
Qed.

Section Magazine.
Variable random : nat -> R.
Variable intersectObjects :
  Vector3 -> Vector3 -> list Object3D -> list Intersection.

Lemma step_magazine (ev : Event) (w : World) :
  (ammo (st (step random intersectObjects ev w)) = ammo (st w) /\
   reserveAmmo (st (step random intersectObjects ev w)) = reserveAmmo (st w)) \/
  (exists now,
      ev = Click now /\ shot_allowed now w /\
      ammo (st (step random intersectObjects ev w)) = (ammo (st w) - 1)%Z /\
      reserveAmmo (st (step random intersectObjects ev w)) =
        reserveAmmo (st w)) \/
  (exists i t,
      ev = TimeoutFires i /\ nth_error (pending (host w)) i = Some t /\
      callback t = ReloadDone /\
      ammo (st (step random intersectObjects ev w)) =
        (ammo (st w) + Z.min (maxAmmo - ammo (st w)) (reserveAmmo (st w)))%Z /\
      reserveAmmo (st (step random intersectObjects ev w)) =
        (reserveAmmo (st w) -
         Z.min (maxAmmo - ammo (st w)) (reserveAmmo (st w)))%Z).
Proof.
  destruct ev; cbn [step].
  - left. apply animate_ammo.
  - destruct (Qlt_le_dec (now - lastShot (st w)) shootCooldown) as [Hlt|Hle].
    { left. rewrite shoot_rejected_cooldown by assumption. auto. }
    destruct (reloading (st w)) eqn:Hrel.
    { left. rewrite shoot_rejected_reloading by assumption. auto. }
    destruct (Z_lt_le_dec 0 (ammo (st w))) as [Hpos|Hnon].
    + right; left. exists now.
      assert (G : shot_allowed now w) by (unfold shot_allowed; auto).
      destruct (shoot_accepted intersectObjects now w G)
        as [Ha [_ [_ [Hr _]]]].
      auto.
    + left. rewrite shoot_empty by assumption. apply reload_keeps_ammo.
  - left. destruct code; cbn [onKey]; auto.
    + destruct (pressed && _); auto.
    + destruct pressed; [apply reload_keeps_ammo | auto].
  - destruct (nth_error (pending (host w)) i) as [t|] eqn:Hn; [|left; auto].
    destruct (callback t) eqn:Hcb; cbn [run_callback].
    + right; right. exists i, t. cbn -[Z.min Z.add Z.sub]. auto 10.
    + left.
      match goal with |- context [resetGame random ?u] =>
        destruct (resetGame_ammo random u) as [A [B _]]; rewrite A, B end.
      auto.
  - left. destruct (intervals (host w)); [auto|]. unfold wave_tick.
    destruct (_ <? _)%Z; [|auto].
    destruct (spawnEnemies_ammo random WAVE_SIZE w) as [A [B _]].
    rewrite A, B. auto.
  - left. destruct (resetGame_ammo random w) as [A [B _]]. rewrite A, B. auto.
  - left. auto.
  - left. auto.
  - left. auto.
Qed.

(** X16.  Rounds are never created.  Of all the events only two change
    the magazine or the reserve: a click that passes the three checks of
    [shoot] takes one round from the magazine, and the completion of a
    reload moves [min (30 - ammo) reserveAmmo] rounds from the reserve to
    the magazine.  So the rounds the player owns, magazine and reserve
    together, never grow over any run of events, from any world: neither
    a respawn, nor a restart, nor a new wave refills them. *)
Theorem X16_rounds_never_grow :
  (forall (ev : Event) (w : World),
      rounds (step random intersectObjects ev w) = rounds w \/
      exists now,
        ev = Click now /\ shot_allowed now w /\
        rounds (step random intersectObjects ev w) = (rounds w - 1)%Z) /\
  (forall (evs : list Event) (w : World),
      (rounds (run random intersectObjects evs w) <= rounds w)%Z).
Proof.
  assert (Hstep : forall ev w,
             rounds (step random intersectObjects ev w) = rounds w \/
             exists now,
               ev = Click now /\ shot_allowed now w /\
               rounds (step random intersectObjects ev w) = (rounds w - 1)%Z).
  { intros ev w. unfold rounds.
    destruct (step_magazine ev w)
      as [[A B] | [[now [E [G [A B]]]] | [i [t [_ [_ [_ [A B]]]]]]]].
    - left. rewrite A, B. reflexivity.
    - right. exists now. rewrite A, B.
      split; [exact E|]. split; [exact G|]. lia.
    - left. rewrite A, B. lia. }
  split; [exact Hstep|].
  intros evs. unfold run.
  induction evs as [|ev evs IH]; intros w; cbn [fold_left]; [lia|].
  specialize (IH (step random intersectObjects ev w)).
  destruct (Hstep ev w) as [E | [now [_ [_ E]]]]; lia.
Qed.

Lemma run_app (evs : list Event) (ev : Event) (w : World) :
  run random intersectObjects (evs ++ [ev]) w =
  step random intersectObjects ev (run random intersectObjects evs w).
Proof. unfold run. rewrite fold_left_app. reflexivity. Qed.

(** X17.  Whatever happens after [init], the health stays between 0 and
    100, the magazine between 0 and 30 and the reserve between 0 and 90,
    and the player never owns more than the 120 rounds of the start. *)
Theorem X17_resources_in_range (t0 : Q) (evs : list Event) :
  let w := run random intersectObjects evs (init random (boot t0)) in
  (0 <= hp (st w) <= 100)%Z /\
  (0 <= ammo (st w) <= 30)%Z /\
  (0 <= reserveAmmo (st w) <= 90)%Z /\
  (rounds w <= 120)%Z.
Proof.
  cbv zeta.
  assert (Hinit : ammo (st (init random (boot t0))) = 30%Z /\
                  reserveAmmo (st (init random (boot t0))) = 90%Z).
  { unfold init, populateWorld.
    match goal with |- context [startWaveSpawner ?u] =>
      destruct (startWaveSpawner_spec u) as [-> _] end.
    match goal with |- context [spawnEnemies random ?c ?u] =>
      destruct (spawnEnemies_ammo random c u) as [-> [-> _]] end.
    match goal with |- context [decorate random ?n ?u] =>
      destruct (decorate_frame random n u) as [-> _] end.
    split; reflexivity. }
  assert (Hres : (reserveAmmo
                    (st (run random intersectObjects evs
                           (init random (boot t0)))) <= 90)%Z /\
                 (rounds (run random intersectObjects evs
                            (init random (boot t0))) <= 120)%Z).
  { induction evs as [|ev evs IH] using rev_ind.
    - unfold run, rounds. cbn [fold_left]. destruct Hinit as [-> ->]. lia.
    - rewrite run_app.
      pose proof (world_ok_run random intersectObjects t0 evs)
        as [_ [_ [_ [[Ha Hr] _]]]].
      set (w := run random intersectObjects evs (init random (boot t0))) in *.
      clearbody w. unfold rounds, maxAmmo in *.
      destruct (step_magazine ev w)
        as [[A B] | [[now [_ [_ [A B]]]] | [i [t [_ [_ [_ [A B]]]]]]]];
        rewrite A, B; unfold maxAmmo; lia. }
  pose proof (world_ok_run random intersectObjects t0 evs)
    as [_ [_ [Hhp [[Ha Hr] _]]]].
  unfold maxHp, maxAmmo in *. repeat split; try lia; apply Hres.
Qed.

(** X18.  Whatever happens after [init], exactly one wave timer runs and
    it is the one [waveIntervalHandle] names (restarts and respawns clear
    the old one before they start the next), no two enemies share a
    group, and every enemy has the radius 0.8. *)
Theorem X18_one_wave_timer (t0 : Q) (evs : list Event) :
  let w := run random intersectObjects evs (init random (boot t0)) in
  (exists h, waveIntervalHandle (gl w) = Some h /\
             intervals (host w) = [h] /\ h <> 0%nat) /\
  NoDup (map Enemy.mesh (enemies (st w))) /\
  Forall (fun e => Enemy.radius e = 0.8%R) (enemies (st w)).
Proof.
  cbv zeta.
  pose proof (world_ok_run random intersectObjects t0 evs)
    as [_ [_ [_ [_ [[Hnd [Hall _]] [h [Hh [Hi _]]]]]]]].
  split; [exists (S h); auto|]. split; [exact Hnd|].
  revert Hall. apply Forall_impl. intros e [_ Hr]. exact Hr.
Qed.

End Magazine.

(** ** Altitude *)






Section Altitude.
Variable random : nat -> R.
Variable intersectObjects :
  Vector3 -> Vector3 -> list Object3D -> list Intersection.







End Altitude.

(** ** The kill counter *)

Lemma updatePlayerMovement_rest (delta : R) (w : World) :
  kills (st (updatePlayerMovement delta w)) = kills (st w) /\
  enemies (st (updatePlayerMovement delta w)) = enemies (st w) /\
  reloading (st (updatePlayerMovement delta w)) = reloading (st w) /\
  host (updatePlayerMovement delta w) = host w.
Proof.
  unfold updatePlayerMovement. destruct (negb _ && negb _); [auto|].
  destruct (Rltb _ _); cbn; auto.
Qed.

Lemma updateEnemies_kills (delta : R) (w : World) :
  (kills (st w) <= kills (st (updateEnemies delta w))
   <= kills (st w) + Z.of_nat (length (enemies (st w))))%Z.
Proof.
  unfold updateEnemies. destruct (playerObj (gl w)); cbn [negb]; [|lia].
  set (w1 := upd_st _ w).
  assert (Hes : enemies (st w1) = separation (enemies (st w)) ++ [])
    by (rewrite app_nil_r; reflexivity).
  destruct (enemy_loop_sweep delta (playerPos (gl w)) _ _ w1 Hes) as [_ Hk].
  assert (Hl : enemies (st w1) = separation (enemies (st w))) by reflexivity.
  rewrite Hl, Hk.
  pose proof (filter_length_le (fun e => negb (alive e))
                (separation (enemies (st w)))) as Hle.
  assert (Hsep : map enemy_key (separation (enemies (st w))) =
                 map enemy_key (enemies (st w)))
    by (apply separation_map; reflexivity).
  apply (f_equal (@length _)) in Hsep. rewrite !length_map in Hsep.
  replace (kills (st w1)) with (kills (st w)) by reflexivity.
  lia.
Qed.

Section KillCounter.
Variable random : nat -> R.
Variable intersectObjects :
  Vector3 -> Vector3 -> list Object3D -> list Intersection.

Lemma shoot_kills (now : Q) (w : World) :
  kills (st (shoot intersectObjects now w)) = kills (st w).
Proof.
  unfold shoot. destruct (Qltb _ _); [reflexivity|].
  destruct (reloading (st w)); [reflexivity|].
  destruct (_ <=? 0)%Z; [apply reload_rest|].
  destruct (shot_hits _ _); [reflexivity|].
  destruct (find_root _ _); reflexivity.
Qed.

Lemma resetGame_kills (w : World) :
  kills (st (resetGame random w)) = kills (st w).
Proof.
  destruct (playerObj (gl w)) eqn:Hp.
  - destruct (resetGame_frame random w Hp) as [l [Hst _]]. rewrite Hst.
    reflexivity.
  - rewrite (resetGame_guard random w Hp). reflexivity.
Qed.

(** X20.  The kill counter only counts up.  No event but an animation
    frame changes it, a frame adds at most the number of enemies alive
    before it, and nothing ever lowers or clears it: not a respawn, not a
    restart, not the death of the player. *)
Theorem X20_kills_only_count_up :
  (forall (ev : Event) (w : World),
      kills (st (step random intersectObjects ev w)) = kills (st w) \/
      exists time,
        ev = Frame time /\
        (kills (st w) <= kills (st (step random intersectObjects ev w))
         <= kills (st w) + Z.of_nat (length (enemies (st w))))%Z) /\
  (forall (evs : list Event) (w : World),
      (kills (st w) <= kills (st (run random intersectObjects evs w)))%Z).
Proof.
  assert (Hstep : forall ev w,
    kills (st (step random intersectObjects ev w)) = kills (st w) \/
    exists time,
      ev = Frame time /\
      (kills (st w) <= kills (st (step random intersectObjects ev w))
       <= kills (st w) + Z.of_nat (length (enemies (st w))))%Z).
  { intros ev w. destruct ev; cbn [step].
    - right. exists time. split; [reflexivity|].
      unfold animate.
      match goal with |- context [updateEnemies ?d ?u] =>
        pose proof (updateEnemies_kills d u) as Hk;
        destruct (updatePlayerMovement_rest d (upd_gl (set_prevTime time) w))
          as [Pk [Pe _]]
      end.
      rewrite Pk, Pe in Hk. cbn [st upd_gl] in Hk.
      unfold updateCamera. destruct (playerObj _); cbn [st upd_gl]; exact Hk.
    - left. apply shoot_kills.
    - left. destruct code; cbn [onKey]; auto.
      + destruct (pressed && _); auto.
      + destruct pressed; [apply reload_rest | auto].
    - left. destruct (nth_error _ i) as [t|]; [|reflexivity].
      destruct (callback t); cbn [run_callback];
        [reflexivity | rewrite resetGame_kills; reflexivity].
    - left. destruct (intervals (host w)); [reflexivity|]. unfold wave_tick.
      destruct (_ <? _)%Z; [|reflexivity].
      destruct (spawnEnemies_spec random WAVE_SIZE w) as [sp [Hst _]].
      rewrite Hst. reflexivity.
    - left. apply resetGame_kills.
    - left. reflexivity.
    - left. reflexivity.
    - left. reflexivity. }
  split; [exact Hstep|].
  intros evs. unfold run.
  induction evs as [|ev evs IH]; intros w; cbn [fold_left]; [lia|].
  specialize (IH (step random intersectObjects ev w)).
  destruct (Hstep ev w) as [E | [time [_ E]]]; lia.
Qed.

End KillCounter.

(** ** Reload timers *)

Lemma reload_timers_same (w w' : World) :
  pending (host w') = pending (host w) -> reload_timers w' = reload_timers w.
Proof. unfold reload_timers. intros ->. reflexivity. Qed.

Lemma applyDamageToPlayer_reload_timers (amount : Z) (w : World) :
  reload_timers (applyDamageToPlayer amount w) = reload_timers w.
Proof.
  unfold reload_timers. rewrite applyDamageToPlayer_pending.
  destruct (_ <=? 0)%Z; [|reflexivity].
  rewrite filter_app, length_app. cbn. lia.
Qed.

Lemma ai_step_reload_timers (delta : R) (playerPos : Vector3)
      (e : Enemy.t) (w : World) :
  reload_timers (snd (ai_step delta playerPos e w)) = reload_timers w.
Proof.
  unfold ai_step. destruct (Rltb _ _); [reflexivity|].
  destruct (Rleb _ _); [|reflexivity].
  apply applyDamageToPlayer_reload_timers.
Qed.

Lemma enemy_iter_reload_timers (delta : R) (playerPos : Vector3)
      (i : nat) (w : World) :
  reload_timers (enemy_iter delta playerPos i w) = reload_timers w.
Proof.
  unfold enemy_iter. destruct (nth_error _ i) as [e|]; [|reflexivity].
  pose proof (ai_step_reload_timers delta playerPos e w) as H.
  destruct (ai_step delta playerPos e w) as [e' w1]. cbn [snd] in H.
  destruct (_ <=? 0)%Z; exact H.
Qed.

Lemma enemy_loop_reload_timers (delta : R) (playerPos : Vector3) (n : nat) :
  forall w : World,
    reload_timers (enemy_loop delta playerPos n w) = reload_timers w.
Proof.
  induction n as [|n IH]; intros w; cbn [enemy_loop]; [reflexivity|].
  rewrite IH. apply enemy_iter_reload_timers.
Qed.

Lemma updateEnemies_reload_timers (delta : R) (w : World) :
  reload_timers (updateEnemies delta w) = reload_timers w.
Proof.
  unfold updateEnemies. destruct (playerObj (gl w)); cbn [negb]; [|reflexivity].
  rewrite enemy_loop_reload_timers. reflexivity.
Qed.

Lemma filter_splice {A : Type} (f : A -> bool) (i : nat) (l : list A) (a : A) :
  nth_error l i = Some a ->
  (length (filter f (splice i l)) + (if f a then 1 else 0))%nat =
  length (filter f l).
Proof.
  intros H. apply nth_error_split in H. destruct H as [l1 [l2 [-> <-]]].
  rewrite splice_middle, !filter_app, !length_app. cbn [filter].
  destruct (f a); cbn [length]; lia.
Qed.

Lemma reload_sync (w : World) :
  reload_timers w = (if reloading (st w) then 1 else 0)%nat ->
  reload_timers (reload w) = (if reloading (st (reload w)) then 1 else 0)%nat.
Proof.
  intros H. unfold reload. destruct (reloading (st w)) eqn:Hr.
  - rewrite Hr. exact H.
  - destruct (_ || _); [rewrite Hr; exact H|].
    unfold reload_timers in *.
    cbn [setTimeout upd_host upd_st host st pending set_pending reloading
         set_reloading].
    rewrite filter_app, length_app, H. reflexivity.
Qed.

Section ReloadTimers.
Variable random : nat -> R.
Variable intersectObjects :
  Vector3 -> Vector3 -> list Object3D -> list Intersection.

Lemma resetGame_reload_timers (w : World) :
  reload_timers (resetGame random w) = reload_timers w.
Proof.
  destruct (playerObj (gl w)) eqn:Hp.
  - destruct (resetGame_frame random w Hp) as [l [_ [_ [Hpend _]]]].
    apply reload_timers_same, Hpend.
  - rewrite (resetGame_guard random w Hp). reflexivity.
Qed.

Lemma reload_sync_step (ev : Event) (w : World) :
  reload_timers w = (if reloading (st w) then 1 else 0)%nat ->
  reload_timers (step random intersectObjects ev w) =
  (if reloading (st (step random intersectObjects ev w)) then 1 else 0)%nat.
Proof.
  intros H. destruct ev; cbn [step].
  - unfold animate.
    match goal with |- context [updateEnemies ?d ?u] =>
      pose proof (updateEnemies_reload_timers d u) as Ht;
      destruct (updateEnemies_frame d u) as [_ [_ [_ [_ [_ [_ [_ [_ [El _]]]]]]]]];
      destruct (updatePlayerMovement_rest d (upd_gl (set_prevTime time) w))
        as [_ [_ [Pr Ph]]]
    end.
    rewrite (reload_timers_same _ _ (f_equal pending Ph)) in Ht.
    rewrite Pr in El. cbn [st upd_gl] in El.
    unfold updateCamera.
    destruct (playerObj _); cbn [st upd_gl]; rewrite El;
      (etransitivity; [|exact H]); (etransitivity; [|exact Ht]);
      apply reload_timers_same; reflexivity.
  - destruct (Qlt_le_dec (now - lastShot (st w)) shootCooldown) as [Hlt|Hle].
    { rewrite shoot_rejected_cooldown by assumption. exact H. }
    destruct (reloading (st w)) eqn:Hrel.
    { rewrite shoot_rejected_reloading by assumption. rewrite Hrel. exact H. }
    destruct (Z_lt_le_dec 0 (ammo (st w))) as [Hpos|Hnon].
    + assert (G : shot_allowed now w) by (unfold shot_allowed; auto).
      destruct (shoot_accepted intersectObjects now w G)
        as [_ [_ [Hr [_ [_ [Hh _]]]]]].
      rewrite Hr, (reload_timers_same _ _ (f_equal pending Hh)). exact H.
    + rewrite shoot_empty by assumption. apply reload_sync.
      rewrite Hrel. exact H.
  - destruct code; cbn [onKey]; try exact H.
    + destruct (pressed && _); exact H.
    + destruct pressed; [apply reload_sync|]; exact H.
  - destruct (nth_error (pending (host w)) i) as [t|] eqn:Hn; [|exact H].
    pose proof (filter_splice completes_reload i _ t Hn) as Hs.
    fold (reload_timers w) in Hs. rewrite H in Hs.
    unfold completes_reload at 2 in Hs.
    destruct (callback t); cbn [run_callback].
    + unfold reload_timers, reload_done.
      cbn [upd_st upd_host host st pending set_pending reloading set_reloading
           set_reserveAmmo set_ammo].
      destruct (reloading (st w)); lia.
    + rewrite resetGame_reload_timers.
      destruct (resetGame_ammo random
                  (upd_host (fun h => set_pending (splice i (pending h)) h) w))
        as [_ [_ ->]].
      unfold reload_timers.
      cbn [upd_host host st pending set_pending].
      lia.
  - destruct (intervals (host w)); [exact H|]. unfold wave_tick.
    destruct (_ <? _)%Z; [|exact H].
    destruct (spawnEnemies_spec random WAVE_SIZE w) as [sp [_ [_ [_ [Hp _]]]]].
    destruct (spawnEnemies_ammo random WAVE_SIZE w) as [_ [_ ->]].
    rewrite (reload_timers_same _ _ Hp). exact H.
  - rewrite resetGame_reload_timers.
    destruct (resetGame_ammo random w) as [_ [_ ->]]. exact H.
  - exact H.
  - exact H.
  - exact H.
Qed.

(** X21.  A reload cannot get stuck, and cannot complete twice.  Whatever
    happens after [init], the reloading flag is set exactly while one
    completion of a reload is pending: there is one such timer when the
    flag is set and none when it is clear.  Damage, death, respawn and
    restart neither drop the timer nor clear the flag. *)
Theorem X21_reload_flag_and_timer (t0 : Q) (evs : list Event) :
  let w := run random intersectObjects evs (init random (boot t0)) in
  reload_timers w = (if reloading (st w) then 1 else 0)%nat.
Proof.
  cbv zeta. unfold run.
  assert (H0 : reload_timers (init random (boot t0)) =
               (if reloading (st (init random (boot t0))) then 1 else 0)%nat).
  { unfold init, populateWorld, reload_timers.
    match goal with |- context [startWaveSpawner ?u] =>
      destruct (startWaveSpawner_spec u) as [-> [_ [-> _]]] end.
    match goal with |- context [spawnEnemies random ?c ?u] =>
      destruct (spawnEnemies_spec random c u) as [l [_ [_ [_ [-> _]]]]];
      destruct (spawnEnemies_ammo random c u) as [_ [_ ->]] end.
    match goal with |- context [decorate random ?n ?u] =>
      destruct (decorate_frame random n u) as [-> [_ [-> _]]] end.
    reflexivity. }
  revert H0. generalize (init random (boot t0)) as w.
  induction evs as [|ev evs IH]; intros w Hw; cbn [fold_left]; [exact Hw|].
  apply IH, reload_sync_step, Hw.
Qed.

End ReloadTimers.

(** ** The mouse-drag fallback *)

Lemma pitch_limit_range : (1 < pitch_limit < PI / 2)%R.
Proof.
  unfold pitch_limit. pose proof PI2_3_2. lra.
Qed.

(** X22.  A drag with the left button held, once the fallback is on,
    turns the yaw by exactly 0.0025 per unit of horizontal movement and
    leaves the pitch within [PI/2 - 0.01] of the horizon, whatever the
    pitch was and however far the mouse moved: the view never reaches
    straight up or down (its cosine stays positive), and where the new
    pitch would lie within the limit it is exactly the old one minus
    0.0025 per unit of vertical movement.  With the fallback off, or with
    any other combination of buttons, the listener changes nothing. *)
Theorem X22_drag_keeps_pitch (e : MouseEvent) (w : World) (rotation : Euler) :
  (allowMouseDragFallback (gl w) = true -> buttons e = 1%Z ->
   (- pitch_limit <= rot_x (mouse_drag e w rotation) <= pitch_limit)%R /\
   (0 < cos (rot_x (mouse_drag e w rotation)))%R /\
   rot_y (mouse_drag e w rotation) =
     (rot_y rotation - movementX e * 0.0025)%R /\
   ((- pitch_limit <= rot_x rotation - movementY e * 0.0025 <= pitch_limit)%R ->
    rot_x (mouse_drag e w rotation) =
      (rot_x rotation - movementY e * 0.0025)%R)) /\
  (allowMouseDragFallback (gl w) = false \/ buttons e <> 1%Z ->
   mouse_drag e w rotation = rotation).
Proof.
  pose proof pitch_limit_range as Hl.
  split.
  - intros Ha Hb. unfold mouse_drag. rewrite Ha, Hb. cbn [negb Z.eqb Pos.eqb].
    cbn [rot_x rot_y].
    set (x := (rot_x rotation - movementY e * 0.0025)%R).
    assert (Hr : (- pitch_limit <= Rmax (- pitch_limit) (Rmin pitch_limit x)
                  <= pitch_limit)%R).
    { split; [apply Rmax_l|].
      apply Rmax_lub; [lra | apply Rmin_l]. }
    split; [exact Hr|]. split; [apply cos_gt_0; lra|].
    split; [reflexivity|].
    intros [H1 H2]. rewrite Rmin_right by exact H2.
    apply Rmax_right. exact H1.
  - intros [Ha | Hb]; unfold mouse_drag.
    + rewrite Ha. reflexivity.
    + destruct (allowMouseDragFallback (gl w)); [|reflexivity].
      cbn [negb]. destruct (Z.eqb_spec (buttons e) 1); [contradiction|].
      reflexivity.
Qed.

Lemma X22_drag_keeps_pitch_witness :
  (- pitch_limit
   <= rot_x (mouse_drag drag_up dragging {| rot_x := 0; rot_y := 0 |})
   <= pitch_limit)%R /\
  mouse_drag drag_up started {| rot_x := 0; rot_y := 0 |} =
    {| rot_x := 0; rot_y := 0 |}.
Proof.
  destruct (X22_drag_keeps_pitch drag_up dragging {| rot_x := 0; rot_y := 0 |})
    as [H1 _].
  destruct (X22_drag_keeps_pitch drag_up started {| rot_x := 0; rot_y := 0 |})
    as [_ H2].
  split.
  - apply H1; reflexivity.
  - apply H2. left. reflexivity.
Defined.

(** ** The direction of the keys, at all times *)

Lemma intent_direction_flat (w : World) :
  y_ (direction (st w)) = 0%R ->
  y_ (intent_direction w) = 0%R /\
  (intent_direction w = vec3 0 0 0 \/
   (x_ (intent_direction w) * x_ (intent_direction w) +
    z_ (intent_direction w) * z_ (intent_direction w) = 1)%R).
Proof.
  intros Hy. pose proof (intent_direction_cases w Hy) as Hc. cbv zeta in Hc.
  destruct Hc as [[_ [_ ->]] | [_ [L [HL [Hsq ->]]]]].
  - split; [reflexivity | left; reflexivity].
  - split; [reflexivity | right]. cbn [x_ z_].
    set (dx := (Number (right (move (st w))) - Number (left (move (st w))))%R) in *.
    set (dz := (Number (fwd (move (st w))) - Number (bwd (move (st w))))%R) in *.
    replace (dx * (1 / L) * (dx * (1 / L)) + dz * (1 / L) * (dz * (1 / L)))%R
      with ((dx * dx + dz * dz) * (1 / L) * (1 / L))%R by ring.
    rewrite <- Hsq. field. lra.
Qed.

Lemma updatePlayerMovement_direction (delta : R) (w : World) :
  y_ (direction (st w)) = 0%R ->
  y_ (direction (st (updatePlayerMovement delta w))) = 0%R.
Proof.
  intros Hy. destruct (intent_direction_flat w Hy) as [Hd _].
  unfold updatePlayerMovement. destruct (negb _ && negb _); [exact Hy|].
  destruct (Rltb _ _); cbn [st upd_gl upd_st direction set_onGround
                            set_direction]; exact Hd.
Qed.

Section DirectionOfKeys.
Variable random : nat -> R.
Variable intersectObjects :
  Vector3 -> Vector3 -> list Object3D -> list Intersection.

Lemma shoot_direction (now : Q) (w : World) :
  direction (st (shoot intersectObjects now w)) = direction (st w).
Proof.
  unfold shoot. destruct (Qltb _ _); [reflexivity|].
  destruct (reloading (st w)); [reflexivity|].
  destruct (_ <=? 0)%Z; [apply reload_rest|].
  destruct (shot_hits _ _); [reflexivity|].
  destruct (find_root _ _); reflexivity.
Qed.

Lemma resetGame_direction (w : World) :
  direction (st (resetGame random w)) = direction (st w).
Proof.
  destruct (playerObj (gl w)) eqn:Hp.
  - destruct (resetGame_frame random w Hp) as [l [Hst _]]. rewrite Hst.
    reflexivity.
  - rewrite (resetGame_guard random w Hp). reflexivity.
Qed.

Lemma step_direction (ev : Event) (w : World) :
  y_ (direction (st w)) = 0%R ->
  y_ (direction (st (step random intersectObjects ev w))) = 0%R.
Proof.
  intros Hy. destruct ev; cbn [step].
  - unfold animate.
    match goal with |- context [updateEnemies ?d ?u] =>
      destruct (updateEnemies_frame d u) as [_ [_ [_ [_ [_ [Ed _]]]]]];
      pose proof (updatePlayerMovement_direction d
                    (upd_gl (set_prevTime time) w) Hy) as Hd
    end.
    unfold updateCamera. destruct (playerObj _); cbn [st upd_gl];
      rewrite Ed; exact Hd.
  - rewrite shoot_direction. exact Hy.
  - destruct code; cbn [onKey]; try exact Hy.
    + destruct (pressed && _); exact Hy.
    + destruct pressed; [|exact Hy].
      destruct (reload_rest w) as [_ [_ [_ [_ ->]]]]. exact Hy.
  - destruct (nth_error _ i) as [t|]; [|exact Hy].
    destruct (callback t); cbn [run_callback];
      [exact Hy | rewrite resetGame_direction; exact Hy].
  - destruct (intervals (host w)); [exact Hy|]. unfold wave_tick.
    destruct (_ <? _)%Z; [|exact Hy].
    destruct (spawnEnemies_spec random WAVE_SIZE w) as [sp [Hst _]].
    rewrite Hst. exact Hy.
  - rewrite resetGame_direction. exact Hy.
  - exact Hy.
  - exact Hy.
  - exact Hy.
Qed.

(** X23.  At every moment of a game, whatever keys are held, the
    direction the keys ask for is horizontal and is either the zero vector
    or a unit vector: [state.direction.y] is never written and stays 0,
    so normalising never shortens the horizontal part, and no combination
    of keys moves the player faster than a single key does. *)
Theorem X23_key_direction_always_unit (t0 : Q) (evs : list Event) :
  let w := run random intersectObjects evs (init random (boot t0)) in
  y_ (direction (st w)) = 0%R /\
  y_ (intent_direction w) = 0%R /\
  (intent_direction w = vec3 0 0 0 \/
   (x_ (intent_direction w) * x_ (intent_direction w) +
    z_ (intent_direction w) * z_ (intent_direction w) = 1)%R).
Proof.
  cbv zeta.
  assert (Hy : y_ (direction (st (run random intersectObjects evs
                                    (init random (boot t0))))) = 0%R).
  { unfold run.
    assert (H0 : y_ (direction (st (init random (boot t0)))) = 0%R).
    { unfold init, populateWorld.
      match goal with |- context [startWaveSpawner ?u] =>
        destruct (startWaveSpawner_spec u) as [-> _] end.
      match goal with |- context [spawnEnemies random ?c ?u] =>
        destruct (spawnEnemies_spec random c u) as [l [-> _]] end.
      match goal with |- context [decorate random ?n ?u] =>
        destruct (decorate_frame random n u) as [-> _] end.
      reflexivity. }
    revert H0. generalize (init random (boot t0)) as w.
    induction evs as [|ev evs IH]; intros w Hw; cbn [fold_left]; [exact Hw|].
    apply IH, step_direction, Hw. }
  split; [exact Hy|]. apply intent_direction_flat, Hy.
Qed.

End DirectionOfKeys.
